(** * The record parser of the PDF extractor

    A shallow embedding of [CompletePDFExtractor.parse_page_content_to_json]
    (src/Sonnet4/complete_pdf_extrator.py): the function that turns the text
    transcribed from the pages of a PDF into the structured record that is
    exported as JSON.

    The parser is a chain of [re.search] and [re.findall] calls followed by
    [float], [str.strip], [str.split] and [str.replace] conversions.  The
    development therefore has three layers:

    - Python strings and the built-ins the parser calls on them;
    - a backtracking regular-expression matcher with Python's priorities
      (leftmost start, greedy and lazy repetition, ordered alternation,
      capture groups), with [re.search] and [re.findall] on top of it;
    - the parser itself, statement by statement, in an exception monad. *)

From Stdlib Require Import List NArith ZArith Bool Lia String Ascii Sorted.
Import ListNotations.

(** ** Python strings *)

(** A Python [str] is a sequence of Unicode code points. *)
Definition char := N.
Definition str := list char.

Fixpoint lit (s : string) : str :=
  match s with
  | EmptyString => []
  | String a s' => N_of_ascii a :: lit s'
  end.

Coercion lit : string >-> str.

Definition nl : char := 10%N.
Definition comma : char := 44%N.
Definition pipe : char := 124%N.
Definition degree : char := 176%N.

(** The interpreter classifies the code points above ASCII with its Unicode
    database, which is no part of the repository: it is a parameter of the
    development.  [decimal_value c] is the digit value of a code point of
    category Nd, [isalnum] is [str.isalnum] and [isspace] is [str.isspace];
    the three are consulted above code point 127 only. *)
Record unicode_db := {
  decimal_value : char -> option N;
  isalnum : char -> bool;
  isspace : char -> bool
}.

(** The database with no entry above ASCII. *)
Definition ascii_db : unicode_db :=
  {| decimal_value := fun _ => None;
     isalnum := fun _ => false;
     isspace := fun _ => false |}.

(** ** Exceptions *)

Inductive exn := ValueError | IndexError | AttributeError | TypeError.

Inductive result (A : Type) :=
| Ok (a : A)
| Raise (e : exn).

Arguments Ok {A} a.
Arguments Raise {A} e.

Definition bind {A B} (c : result A) (k : A -> result B) : result B :=
  match c with
  | Ok a => k a
  | Raise e => Raise e
  end.

Notation "x <- c ;; k" := (bind c (fun x => k))
  (at level 61, c at next level, right associativity).

(** [try: c  except: h] with a bare [except]. *)
Definition try_except {A} (c : result A) (h : result A) : result A :=
  match c with
  | Ok a => Ok a
  | Raise _ => h
  end.

(** A [for] loop that builds a list and stops at the first exception. *)
Fixpoint mapM {A B} (f : A -> result B) (l : list A) : result (list B) :=
  match l with
  | [] => Ok []
  | a :: l' => b <- f a ;; bs <- mapM f l' ;; Ok (b :: bs)
  end.

(** ** Floating point numbers *)

(** A binary64 value: [F_finite neg m e] is [(-1)^neg * m * 2^e]. *)
Inductive pyfloat :=
| F_nan
| F_inf (neg : bool)
| F_zero (neg : bool)
| F_finite (neg : bool) (m : positive) (e : Z).

Section Binary64.
Open Scope Z_scope.

(** [n * 2^(-ex) / d]: quotient, remainder and divisor. *)
Definition scaled_div (n d ex : Z) : Z * Z * Z :=
  let num := if 0 <=? ex then n else n * 2 ^ (- ex) in
  let den := if 0 <=? ex then d * 2 ^ ex else d in
  (num / den, num mod den, den).

(** The binary64 nearest to [n / d] (ties to even), for [n] and [d]
    positive: what a correctly rounded [strtod] returns. *)
Definition round_binary64 (neg : bool) (n d : Z) : pyfloat :=
  let ex0 := Z.log2 n - Z.log2 d - 52 in
  let '(q0, _, _) := scaled_div n d ex0 in
  let ex1 := if q0 <? 2 ^ 52 then ex0 - 1 else ex0 in
  let ex := Z.max ex1 (-1074) in
  let '(q, r, den) := scaled_div n d ex in
  let up := (den <? 2 * r) || ((den =? 2 * r) && Z.odd q) in
  let q' := if up then q + 1 else q in
  let '(m, e) := if q' =? 2 ^ 53 then (2 ^ 52, ex + 1) else (q', ex) in
  if 971 <? e then F_inf neg
  else match m with
       | Zpos p => F_finite neg p e
       | _ => F_zero neg
       end.

(** The float denoted by the decimal [m * 10^e]. *)
Definition float_of_decimal (neg : bool) (m : N) (e : Z) : pyfloat :=
  match m with
  | N0 => F_zero neg
  | Npos p =>
      if 0 <=? e then round_binary64 neg (Zpos p * 10 ^ e) 1
      else round_binary64 neg (Zpos p) (10 ^ (- e))
  end.

End Binary64.

(** A non-negative decimal constant, as written in a record. *)
Definition dec (m : N) (e : Z) : pyfloat := float_of_decimal false m e.

(** ** The structured record *)

(** A Python [dict] with string keys: the keys in insertion order, each
    once. *)
Definition dict (V : Type) := list (str * V).

Definition str_eqb (a b : str) : bool :=
  if list_eq_dec N.eq_dec a b then true else false.

(** [d[k] = v] *)
Fixpoint dict_set {V} (k : str) (v : V) (d : dict V) : dict V :=
  match d with
  | [] => [(k, v)]
  | (k', v') :: d' =>
      if str_eqb k' k then (k', v) :: d' else (k', v') :: dict_set k v d'
  end.

(** [d.get(k)] *)
Fixpoint dict_get {V} (k : str) (d : dict V) : option V :=
  match d with
  | [] => None
  | (k', v') :: d' => if str_eqb k' k then Some v' else dict_get k d'
  end.

(** An entry of [standard_curve_wells]. *)
Module StandardWell.
Record t := {
  well : str;
  concentration : pyfloat;
  fluorescence_value : pyfloat;
  reduced_value : pyfloat;
  date : str
}.
End StandardWell.

(** An entry of [control_and_sample_wells]; [None] is Python's [None]. *)
Module ControlWell.
Record t := {
  well : str;
  sample_type : str;
  fluorescence_value : option pyfloat;
  reduced_value : option pyfloat;
  date : option str
}.
End ControlWell.

Record SampleData := {
  standard_curve_wells : list StandardWell.t;
  control_and_sample_wells : list ControlWell.t
}.

(** A cell of the standards table: a float, or the text of the cell. *)
Inductive cell :=
| CellFloat (f : pyfloat)
| CellStr (s : str).

Record StandardsTable := {
  headers : list str;
  data : list (dict cell)
}.

(** The [data] dictionary the parser returns.  The values of the three
    information dictionaries are what [m.group(1)] yields: a string, or
    [None]. *)
Record StructuredRecord := {
  document_info : dict (option str);
  instrument_settings : dict (option str);
  instrument_info : dict (option str);
  sample_data : SampleData;
  standards_table : StandardsTable;
  key_calculation : option str;
  full_content : str
}.

Section Extractor.

Variable U : unicode_db.

Open Scope string_scope.
Open Scope list_scope.
Open Scope N_scope.

(** ** Character classes *)

Definition is_ascii (c : char) : bool := c <? 128.

Definition ascii_digit (c : char) : bool := (48 <=? c) && (c <=? 57).
Definition ascii_upper (c : char) : bool := (65 <=? c) && (c <=? 90).
Definition ascii_lower (c : char) : bool := (97 <=? c) && (c <=? 122).

(** [\d]: a Unicode decimal digit. *)
Definition is_decimal (c : char) : bool :=
  if is_ascii c then ascii_digit c
  else match decimal_value U c with
       | Some d => d <? 10
       | None => false
       end.

(** [\w]: alphanumeric or underscore. *)
Definition is_word (c : char) : bool :=
  if is_ascii c then ascii_digit c || ascii_upper c || ascii_lower c || (c =? 95)
  else isalnum U c.

(** [str.isspace]. *)
Definition is_space (c : char) : bool :=
  if is_ascii c then ((9 <=? c) && (c <=? 13)) || ((28 <=? c) && (c <=? 32))
  else isspace U c.

Definition to_lower (c : char) : char :=
  if ascii_upper c then c + 32 else c.

Definition to_upper (c : char) : char :=
  if ascii_lower c then c - 32 else c.

(** ** String methods *)

Fixpoint dropwhile (p : char -> bool) (s : str) : str :=
  match s with
  | [] => []
  | c :: s' => if p c then dropwhile p s' else s
  end.

Definition strip_with (p : char -> bool) (s : str) : str :=
  rev (dropwhile p (rev (dropwhile p s))).

(** [s.strip()] *)
Definition strip (s : str) : str := strip_with is_space s.

(** [s.split(sep)] for a separator of one character. *)
Fixpoint split (sep : char) (s : str) : list str :=
  match s with
  | [] => [[]]
  | c :: s' =>
      if c =? sep then [] :: split sep s'
      else match split sep s' with
           | w :: ws => (c :: w) :: ws
           | [] => [[c]]
           end
  end.

(** [s.replace(',', '')] *)
Definition remove_commas (s : str) : str :=
  filter (fun c => negb (c =? comma)) s.

(** [l[1:-1]] *)
Definition slice_1_m1 {A} (l : list A) : list A := removelast (tl l).

(** [l[2:]] *)
Definition slice_2 {A} (l : list A) : list A := skipn 2 l.

(** ** [float(s)] *)

(** Decimal digits and spaces above ASCII are read as their ASCII
    counterparts; any other code point above ASCII is not part of a number. *)
Definition to_ascii (c : char) : char :=
  if is_ascii c then c
  else if isspace U c then 32
  else match decimal_value U c with
       | Some d => if d <? 10 then 48 + d else 63
       | None => 63
       end.

Definition c_isspace (c : char) : bool :=
  ((9 <=? c) && (c <=? 13)) || (c =? 32).

Definition digit_val (c : char) : N := c - 48.

(** The rest of a [digitpart] after its first digit: digits, each
    optionally preceded by one underscore. *)
Fixpoint digits_tail (s : str) : list N * str :=
  match s with
  | [] => ([], [])
  | c :: s' =>
      if ascii_digit c then
        let '(ds, r) := digits_tail s' in (digit_val c :: ds, r)
      else if c =? 95 then
        match s' with
        | d :: s'' =>
            if ascii_digit d then
              let '(ds, r) := digits_tail s'' in (digit_val d :: ds, r)
            else ([], s)
        | [] => ([], s)
        end
      else ([], s)
  end.

(** [digitpart ::= digit (["_"] digit)*], possibly absent. *)
Definition digitpart (s : str) : list N * str :=
  match s with
  | c :: s' =>
      if ascii_digit c then
        let '(ds, r) := digits_tail s' in (digit_val c :: ds, r)
      else ([], s)
  | [] => ([], [])
  end.

Definition digits_value (ds : list N) : N :=
  fold_left (fun acc d => 10 * acc + d) ds 0.

Definition sign_of (s : str) : bool * str :=
  match s with
  | 43 :: s' => (false, s')
  | 45 :: s' => (true, s')
  | _ => (false, s)
  end.

(** [exponent ::= ("e" | "E") [sign] digitpart], possibly absent. *)
Definition exponent (s : str) : option (Z * str) :=
  match s with
  | c :: s' =>
      if (c =? 101) || (c =? 69) then
        let '(neg, s1) := sign_of s' in
        match digitpart s1 with
        | ([], _) => None
        | (ds, r) =>
            let v := Z.of_N (digits_value ds) in
            Some (if neg then (- v)%Z else v, r)
        end
      else Some (0%Z, s)
  | [] => Some (0%Z, [])
  end.

(** [floatnumber ::= ([digitpart] "." digitpart | digitpart ["."]) [exponent]] *)
Definition floatnumber (neg : bool) (s : str) : result pyfloat :=
  let '(ip, s1) := digitpart s in
  let '(fp, s2) :=
    match s1 with
    | 46 :: s1' => digitpart s1'
    | _ => ([], s1)
    end in
  match ip, fp with
  | [], [] => Raise ValueError
  | _, _ =>
      match exponent s2 with
      | Some (e, []) =>
          Ok (float_of_decimal neg (digits_value (ip ++ fp))
                (e - Z.of_nat (List.length fp)))
      | _ => Raise ValueError
      end
  end.

Definition float (s : str) : result pyfloat :=
  let t := strip_with c_isspace (map to_ascii s) in
  let '(neg, body) := sign_of t in
  let low := map to_lower body in
  if str_eqb low "inf" || str_eqb low "infinity" then Ok (F_inf neg)
  else if str_eqb low "nan" then Ok F_nan
  else floatnumber neg body.

(** ** Regular expressions *)

(** The members of a bracketed set: a character, a range, [\d] or [\w]. *)
Inductive citem :=
| CChar (c : char)
| CRange (lo hi : char)
| CDigit
| CWord.

(** What one position of a pattern accepts: [.] or a bracketed set. *)
Inductive cset :=
| Dot
| OneOf (items : list citem).

(** The patterns of the parser: literal text, one character of a set, a
    repeated set ([+], [+?], [{n}]), concatenation, alternation and capture
    groups.  Repetition applies to sets only, as in every pattern of the
    source. *)
Inductive regex :=
| Lit (s : str)
| Cls (cs : cset)
| Rep (cs : cset) (lo : nat) (hi : option nat) (greedy : bool)
| Cat (r1 r2 : regex)
| Alt (r1 r2 : regex)
| Grp (k : nat) (r : regex).

Infix ">>" := Cat (at level 60, right associativity).

(** [re.IGNORECASE] and [re.DOTALL]. *)
Record flags := { ignorecase : bool; dotall : bool }.

Definition no_flags : flags := {| ignorecase := false; dotall := false |}.
Definition IGNORECASE : flags := {| ignorecase := true; dotall := false |}.
Definition DOTALL : flags := {| ignorecase := false; dotall := true |}.

Definition item_accepts (it : citem) (c : char) : bool :=
  match it with
  | CChar a => c =? a
  | CRange lo hi => (lo <=? c) && (c <=? hi)
  | CDigit => is_decimal c
  | CWord => is_word c
  end.

Definition accepts (fl : flags) (cs : cset) (c : char) : bool :=
  match cs with
  | Dot => dotall fl || negb (c =? nl)
  | OneOf items =>
      existsb (fun it =>
                 item_accepts it c
                 || (ignorecase fl
                     && (item_accepts it (to_lower c) || item_accepts it (to_upper c))))
              items
  end.

(** A literal character of the pattern against a character of the text.
    Under [IGNORECASE] the two are compared in lower case; the letters of
    the one pattern compiled with that flag ([Read By]) have no other case
    variant in Unicode than their ASCII ones. *)
Definition char_matches (fl : flags) (a c : char) : bool :=
  (a =? c) || (ignorecase fl && (to_lower a =? to_lower c)).

(** The text a literal matches at the head of [s], and what follows it. *)
Fixpoint match_lit (fl : flags) (l s : str) : option (str * str) :=
  match l with
  | [] => Some ([], s)
  | a :: l' =>
      match s with
      | c :: s' =>
          if char_matches fl a c then
            match match_lit fl l' s' with
            | Some (m, r) => Some (c :: m, r)
            | None => None
            end
          else None
      | [] => None
      end
  end.

Definition allows_one (hi : option nat) : bool :=
  match hi with
  | Some O => false
  | _ => true
  end.

(** The ways to take between [lo] and [hi] accepted characters from the head
    of [s], shortest first. *)
Fixpoint rep_splits (p : char -> bool) (lo : nat) (hi : option nat) (s : str)
  : list (str * str) :=
  (match lo with O => [([], s)] | S _ => [] end)
  ++ match s with
     | c :: s' =>
         if p c && allows_one hi then
           map (fun ab => (c :: fst ab, snd ab))
               (rep_splits p (pred lo) (option_map pred hi) s')
         else []
     | [] => []
     end.

(** One way of matching: the text matched, the text after it and the
    groups that took part, latest first. *)
Record mres := { matched : str; rest : str; groups : list (nat * str) }.

(** Every way [r] matches at the head of [s], in the order in which a
    backtracking matcher tries them: the head of the list is the match that
    Python reports. *)
Fixpoint matches (fl : flags) (r : regex) (s : str) : list mres :=
  match r with
  | Lit l =>
      match match_lit fl l s with
      | Some (m, s') => [{| matched := m; rest := s'; groups := [] |}]
      | None => []
      end
  | Cls cs =>
      match s with
      | c :: s' =>
          if accepts fl cs c then [{| matched := [c]; rest := s'; groups := [] |}]
          else []
      | [] => []
      end
  | Rep cs lo hi greedy =>
      let sp := rep_splits (accepts fl cs) lo hi s in
      map (fun ab => {| matched := fst ab; rest := snd ab; groups := [] |})
          (if greedy then rev sp else sp)
  | Cat r1 r2 =>
      flat_map
        (fun m1 =>
           map (fun m2 => {| matched := matched m1 ++ matched m2;
                            rest := rest m2;
                            groups := groups m2 ++ groups m1 |})
               (matches fl r2 (rest m1)))
        (matches fl r1 s)
  | Alt r1 r2 => matches fl r1 s ++ matches fl r2 s
  | Grp k r1 =>
      map (fun m => {| matched := matched m; rest := rest m;
                       groups := (k, matched m) :: groups m |})
          (matches fl r1 s)
  end.

(** [pattern.match(s)]: the first way, if any. *)
Definition match_at (fl : flags) (r : regex) (s : str) : option mres :=
  hd_error (matches fl r s).

(** [m.group(k)]: [None] when group [k] took no part in the match. *)
Fixpoint lookup_group (k : nat) (gs : list (nat * str)) : option str :=
  match gs with
  | [] => None
  | (j, g) :: gs' => if Nat.eqb j k then Some g else lookup_group k gs'
  end.

Definition group (m : mres) (k : nat) : option str :=
  lookup_group k (groups m).

(** [re.search]: the match at the leftmost position that has one, with the
    position. *)
Fixpoint search_from (fl : flags) (r : regex) (s : str) (pos : nat)
  : option (nat * mres) :=
  match match_at fl r s with
  | Some m => Some (pos, m)
  | None =>
      match s with
      | [] => None
      | _ :: s' => search_from fl r s' (S pos)
      end
  end.

Definition re_search (fl : flags) (r : regex) (s : str) : option mres :=
  option_map snd (search_from fl r s 0).

Definition is_empty (m : mres) : bool :=
  match matched m with [] => true | _ => false end.

(** The scan of [re.finditer]: successive matches, none overlapping the one
    before it, with their positions.  [skip] counts the characters still
    covered by the last match.  After an empty match the scan asks for a match
    at the same place that is not empty, then moves on. *)
Fixpoint finditer_from (fl : flags) (r : regex) (s : str) (pos skip : nat)
  : list (nat * mres) :=
  match skip with
  | S k =>
      match s with
      | [] => []
      | _ :: s' => finditer_from fl r s' (S pos) k
      end
  | O =>
      let ms := matches fl r s in
      let continue (k : nat) :=
        match s with
        | [] => []
        | _ :: s' => finditer_from fl r s' (S pos) k
        end in
      match ms with
      | [] => continue O
      | m1 :: _ =>
          if is_empty m1 then
            match find (fun m => negb (is_empty m)) ms with
            | Some m2 => (pos, m1) :: (pos, m2) :: continue (pred (List.length (matched m2)))
            | None => (pos, m1) :: continue O
            end
          else (pos, m1) :: continue (pred (List.length (matched m1)))
      end
  end.

Definition finditer (fl : flags) (r : regex) (s : str) : list (nat * mres) :=
  finditer_from fl r s 0 0.

(** A group as [re.findall] reports it: the empty string when it took no
    part. *)
Definition group_or_empty (m : mres) (k : nat) : str :=
  match group m k with
  | Some g => g
  | None => []
  end.

Definition tuple5 (m : mres) : str * str * str * str * str :=
  (group_or_empty m 1, group_or_empty m 2, group_or_empty m 3,
   group_or_empty m 4, group_or_empty m 5).

(** [re.findall] for a pattern of five groups. *)
Definition findall5 (fl : flags) (r : regex) (s : str)
  : list (str * str * str * str * str) :=
  map (fun pm => tuple5 (snd pm)) (finditer fl r s).

(** ** The patterns of the parser *)

Definition char_of (s : string) : char := hd 0 (lit s).

Definition plus (cs : cset) : regex := Rep cs 1 None true.
Definition plus_lazy (cs : cset) : regex := Rep cs 1 None false.
Definition exactly (n : nat) (cs : cset) : regex := Rep cs n (Some n) true.

Definition digit : cset := OneOf [CDigit].
Definition word : cset := OneOf [CWord].
Definition letter : cset := OneOf [CRange (char_of "A") (char_of "Z"); CRange (char_of "a") (char_of "z")].
(** [[\d\.]] *)
Definition digit_dot : cset := OneOf [CDigit; CChar (char_of ".")].
(** [[\d\.e,]] *)
Definition number_chars : cset := OneOf [CDigit; CChar (char_of "."); CChar (char_of "e"); CChar comma].
(** [[\d\-: ]] *)
Definition stamp_chars : cset := OneOf [CDigit; CChar (char_of "-"); CChar (char_of ":"); CChar (char_of " ")].

(** [# Document Analysis - (.+)] *)
Definition re_doc_title : regex :=
  Lit "# Document Analysis - " >> Grp 1 (plus Dot).

(** [\*\*Title:\*\* (.+)] *)
Definition re_title : regex :=
  Lit "**Title:** " >> Grp 1 (plus Dot).

(** [QC Verified Protocols/(.+?) - Document Status] *)
Definition re_qc : regex :=
  Lit "QC Verified Protocols/" >> Grp 1 (plus_lazy Dot) >> Lit " - Document Status".

(** [Document Status: (\w+)] *)
Definition re_status : regex :=
  Lit "Document Status: " >> Grp 1 (plus word).

(** [\*\*(\d{2}-[A-Za-z]{3}-\d{4} \d{2}:\d{2}:\d{2})\*\*] *)
Definition re_date : regex :=
  Lit "**"
  >> Grp 1 (exactly 2 digit >> Lit "-" >> exactly 3 letter >> Lit "-"
            >> exactly 4 digit >> Lit " " >> exactly 2 digit >> Lit ":"
            >> exactly 2 digit >> Lit ":" >> exactly 2 digit)
  >> Lit "**".

(** [\*\*Wavelength Combination:\*\* (\w+)] *)
Definition re_wl_comb : regex :=
  Lit "**Wavelength Combination:** " >> Grp 1 (plus word).

(** [\*\*Instrument:\*\* (.+)] *)
Definition re_instr : regex :=
  Lit "**Instrument:** " >> Grp 1 (plus Dot).

(** [\*\*ROM:\*\* (.+)] *)
Definition re_rom : regex :=
  Lit "**ROM:** " >> Grp 1 (plus Dot).

(** [\*\*Start Read:\*\* (.+)] *)
Definition re_start_read : regex :=
  Lit "**Start Read:** " >> Grp 1 (plus Dot).

(** [\*\*Mean Temperature:\*\* ([\d\.]+)°C] *)
Definition re_temp : regex :=
  Lit "**Mean Temperature:** " >> Grp 1 (plus digit_dot) >> Lit [degree; char_of "C"].

(** [\*\*Read By:\*\* (.+)], compiled with [re.IGNORECASE] *)
Definition re_operator : regex :=
  Lit "**Read By:** " >> Grp 1 (plus Dot).

(** [- \*\*(A\d)\*\*: ([\d\.]+) Std - ([\d\.e,]+) \(Reduced: ([\d\.e,]+)\) - Date: ([\d\-: ]+)] *)
Definition re_stds : regex :=
  Lit "- **" >> Grp 1 (Lit "A" >> Cls digit) >> Lit "**: "
  >> Grp 2 (plus digit_dot) >> Lit " Std - "
  >> Grp 3 (plus number_chars) >> Lit " (Reduced: "
  >> Grp 4 (plus number_chars) >> Lit ") - Date: "
  >> Grp 5 (plus stamp_chars).

(** [- \*\*(B\d)\*\*: (.+?) - (?:(?P<val>[\d\.e,]+) \(Reduced: (?P<red>[\d\.e,]+)\) - Date: (?P<date>[\d\-: ]+)|Date: No Data)] *)
Definition re_controls : regex :=
  Lit "- **" >> Grp 1 (Lit "B" >> Cls digit) >> Lit "**: "
  >> Grp 2 (plus_lazy Dot) >> Lit " - "
  >> Alt (Grp 3 (plus number_chars) >> Lit " (Reduced: "
          >> Grp 4 (plus number_chars) >> Lit ") - Date: "
          >> Grp 5 (plus stamp_chars))
         (Lit "Date: No Data").

Definition table_heading : str := lit "## Standards Table" ++ [nl].

(** [## Standards Table\n(.+?)\n\n], compiled with [re.DOTALL] *)
Definition re_table : regex :=
  Lit table_heading >> Grp 1 (plus_lazy Dot) >> Lit [nl; nl].

(** [## Key Calculations\n\*\*(.+)\*\*] *)
Definition re_key_calc : regex :=
  Lit (lit "## Key Calculations" ++ [nl] ++ lit "**") >> Grp 1 (plus Dot) >> Lit "**".

(** ** The parser *)

(** [x.strip()] for [x] a string or [None]. *)
Definition py_strip (x : option str) : result str :=
  match x with
  | Some s => Ok (strip s)
  | None => Raise AttributeError
  end.

(** [x + s] for [x] a string or [None]. *)
Definition py_add (x : option str) (s : str) : result str :=
  match x with
  | Some g => Ok (g ++ s)
  | None => Raise TypeError
  end.

(** [l[i]] *)
Definition index {A} (l : list A) (i : nat) : result A :=
  match nth_error l i with
  | Some a => Ok a
  | None => Raise IndexError
  end.

(** [if m: d[k] = f(m)] *)
Definition store_if {V} (m : option mres) (k : str) (f : mres -> result V)
    (d : dict V) : result (dict V) :=
  match m with
  | Some m => v <- f m ;; Ok (dict_set k v d)
  | None => Ok d
  end.

Definition group1_strip (m : mres) : result (option str) :=
  v <- py_strip (group m 1) ;; Ok (Some v).

(** The statements under [# Document Info]. *)
Definition extract_document_info (page_content : str) : result (dict (option str)) :=
  let d := [] in
  let doc_title := re_search no_flags re_doc_title page_content in
  d <- store_if doc_title "title" group1_strip d ;;
  let title := re_search no_flags re_title page_content in
  d <- store_if title "document_title" group1_strip d ;;
  let qc := re_search no_flags re_qc page_content in
  d <- store_if qc "qc_protocol" group1_strip d ;;
  let status := re_search no_flags re_status page_content in
  d <- store_if status "status" group1_strip d ;;
  let date := re_search no_flags re_date page_content in
  d <- store_if date "date" (fun m => Ok (group m 1)) d ;;
  Ok d.

(** The statements under [# Instrument Settings]. *)
Definition extract_instrument_settings (page_content : str) : result (dict (option str)) :=
  let d := [] in
  let wl_comb := re_search no_flags re_wl_comb page_content in
  d <- store_if wl_comb "wavelength_combination" (fun m => Ok (group m 1)) d ;;
  Ok d.

(** The statements under [# Instrument Info]. *)
Definition extract_instrument_info (page_content : str) : result (dict (option str)) :=
  let d := [] in
  let instr := re_search no_flags re_instr page_content in
  d <- store_if instr "instrument" group1_strip d ;;
  let rom := re_search no_flags re_rom page_content in
  d <- store_if rom "rom" group1_strip d ;;
  let start_read := re_search no_flags re_start_read page_content in
  d <- store_if start_read "start_read" group1_strip d ;;
  let temp := re_search no_flags re_temp page_content in
  d <- store_if temp "mean_temperature"
         (fun m => v <- py_add (group m 1) [degree; char_of "C"] ;; Ok (Some v)) d ;;
  let operator := re_search IGNORECASE re_operator page_content in
  d <- store_if operator "operator" group1_strip d ;;
  Ok d.

(** The body of the loop over [stds]. *)
Definition standard_well (t : str * str * str * str * str) : result StandardWell.t :=
  let '(well, conc, val, red, date) := t in
  c <- float conc ;;
  v <- float (remove_commas val) ;;
  r <- float (remove_commas red) ;;
  Ok {| StandardWell.well := well;
        StandardWell.concentration := c;
        StandardWell.fluorescence_value := v;
        StandardWell.reduced_value := r;
        StandardWell.date := date |}.

(** The statements under [# Sample Data: Standard Wells]. *)
Definition extract_standard_wells (page_content : str) : result (list StandardWell.t) :=
  let stds := findall5 no_flags re_stds page_content in
  mapM standard_well stds.

(** [f(x) if x else None] *)
Definition if_nonempty {A} (x : str) (f : str -> result A) : result (option A) :=
  match x with
  | [] => Ok None
  | _ => a <- f x ;; Ok (Some a)
  end.

(** The body of the loop over [controls]. *)
Definition control_well (c : str * str * str * str * str) : result ControlWell.t :=
  let '(well, sample, val, red, date) := c in
  v <- if_nonempty val (fun x => float (remove_commas x)) ;;
  r <- if_nonempty red (fun x => float (remove_commas x)) ;;
  d <- if_nonempty date (fun x => Ok x) ;;
  Ok {| ControlWell.well := well;
        ControlWell.sample_type := strip sample;
        ControlWell.fluorescence_value := v;
        ControlWell.reduced_value := r;
        ControlWell.date := d |}.

(** The statements under [# Control and Sample Wells]. *)
Definition extract_control_wells (page_content : str) : result (list ControlWell.t) :=
  let controls := findall5 no_flags re_controls page_content in
  mapM control_well controls.

(** [[c.strip() for c in line.split("|")[1:-1]]] *)
Definition cells_of (line : str) : list str :=
  map strip (slice_1_m1 (split pipe line)).

(** The loop [for i, h in enumerate(headers)] from index [i] on: the float
    of the cell, or the cell itself where [float] raises; the handler reads
    [cols[i]] again. *)
Fixpoint fill_row (i : nat) (hs : list str) (cols : list str) (row : dict cell)
  : result (dict cell) :=
  match hs with
  | [] => Ok row
  | h :: hs' =>
      row' <- try_except
                (c <- index cols i ;;
                 f <- float (remove_commas c) ;;
                 Ok (dict_set h (CellFloat f) row))
                (c <- index cols i ;;
                 Ok (dict_set h (CellStr c) row)) ;;
      fill_row (S i) hs' cols row'
  end.

(** The body of the loop over [table_lines[2:]]. *)
Definition table_row (headers : list str) (line : str) : result (dict cell) :=
  let cols := cells_of line in
  fill_row 0 headers cols [].

(** The statements under [# Standards Table]. *)
Definition extract_standards_table (page_content : str) : result StandardsTable :=
  let table_match := re_search DOTALL re_table page_content in
  match table_match with
  | Some m =>
      g <- py_strip (group m 1) ;;
      let table_lines := split nl g in
      line0 <- index table_lines 0 ;;
      let headers := cells_of line0 in
      rows <- mapM (table_row headers) (slice_2 table_lines) ;;
      Ok {| headers := headers; data := rows |}
  | None => Ok {| headers := []; data := [] |}
  end.

(** The statements under [# Key Calculation]. *)
Definition extract_key_calculation (page_content : str) : result (option str) :=
  let key_calc := re_search no_flags re_key_calc page_content in
  match key_calc with
  | Some m => v <- py_strip (group m 1) ;; Ok (Some v)
  | None => Ok None
  end.

(** [parse_page_content_to_json]: the sections of the function run in the
    order of the source, each filling its own entry of [data]; the first
    exception ends the call. *)
Definition parse_page_content_to_json (page_content : str) : result StructuredRecord :=
  di <- extract_document_info page_content ;;
  iset <- extract_instrument_settings page_content ;;
  ii <- extract_instrument_info page_content ;;
  sw <- extract_standard_wells page_content ;;
  cw <- extract_control_wells page_content ;;
  st <- extract_standards_table page_content ;;
  kc <- extract_key_calculation page_content ;;
  Ok {| document_info := di;
        instrument_settings := iset;
        instrument_info := ii;
        sample_data := {| standard_curve_wells := sw;
                          control_and_sample_wells := cw |};
        standards_table := st;
        key_calculation := kc;
        full_content := page_content |}.

(** ** Properties of patterns used in the proofs *)

(** No way of matching [r] consumes a line feed. *)
Fixpoint within_line (fl : flags) (r : regex) : bool :=
  match r with
  | Lit l => forallb (fun a => negb (char_matches fl a nl)) l
  | Cls cs => negb (accepts fl cs nl)
  | Rep cs _ _ _ => negb (accepts fl cs nl)
  | Cat r1 r2 => within_line fl r1 && within_line fl r2
  | Alt r1 r2 => within_line fl r1 && within_line fl r2
  | Grp _ r1 => within_line fl r1
  end.

(** No way of matching [r] is empty. *)
Fixpoint never_empty (r : regex) : bool :=
  match r with
  | Lit l => match l with [] => false | _ => true end
  | Cls _ => true
  | Rep _ lo _ _ => match lo with O => false | S _ => true end
  | Cat r1 r2 => never_empty r1 || never_empty r2
  | Alt r1 r2 => never_empty r1 && never_empty r2
  | Grp _ r1 => never_empty r1
  end.

(** Group [k] takes part in every way of matching [r]. *)
Fixpoint always_sets (k : nat) (r : regex) : bool :=
  match r with
  | Lit _ | Cls _ | Rep _ _ _ _ => false
  | Cat r1 r2 => always_sets k r1 || always_sets k r2
  | Alt r1 r2 => always_sets k r1 && always_sets k r2
  | Grp j r1 => Nat.eqb j k || always_sets k r1
  end.

(** The number of characters before the first line feed. *)
Fixpoint line_length (s : str) : nat :=
  match s with
  | [] => O
  | c :: s' => if c =? nl then O else S (line_length s')
  end.

(** [pre] is empty or ends a line: what follows it starts a line. *)
Definition line_start (pre : str) : Prop :=
  pre = [] \/ exists p, pre = p ++ [nl].

(** [post] is empty or starts with a line feed: what precedes it ends a
    line. *)
Definition line_end (post : str) : Prop :=
  post = [] \/ exists q, post = nl :: q.

(** [r] matches nowhere in [text]. *)
Definition matches_nowhere (fl : flags) (r : regex) (text : str) : Prop :=
  forall k, matches fl r (skipn k text) = [].

(** [sub] occurs in [s]. *)
Definition occurs (sub s : str) : Prop :=
  exists a b, s = a ++ sub ++ b.

(** Two successive results of a scan: the second starts where the first
    ends, or later. *)
Definition before (a b : nat * mres) : Prop :=
  (fst a + List.length (matched (snd a)) <= fst b)%nat.

(** The results [ms] of a scan of [text] are matches of the pattern at their
    positions, in the order of the text, and none overlaps another. *)
Definition in_text_order (fl : flags) (r : regex) (text : str)
    (ms : list (nat * mres)) : Prop :=
  Forall (fun pm => match_at fl r (skipn (fst pm) text) = Some (snd pm)) ms
  /\ StronglySorted before ms.

(** A single-value field: its key, the pattern searched for and the
    expression stored under the key. *)
Record rule := {
  key : str;
  rule_flags : flags;
  pattern : regex;
  value_of : mres -> result (option str)
}.

(** [if m: d[k] = v] for the rules of one dictionary, in their order. *)
Fixpoint run_rules (rules : list rule) (text : str) (d : dict (option str))
  : result (dict (option str)) :=
  match rules with
  | [] => Ok d
  | ru :: rules' =>
      d' <- store_if (re_search (rule_flags ru) (pattern ru) text)
                     (key ru) (value_of ru) d ;;
      run_rules rules' text d'
  end.

Definition rule_of (k : str) (fl : flags) (r : regex)
    (f : mres -> result (option str)) : rule :=
  {| key := k; rule_flags := fl; pattern := r; value_of := f |}.

(** The single-value fields of the record. *)
Inductive field :=
| Title | DocumentTitle | QcProtocol | Status | Date
| WavelengthCombination
| Instrument | Rom | StartRead | MeanTemperature | Operator
| KeyCalculation.

Definition field_rule (f : field) : rule :=
  match f with
  | Title => rule_of "title" no_flags re_doc_title group1_strip
  | DocumentTitle => rule_of "document_title" no_flags re_title group1_strip
  | QcProtocol => rule_of "qc_protocol" no_flags re_qc group1_strip
  | Status => rule_of "status" no_flags re_status group1_strip
  | Date => rule_of "date" no_flags re_date (fun m => Ok (group m 1))
  | WavelengthCombination =>
      rule_of "wavelength_combination" no_flags re_wl_comb (fun m => Ok (group m 1))
  | Instrument => rule_of "instrument" no_flags re_instr group1_strip
  | Rom => rule_of "rom" no_flags re_rom group1_strip
  | StartRead => rule_of "start_read" no_flags re_start_read group1_strip
  | MeanTemperature =>
      rule_of "mean_temperature" no_flags re_temp
        (fun m => v <- py_add (group m 1) [degree; char_of "C"] ;; Ok (Some v))
  | Operator => rule_of "operator" IGNORECASE re_operator group1_strip
  | KeyCalculation => rule_of "key_calculation" no_flags re_key_calc group1_strip
  end.

Definition document_info_rules : list rule :=
  map field_rule [Title; DocumentTitle; QcProtocol; Status; Date].

Definition instrument_settings_rules : list rule :=
  map field_rule [WavelengthCombination].

Definition instrument_info_rules : list rule :=
  map field_rule [Instrument; Rom; StartRead; MeanTemperature; Operator].

(** What the record holds for a field: [None] when its key is absent. *)
Definition stored (f : field) (r : StructuredRecord) : option (option str) :=
  match f with
  | Title | DocumentTitle | QcProtocol | Status | Date =>
      dict_get (key (field_rule f)) (document_info r)
  | WavelengthCombination =>
      dict_get (key (field_rule f)) (instrument_settings r)
  | Instrument | Rom | StartRead | MeanTemperature | Operator =>
      dict_get (key (field_rule f)) (instrument_info r)
  | KeyCalculation => Some (key_calculation r)
  end.

(** The label of the fields whose pattern is a label followed by the rest
    of the line. *)
Definition label (f : field) : option str :=
  match f with
  | Title => Some (lit "# Document Analysis - ")
  | DocumentTitle => Some (lit "**Title:** ")
  | Instrument => Some (lit "**Instrument:** ")
  | Rom => Some (lit "**ROM:** ")
  | StartRead => Some (lit "**Start Read:** ")
  | _ => None
  end.

(** The fifteen patterns of the parser with their flags. *)
Definition all_patterns : list (flags * regex) :=
  map (fun ru => (rule_flags ru, pattern ru))
      (document_info_rules ++ instrument_settings_rules ++ instrument_info_rules)
  ++ [ (no_flags, re_stds); (no_flags, re_controls);
       (DOTALL, re_table); (no_flags, re_key_calc) ].

(** No extraction pattern matches anywhere in [text]. *)
Definition no_pattern_matches (text : str) : Prop :=
  Forall (fun fr => matches_nowhere (fst fr) (snd fr) text) all_patterns.

(** The value of a table cell as the specification words it: the float the
    cell denotes once its commas are removed, else the cell itself. *)
Definition cell_value (c : str) : cell :=
  match float (remove_commas c) with
  | Ok f => CellFloat f
  | Raise _ => CellStr c
  end.

(** A row as the specification words it: the headers zipped with the
    cells. *)
Definition zip_row (headers cols : list str) : dict cell :=
  fold_left (fun row hc => dict_set (fst hc) (cell_value (snd hc)) row)
            (combine headers cols) [].

(** The record of a text in which nothing matches. *)
Definition empty_record (text : str) : StructuredRecord :=
  {| document_info := [];
     instrument_settings := [];
     instrument_info := [];
     sample_data := {| standard_curve_wells := [];
                       control_and_sample_wells := [] |};
     standards_table := {| headers := []; data := [] |};
     key_calculation := None;
     full_content := text |}.

Fixpoint starts_with (sub s : str) : bool :=
  match sub with
  | [] => true
  | a :: sub' =>
      match s with
      | c :: s' => (a =? c) && starts_with sub' s'
      | [] => false
      end
  end.

(** [sub in s] *)
Fixpoint occursb (sub s : str) : bool :=
  starts_with sub s
  || match s with
     | [] => false
     | _ :: s' => occursb sub s'
     end.

(** ** Example texts *)

(** A table block: the heading, a header row, a separator row, the data
    rows and a blank line. *)
Definition table_block (header : str) (rows : list str) : str :=
  lit "## Standards Table" ++ [nl] ++ header ++ [nl] ++ lit "|---|---|" ++ [nl]
  ++ List.concat (map (fun row => row ++ [nl]) rows) ++ [nl].

Definition table_text : str := table_block "| A | B |" [lit "| 1.5 | x |"].
Definition short_row_text : str := table_block "| A | B |" [lit "| 1.5 |"].
Definition long_row_text : str := table_block "| A | B |" [lit "| 1.5 | x | y |"].

(** The same table at the very end of the text, no blank line after it. *)
Definition unterminated_table_text : str :=
  lit "## Standards Table" ++ [nl] ++ lit "| A | B |" ++ [nl]
  ++ lit "|---|---|" ++ [nl] ++ lit "| 1.5 | x |".

Definition std_line : str :=
  "- **A1**: 5.0 Std - 1,234.5 (Reduced: 1,200.0) - Date: 01-01-2024 10:00:00".

Definition std_line_well : StandardWell.t :=
  {| StandardWell.well := "A1";
     StandardWell.concentration := dec 5 0;
     StandardWell.fluorescence_value := dec 12345 (-1);
     StandardWell.reduced_value := dec 1200 0;
     StandardWell.date := "01-01-2024 10:00:00" |}.

Definition std_line_tuple : str * str * str * str * str :=
  (lit "A1", lit "5.0", lit "1,234.5", lit "1,200.0", lit "01-01-2024 10:00:00").

Definition comma_line : str :=
  "- **A1**: 1,000 Std - 5.0 (Reduced: 4.0) - Date: 01-01-2024 10:00:00".

Definition bad_float_line : str :=
  "- **A1**: 1.2.3 Std - 5.0 (Reduced: 4.0) - Date: 01-01-2024 10:00:00".

Definition no_data_line : str := "- **B1**:  Blank  - Date: No Data".

Definition two_instruments_text : str :=
  lit "**Instrument:** Reader One" ++ [nl] ++ lit "**Instrument:** Reader Two".

Definition repeated_wells_text : str :=
  lit "- **B2**: Sample - Date: No Data" ++ [nl]
  ++ lit "- **A1**: 2.0 Std - 7 (Reduced: 6) - Date: 02-01-2024" ++ [nl]
  ++ lit "- **B2**: Sample - Date: No Data" ++ [nl]
  ++ lit "- **A1**: 1.0 Std - 5 (Reduced: 4) - Date: 01-01-2024".

Definition two_instruments_record : StructuredRecord :=
  {| document_info := [];
     instrument_settings := [];
     instrument_info := [(lit "instrument", Some (lit "Reader One"))];
     sample_data := {| standard_curve_wells := [];
                       control_and_sample_wells := [] |};
     standards_table := {| headers := []; data := [] |};
     key_calculation := None;
     full_content := two_instruments_text |}.

(** The match of the first of the two instrument lines. *)
Definition two_instruments_match : mres :=
  {| matched := "**Instrument:** Reader One";
     rest := nl :: lit "**Instrument:** Reader Two";
     groups := [(1%nat, lit "Reader One")] |}.

Definition sample_no_data : ControlWell.t :=
  {| ControlWell.well := "B2";
     ControlWell.sample_type := "Sample";
     ControlWell.fluorescence_value := None;
     ControlWell.reduced_value := None;
     ControlWell.date := None |}.

Definition repeated_wells_record : StructuredRecord :=
  {| document_info := [];
     instrument_settings := [];
     instrument_info := [];
     sample_data :=
       {| standard_curve_wells :=
            [ {| StandardWell.well := "A1";
                 StandardWell.concentration := dec 2 0;
                 StandardWell.fluorescence_value := dec 7 0;
                 StandardWell.reduced_value := dec 6 0;
                 StandardWell.date := "02-01-2024" |};
              {| StandardWell.well := "A1";
                 StandardWell.concentration := dec 1 0;
                 StandardWell.fluorescence_value := dec 5 0;
                 StandardWell.reduced_value := dec 4 0;
                 StandardWell.date := "01-01-2024" |} ];
          control_and_sample_wells := [sample_no_data; sample_no_data] |};
     standards_table := {| headers := []; data := [] |};
     key_calculation := None;
     full_content := repeated_wells_text |}.

(** The match of [no_data_line]. *)
Definition no_data_match : mres :=
  {| matched := no_data_line;
     rest := [];
     groups := [(2%nat, lit " Blank "); (1%nat, lit "B1")] |}.

(** What a failed transcription of a page leaves in the text. *)
Definition error_text : str := "Error analyzing page 1: connection timed out".

(** The lines around [std_line] in a page. *)
Definition lines_before : str :=
  lit "=== PAGE 1 ===" ++ [nl] ++ lit "## Sample Data" ++ [nl].

Definition lines_after : str :=
  nl :: lit "- **B1**: Blank - Date: No Data".

(** ** Further properties of the parser: definitions *)

(** [float(s)] returns. *)
Definition is_number (s : str) : Prop := exists f, float s = Ok f.

(** The three conversions of the loop over [stds] return. *)
Definition std_tuple_converts (t : str * str * str * str * str) : Prop :=
  let '(_, conc, val, red, _) := t in
  is_number conc /\ is_number (remove_commas val) /\ is_number (remove_commas red).

(** The conversions of the loop over [controls] return. *)
Definition ctl_tuple_converts (t : str * str * str * str * str) : Prop :=
  let '(_, _, val, red, _) := t in
  (val = [] \/ is_number (remove_commas val))
  /\ (red = [] \/ is_number (remove_commas red)).

(** Every data line of the table that [re.search] finds has a cell for
    every header. *)
Definition table_rows_full (text : str) : Prop :=
  forall m g,
    re_search DOTALL re_table text = Some m -> group m 1 = Some g ->
    Forall (fun line =>
              (List.length (cells_of (hd [] (split nl (strip g))))
               <= List.length (cells_of line))%nat)
           (slice_2 (split nl (strip g))).

(** The record has no value for the field: its key is missing, or, for the
    key calculation, its value is [None]. *)
Definition absent (f : field) (r : StructuredRecord) : Prop :=
  match f with
  | KeyCalculation => key_calculation r = None
  | _ => stored f r = None
  end.

(** The record has a string for the field. *)
Definition present (f : field) (r : StructuredRecord) : Prop :=
  exists s, stored f r = Some (Some s).

(** The values of a control well are all there or all missing. *)
Definition all_or_none (w : ControlWell.t) : Prop :=
  (ControlWell.fluorescence_value w = None
   /\ ControlWell.reduced_value w = None
   /\ ControlWell.date w = None)
  \/ (exists v rd d,
        ControlWell.fluorescence_value w = Some v
        /\ ControlWell.reduced_value w = Some rd
        /\ ControlWell.date w = Some d /\ d <> []).

(** The identifier of a well: the letter of its row and one decimal digit. *)
Definition well_id (row : string) (w : str) : Prop :=
  exists d, w = lit row ++ [d] /\ is_decimal d = true.

(** A line that starts like a well line of row [row], with [c] right after
    the digit [d] of the identifier. *)
Definition well_line_start (row : string) (d c : char) (rest : str) : str :=
  lit "- **" ++ lit row ++ d :: c :: rest.

Definition two_digit_well_line : str :=
  "- **A10**: 5.0 Std - 7 (Reduced: 6) - Date: 01-01-2024".

(** A table whose two columns have the same header. *)
Definition twin_header_line : str := "| A | A |".
Definition twin_data_line : str := "| 1 | 2 |".

(** ** The text of a document *)

(** The loop of [extract_pdf_with_vision] appends to [full_content], for
    each page in turn, a marker with the number of the page and the text
    that [analyze_page_vision] returned for it. *)

Fixpoint chars_of_uint (u : Decimal.uint) : str :=
  match u with
  | Decimal.Nil => []
  | Decimal.D0 u' => 48 :: chars_of_uint u'
  | Decimal.D1 u' => 49 :: chars_of_uint u'
  | Decimal.D2 u' => 50 :: chars_of_uint u'
  | Decimal.D3 u' => 51 :: chars_of_uint u'
  | Decimal.D4 u' => 52 :: chars_of_uint u'
  | Decimal.D5 u' => 53 :: chars_of_uint u'
  | Decimal.D6 u' => 54 :: chars_of_uint u'
  | Decimal.D7 u' => 55 :: chars_of_uint u'
  | Decimal.D8 u' => 56 :: chars_of_uint u'
  | Decimal.D9 u' => 57 :: chars_of_uint u'
  end.

(** [str(n)] for a natural number: its decimal digits. *)
Definition str_of_nat (n : nat) : str := chars_of_uint (Nat.to_uint n).

(** The line [=== PAGE {page_num + 1} ===]. *)
Definition marker_line (page_num : nat) : str :=
  lit "=== PAGE " ++ str_of_nat (page_num + 1) ++ lit " ===".

(** [f"\n\n=== PAGE {page_num + 1} ===\n"] *)
Definition page_marker (page_num : nat) : str :=
  nl :: nl :: marker_line page_num ++ [nl].

(** The value of [full_content] after the iterations for the pages
    [contents], the first of them of index [page_num]. *)
Fixpoint append_pages (page_num : nat) (contents : list str) (full_content : str)
  : str :=
  match contents with
  | [] => full_content
  | page_content :: contents' =>
      append_pages (S page_num) contents'
                   (full_content ++ page_marker page_num ++ page_content)
  end.

(** [results["full_content"]] after the loop. *)
Definition full_content_of (contents : list str) : str :=
  append_pages 0 contents [].

(** The same text, page by page. *)
Fixpoint pages_text (page_num : nat) (contents : list str) : str :=
  match contents with
  | [] => []
  | page_content :: contents' =>
      page_marker page_num ++ page_content ++ pages_text (S page_num) contents'
  end.

(** The characters of the marker lines. *)
Definition marker_alphabet : str := "= PAGE0123456789".

(** The pattern starts with a literal character that no character of a
    marker line matches. *)
Definition inert_in_markers (fl : flags) (r : regex) : bool :=
  match r with
  | Cat (Lit (c0 :: _)) _ =>
      forallb (fun x => negb (char_matches fl c0 x)) marker_alphabet
  | _ => false
  end.

(** What of a match does not depend on the text after it. *)
Definition core (m : mres) : str * list (nat * str) := (matched m, groups m).

(** The match [m] with [t] added to the text after it. *)
Definition extend (t : str) (m : mres) : mres :=
  {| matched := matched m; rest := rest m ++ t; groups := groups m |}.

(** The first value of a list of optional values. *)
Fixpoint first_some {A} (l : list (option A)) : option A :=
  match l with
  | [] => None
  | Some a :: _ => Some a
  | None :: l' => first_some l'
  end.

(** A document of two pages, a well line on each. *)
Definition two_pages : list str :=
  [ lit "- **A1**: 2.0 Std - 7 (Reduced: 6) - Date: 02-01-2024";
    lit "# Document Analysis - Plate 7" ++ [nl]
    ++ lit "- **A2**: 1.0 Std - 5 (Reduced: 4) - Date: 01-01-2024" ].

(** A document whose first page ends with a table and no blank line. *)
Definition table_then_page : list str :=
  [ unterminated_table_text; lit "Notes" ].

Definition two_pages_record : StructuredRecord :=
  {| document_info := [(lit "title", Some (lit "Plate 7"))];
     instrument_settings := [];
     instrument_info := [];
     sample_data :=
       {| standard_curve_wells :=
            [ {| StandardWell.well := "A1";
                 StandardWell.concentration := dec 2 0;
                 StandardWell.fluorescence_value := dec 7 0;
                 StandardWell.reduced_value := dec 6 0;
                 StandardWell.date := "02-01-2024" |};
              {| StandardWell.well := "A2";
                 StandardWell.concentration := dec 1 0;
                 StandardWell.fluorescence_value := dec 5 0;
                 StandardWell.reduced_value := dec 4 0;
                 StandardWell.date := "01-01-2024" |} ];
          control_and_sample_wells := [] |};
     standards_table := {| headers := []; data := [] |};
     key_calculation := None;
     full_content := full_content_of two_pages |}.

(** The match of the title line of the second of the two pages. *)
Definition two_pages_title_match : mres :=
  {| matched := "# Document Analysis - Plate 7";
     rest := nl :: lit "- **A2**: 1.0 Std - 5 (Reduced: 4) - Date: 01-01-2024";
     groups := [(1%nat, lit "Plate 7")] |}.

(** The lines of the table of [unterminated_table_text]. *)
Definition table_body : str :=
  lit "| A | B |" ++ [nl] ++ lit "|---|---|" ++ [nl] ++ lit "| 1.5 | x |".

Definition table_then_page_record : StructuredRecord :=
  {| document_info := [];
     instrument_settings := [];
     instrument_info := [];
     sample_data := {| standard_curve_wells := [];
                       control_and_sample_wells := [] |};
     standards_table :=
       {| headers := [lit "A"; lit "B"];
          data := [[(lit "A", CellFloat (dec 15 (-1))); (lit "B", CellStr "x")]] |};
     key_calculation := None;
     full_content := full_content_of table_then_page |}.

Definition in_alphabet (x : char) : bool := existsb (N.eqb x) marker_alphabet.

(** The text of the pages [contents], the first of index [page_num], one
    marker and one page after the other. *)
Definition marked_pages (page_num : nat) (contents : list str) : list str :=
  map (fun ip => page_marker (fst ip) ++ snd ip)
      (combine (seq page_num (List.length contents)) contents).

(** ** [generate_summary] *)

Definition no_summary : str := "No substantial content found for summary.".

(** The prompt of the request for a summary. *)
Definition summary_prompt (content : str) : str :=
  [nl]
  ++ lit "            Based on this PDF content, provide a comprehensive summary:" ++ [nl]
  ++ lit "            " ++ firstn 3000 content ++ [nl]
  ++ lit "            Include:" ++ [nl]
  ++ lit "            1. Document title and type" ++ [nl]
  ++ lit "            2. Main topics and sections" ++ [nl]
  ++ lit "            3. Key information and data" ++ [nl]
  ++ lit "            4. Document purpose and context" ++ [nl]
  ++ lit "            ".

(** What the [try] statement returns: the text of the reply, or the
    message with the text of the exception. *)
Definition summary_of_reply (reply : str + str) : str :=
  match reply with
  | inl text => text
  | inr e => lit "Summary generation failed: " ++ e
  end.

(** [generate_summary]; [create] stands for the request to the service:
    the text of its reply, or the text of the exception it raises. *)
Definition generate_summary (create : str -> str + str) (content : str) : str :=
  if match content with [] => true | _ :: _ => false end
     || (List.length (strip content) <? 50)%nat
  then no_summary
  else summary_of_reply (create (summary_prompt content)).

(** ** [save_json]

    [json_data = results["structured_data"]] and
    [json_data["full_content"] = results["full_content"]]: the record that
    is written. *)
Definition save_json_data (structured_data : StructuredRecord) (full : str)
  : StructuredRecord :=
  {| document_info := document_info structured_data;
     instrument_settings := instrument_settings structured_data;
     instrument_info := instrument_info structured_data;
     sample_data := sample_data structured_data;
     standards_table := standards_table structured_data;
     key_calculation := key_calculation structured_data;
     full_content := full |}.

(** The literal that starts the pattern of the key calculation. *)
Definition key_calc_heading : str :=
  lit "## Key Calculations" ++ [nl] ++ lit "**".

Definition stars : str := "**".

(** A key calculation whose line has [**] inside the value. *)
Definition key_calc_text : str :=
  [] ++ key_calc_heading ++ lit "a** and **b" ++ stars ++ lit " end" ++ [].

Definition key_calc_record : StructuredRecord :=
  {| document_info := [];
     instrument_settings := [];
     instrument_info := [];
     sample_data := {| standard_curve_wells := [];
                       control_and_sample_wells := [] |};
     standards_table := {| headers := []; data := [] |};
     key_calculation := Some (lit "a** and **b");
     full_content := key_calc_text |}.

(** Four pages with nothing on them. *)
Definition four_empty_pages : list str := [[]; []; []; []].

(** The float has the sign [neg] and is no NaN. *)
Definition has_sign (neg : bool) (f : pyfloat) : Prop :=
  match f with
  | F_nan => False
  | F_inf n => n = neg
  | F_zero n => n = neg
  | F_finite n _ _ => n = neg
  end.

(** The float is neither negative nor a NaN. *)
Definition not_negative (f : pyfloat) : Prop := has_sign false f.

Definition none_or_not_negative (o : option pyfloat) : Prop :=
  match o with
  | Some f => not_negative f
  | None => True
  end.

(** What [to_ascii] makes of a character of [[\d\.e,]]. *)
Definition plain (a : char) : bool :=
  ascii_digit a || (a =? 46) || (a =? 101) || (a =? 44) || (a =? 32) || (a =? 63).

(** A date of the form that the pattern of the date admits: two digits,
    three letters, four digits, and three times two digits, with their
    separators. *)
Definition date_stamp (v : str) : Prop :=
  exists dd mon yyyy hh mi ss,
    v = dd ++ lit "-" ++ mon ++ lit "-" ++ yyyy ++ lit " "
        ++ hh ++ lit ":" ++ mi ++ lit ":" ++ ss
    /\ List.length dd = 2%nat /\ List.length mon = 3%nat
    /\ List.length yyyy = 4%nat /\ List.length hh = 2%nat
    /\ List.length mi = 2%nat /\ List.length ss = 2%nat
    /\ Forall (fun c => is_decimal c = true) (dd ++ yyyy ++ hh ++ mi ++ ss)
    /\ Forall (fun c => ascii_upper c || ascii_lower c = true) mon.

(** A temperature as it is stored: digits and points, then [°C]. *)
Definition temperature_text (v : str) : Prop :=
  exists n, v = n ++ [degree; char_of "C"] /\ n <> []
            /\ Forall (fun c => is_decimal c = true \/ c = char_of ".") n.

(** A word of [\w+]. *)
Definition word_text (v : str) : Prop :=
  v <> [] /\ Forall (fun c => is_word c = true) v.

(** A text with a date between [**], the date and its record. *)
Definition date_text : str := "**01-Jan-2024 10:00:00**".
Definition date_value : str := "01-Jan-2024 10:00:00".

Definition date_record : StructuredRecord :=
  {| document_info := [(lit "date", Some date_value)];
     instrument_settings := [];
     instrument_info := [];
     sample_data := {| standard_curve_wells := [];
                       control_and_sample_wells := [] |};
     standards_table := {| headers := []; data := [] |};
     key_calculation := None;
     full_content := date_text |}.

(** * The matcher *)

Lemma match_lit_split fl l : forall s m s',
  match_lit fl l s = Some (m, s') ->
  s = m ++ s' /\ List.length m = List.length l.
Proof.
  induction l as [|a l IH]; intros s m s' H; simpl in H.
  - inversion H; subst. auto.
  - destruct s as [|c s]; [discriminate|].
    destruct (char_matches fl a c); [|discriminate].
    destruct (match_lit fl l s) as [[m1 r1]|] eqn:E; [|discriminate].
    inversion H; subst. destruct (IH _ _ _ E) as [-> Hl].
    simpl. auto.
Qed.

Lemma match_lit_chars fl l : forall s m s',
  match_lit fl l s = Some (m, s') ->
  Forall2 (fun a c => char_matches fl a c = true) l m.
Proof.
  induction l as [|a l IH]; intros s m s' H; simpl in H.
  - inversion H; subst. constructor.
  - destruct s as [|c s]; [discriminate|].
    destruct (char_matches fl a c) eqn:Ec; [|discriminate].
    destruct (match_lit fl l s) as [[m1 r1]|] eqn:E; [|discriminate].
    inversion H; subst. constructor; eauto.
Qed.

(** Without [IGNORECASE] a literal matches itself only. *)
Lemma match_lit_exact fl l : ignorecase fl = false -> forall s m s',
  match_lit fl l s = Some (m, s') -> m = l /\ s = l ++ s'.
Proof.
  intros Hfl. induction l as [|a l IH]; intros s m s' H; simpl in H.
  - inversion H; subst. auto.
  - destruct s as [|c s]; [discriminate|].
    unfold char_matches in H. rewrite Hfl in H. simpl in H.
    rewrite orb_false_r in H.
    destruct (a =? c) eqn:Ec; [|discriminate].
    apply N.eqb_eq in Ec. subst c.
    destruct (match_lit fl l s) as [[m1 r1]|] eqn:E; [|discriminate].
    inversion H; subst. destruct (IH _ _ _ E) as [-> ->]. auto.
Qed.

Lemma rep_splits_spec p : forall s lo hi a b,
  In (a, b) (rep_splits p lo hi s) ->
  s = a ++ b /\ Forall (fun c => p c = true) a /\ (lo <= List.length a)%nat.
Proof.
  induction s as [|c s IH]; intros lo hi a b H; simpl in H.
  - rewrite app_nil_r in H. destruct lo; simpl in H; [|tauto].
    destruct H as [H|[]]. inversion H; subst. simpl. auto with arith.
  - apply in_app_or in H. destruct H as [H|H].
    + destruct lo; simpl in H; [|tauto].
      destruct H as [H|[]]. inversion H; subst. simpl. auto with arith.
    + destruct (p c && allows_one hi) eqn:E; [|destruct H].
      apply andb_prop in E. destruct E as [Ep _].
      apply in_map_iff in H. destruct H as [[a' b'] [Heq Hin]].
      simpl in Heq. inversion Heq; subst.
      destruct (IH _ _ _ _ Hin) as [-> [Hall Hlen]].
      repeat split; simpl; auto. lia.
Qed.

Lemma in_matches_lit fl l s m :
  In m (matches fl (Lit l) s) ->
  match_lit fl l s = Some (matched m, rest m) /\ groups m = [].
Proof.
  simpl. destruct (match_lit fl l s) as [[m1 r1]|]; [|simpl; tauto].
  intros [<-|[]]. auto.
Qed.

Lemma in_matches_cls fl cs s m :
  In m (matches fl (Cls cs) s) ->
  exists c, accepts fl cs c = true /\ matched m = [c] /\ s = c :: rest m
            /\ groups m = [].
Proof.
  simpl. destruct s as [|c s]; [simpl; tauto|].
  destruct (accepts fl cs c) eqn:E; [|simpl; tauto].
  intros [<-|[]]. exists c. auto.
Qed.

Lemma in_matches_rep fl cs lo hi g s m :
  In m (matches fl (Rep cs lo hi g) s) ->
  s = matched m ++ rest m
  /\ Forall (fun c => accepts fl cs c = true) (matched m)
  /\ (lo <= List.length (matched m))%nat
  /\ groups m = [].
Proof.
  simpl. intros H. apply in_map_iff in H. destruct H as [[a b] [<- Hin]].
  assert (Hin' : In (a, b) (rep_splits (accepts fl cs) lo hi s)).
  { destruct g; [apply in_rev|]; exact Hin. }
  apply rep_splits_spec in Hin'. simpl. tauto.
Qed.

Lemma in_matches_cat fl r1 r2 s m :
  In m (matches fl (r1 >> r2) s) ->
  exists m1 m2,
    In m1 (matches fl r1 s) /\ In m2 (matches fl r2 (rest m1))
    /\ matched m = matched m1 ++ matched m2
    /\ rest m = rest m2
    /\ groups m = groups m2 ++ groups m1.
Proof.
  simpl. intros H. apply in_flat_map in H. destruct H as [m1 [H1 H]].
  apply in_map_iff in H. destruct H as [m2 [<- H2]].
  exists m1, m2. simpl. auto.
Qed.

Lemma in_matches_alt fl r1 r2 s m :
  In m (matches fl (Alt r1 r2) s) ->
  In m (matches fl r1 s) \/ In m (matches fl r2 s).
Proof. simpl. apply in_app_or. Qed.

Lemma in_matches_grp fl k r s m :
  In m (matches fl (Grp k r) s) ->
  exists m1, In m1 (matches fl r s) /\ matched m = matched m1
             /\ rest m = rest m1 /\ groups m = (k, matched m1) :: groups m1.
Proof.
  simpl. intros H. apply in_map_iff in H. destruct H as [m1 [<- H1]].
  exists m1. simpl. auto.
Qed.

(** A match consumes a prefix of the text. *)
Lemma matches_split fl r : forall s m,
  In m (matches fl r s) -> s = matched m ++ rest m.
Proof.
  induction r as [l|cs|cs lo hi g|r1 IH1 r2 IH2|r1 IH1 r2 IH2|k r IH];
    intros s m H.
  - apply in_matches_lit in H. destruct H as [H _].
    apply match_lit_split in H. tauto.
  - apply in_matches_cls in H. destruct H as [c [_ [-> [-> _]]]]. reflexivity.
  - apply in_matches_rep in H. tauto.
  - apply in_matches_cat in H.
    destruct H as [m1 [m2 [H1 [H2 [-> [-> _]]]]]].
    rewrite (IH1 _ _ H1) at 1. rewrite (IH2 _ _ H2) at 1.
    now rewrite app_assoc.
  - apply in_matches_alt in H. destruct H; auto.
  - apply in_matches_grp in H. destruct H as [m1 [H1 [-> [-> _]]]]. auto.
Qed.

(** A pattern that stays within a line matches no line feed. *)
Lemma matches_within_line fl r : within_line fl r = true ->
  forall s m, In m (matches fl r s) -> ~ In nl (matched m).
Proof.
  induction r as [l|cs|cs lo hi g|r1 IH1 r2 IH2|r1 IH1 r2 IH2|k r IH];
    simpl within_line; intros W s m H.
  - apply in_matches_lit in H. destruct H as [H _].
    apply match_lit_chars in H. rewrite forallb_forall in W.
    induction H as [|a c l' m' Hac _ IHm]; simpl; [tauto|].
    intros [Hc|Hin].
    + subst c. specialize (W a (or_introl eq_refl)).
      rewrite Hac in W. discriminate.
    + apply IHm; auto. intros x Hx. apply W. now right.
  - apply in_matches_cls in H. destruct H as [c [Hc [-> _]]].
    intros [->|[]]. rewrite Hc in W. discriminate.
  - apply in_matches_rep in H. destruct H as [_ [Hall _]].
    rewrite Forall_forall in Hall. intros Hin. apply Hall in Hin.
    rewrite Hin in W. discriminate.
  - apply andb_prop in W. destruct W as [W1 W2].
    apply in_matches_cat in H.
    destruct H as [m1 [m2 [H1 [H2 [-> _]]]]].
    intros Hin. apply in_app_or in Hin. destruct Hin.
    + eapply IH1; eauto.
    + eapply IH2; eauto.
  - apply andb_prop in W. destruct W as [W1 W2].
    apply in_matches_alt in H. destruct H; eauto.
  - apply in_matches_grp in H. destruct H as [m1 [H1 [-> _]]]. eauto.
Qed.

(** A pattern that is never empty consumes at least one character. *)
Lemma matches_never_empty fl r : never_empty r = true ->
  forall s m, In m (matches fl r s) -> matched m <> [].
Proof.
  induction r as [l|cs|cs lo hi g|r1 IH1 r2 IH2|r1 IH1 r2 IH2|k r IH];
    simpl never_empty; intros W s m H.
  - apply in_matches_lit in H. destruct H as [H _].
    apply match_lit_split in H. destruct H as [_ Hl].
    destruct l; [discriminate|]. destruct (matched m); [discriminate|congruence].
  - apply in_matches_cls in H. destruct H as [c [_ [-> _]]]. congruence.
  - apply in_matches_rep in H. destruct H as [_ [_ [Hlo _]]].
    destruct lo; [discriminate|]. destruct (matched m); simpl in Hlo; [lia|congruence].
  - apply in_matches_cat in H.
    destruct H as [m1 [m2 [H1 [H2 [-> _]]]]].
    apply orb_prop in W. intros Happ. apply app_eq_nil in Happ.
    destruct Happ as [E1 E2]. destruct W as [W|W].
    + eapply IH1; eauto.
    + eapply IH2; eauto.
  - apply andb_prop in W. destruct W as [W1 W2].
    apply in_matches_alt in H. destruct H; eauto.
  - apply in_matches_grp in H. destruct H as [m1 [H1 [-> _]]]. eauto.
Qed.

(** * [re.search] *)

(** The result of [search_from] is a match at the first position that has
    one. *)
Lemma search_from_some fl r : forall s pos p m,
  search_from fl r s pos = Some (p, m) ->
  exists k, p = (pos + k)%nat
            /\ match_at fl r (skipn k s) = Some m
            /\ forall j, (j < k)%nat -> match_at fl r (skipn j s) = None.
Proof.
  induction s as [|c s IH]; intros pos p m H; simpl in H.
  - destruct (match_at fl r []) eqn:E; [|discriminate].
    inversion H; subst. exists O. repeat split; auto with arith.
    intros j Hj. inversion Hj.
  - destruct (match_at fl r (c :: s)) eqn:E.
    + inversion H; subst. exists O. repeat split; auto with arith.
      intros j Hj. inversion Hj.
    + apply IH in H. destruct H as [k [-> [Hm Hlt]]].
      exists (S k). repeat split; auto with arith.
      intros [|j] Hj; [exact E|]. apply Hlt. lia.
Qed.

Lemma search_from_none fl r : forall s pos,
  search_from fl r s pos = None ->
  forall k, match_at fl r (skipn k s) = None.
Proof.
  induction s as [|c s IH]; intros pos H k; simpl in H.
  - destruct (match_at fl r []) eqn:E; [discriminate|].
    now rewrite skipn_nil.
  - destruct (match_at fl r (c :: s)) eqn:E; [discriminate|].
    destruct k; [exact E|]. simpl. eauto.
Qed.

Lemma search_from_leftmost fl r : forall k s pos m,
  (forall j, (j < k)%nat -> match_at fl r (skipn j s) = None) ->
  match_at fl r (skipn k s) = Some m ->
  search_from fl r s pos = Some ((pos + k)%nat, m).
Proof.
  induction k as [|k IH]; intros s pos m Hlt Hm.
  - simpl in Hm. rewrite Nat.add_0_r.
    destruct s; simpl; rewrite Hm; reflexivity.
  - destruct s as [|c s].
    + simpl in Hm. specialize (Hlt O (Nat.lt_0_succ k)). simpl in Hlt. congruence.
    + pose proof (Hlt O (Nat.lt_0_succ k)) as H0. simpl in H0.
      simpl. rewrite H0.
      rewrite (IH s (S pos) m).
      * f_equal. f_equal. lia.
      * intros j Hj. apply (Hlt (S j)). lia.
      * exact Hm.
Qed.

Lemma match_at_none fl r s : match_at fl r s = None <-> matches fl r s = [].
Proof.
  unfold match_at. destruct (matches fl r s); simpl; split; congruence.
Qed.

(** [re.search] finds nothing exactly when the pattern matches nowhere. *)
Lemma re_search_none fl r text :
  re_search fl r text = None <-> matches_nowhere fl r text.
Proof.
  unfold re_search, matches_nowhere. split.
  - intros H k. apply match_at_none.
    destruct (search_from fl r text 0) as [[p m]|] eqn:E; [discriminate|].
    eapply search_from_none; eauto.
  - intros H.
    destruct (search_from fl r text 0) as [[p m]|] eqn:E; [|reflexivity].
    apply search_from_some in E. destruct E as [k [_ [Hm _]]].
    specialize (H k). apply match_at_none in H. rewrite H in Hm. discriminate.
Qed.

(** [re.search] reports the match at position [k] when the pattern matches
    there and at no earlier position. *)
Lemma re_search_leftmost fl r text k m :
  (forall j, (j < k)%nat -> matches fl r (skipn j text) = []) ->
  match_at fl r (skipn k text) = Some m ->
  re_search fl r text = Some m.
Proof.
  intros Hlt Hm. unfold re_search.
  rewrite search_from_leftmost with (k := k) (m := m); auto.
  intros j Hj. apply match_at_none. auto.
Qed.

(** * [re.finditer] *)

Section Scan.

Variable fl : flags.
Variable r : regex.
Hypothesis NE : never_empty r = true.

Lemma match_at_in s m : match_at fl r s = Some m -> In m (matches fl r s).
Proof.
  unfold match_at. destruct (matches fl r s); simpl; [discriminate|].
  intros H. inversion H. now left.
Qed.

Lemma match_at_nonempty s m : match_at fl r s = Some m -> is_empty m = false.
Proof.
  intros H. apply match_at_in in H.
  apply (matches_never_empty fl r NE) in H.
  unfold is_empty. destruct (matched m); congruence.
Qed.

(** One step of the scan for a pattern that is never empty. *)
Lemma finditer_from_step s pos :
  finditer_from fl r s pos 0 =
  match match_at fl r s with
  | Some m =>
      (pos, m) :: match s with
                  | [] => []
                  | _ :: s' =>
                      finditer_from fl r s' (S pos) (pred (List.length (matched m)))
                  end
  | None =>
      match s with
      | [] => []
      | _ :: s' => finditer_from fl r s' (S pos) 0
      end
  end.
Proof.
  destruct (match_at fl r s) as [m|] eqn:E.
  - pose proof (match_at_nonempty _ _ E) as Hne.
    unfold match_at in E.
    destruct s; simpl; destruct (matches fl r _) as [|m1 ms];
      simpl in E; try discriminate; inversion E; subst; rewrite Hne; reflexivity.
  - apply match_at_none in E. destruct s; simpl; rewrite E; reflexivity.
Qed.

(** The results of the scan are matches of the pattern at their positions,
    in the order of the text, and none overlaps another. *)
Lemma finditer_from_sorted : forall s pos skip,
  let l := finditer_from fl r s pos skip in
  Forall (fun pm => exists k, (skip <= k)%nat /\ fst pm = (pos + k)%nat
                              /\ match_at fl r (skipn k s) = Some (snd pm)) l
  /\ StronglySorted before l.
Proof.
  induction s as [|c s IH]; intros pos skip.
  - destruct skip as [|k]; [|simpl; split; constructor].
    cbv zeta. rewrite finditer_from_step.
    destruct (match_at fl r []) as [m|] eqn:E; split; repeat constructor.
    exists O. simpl. rewrite Nat.add_0_r. auto.
  - destruct skip as [|k].
    + cbv zeta. rewrite finditer_from_step.
      destruct (match_at fl r (c :: s)) as [m|] eqn:E.
      * destruct (IH (S pos) (pred (List.length (matched m)))) as [HF HS].
        pose proof (match_at_nonempty _ _ E) as Hne. unfold is_empty in Hne.
        destruct (matched m) as [|x xs] eqn:Em; [discriminate|]. simpl in *.
        split.
        -- constructor.
           ++ exists O. simpl. rewrite Nat.add_0_r. auto.
           ++ eapply Forall_impl; [|exact HF]. intros [p m'] [k [Hk [Hp Hm]]].
              exists (S k). simpl in *. repeat split; auto; lia.
        -- constructor; [exact HS|].
           eapply Forall_impl; [|exact HF]. intros [p m'] [k [Hk [Hp Hm]]].
           unfold before. simpl in *. rewrite Em. simpl. lia.
      * destruct (IH (S pos) O) as [HF HS]. split; [|exact HS].
        eapply Forall_impl; [|exact HF]. intros [p m'] [k [Hk [Hp Hm]]].
        exists (S k). simpl in *. repeat split; auto; lia.
    + simpl. destruct (IH (S pos) k) as [HF HS]. split; [|exact HS].
      eapply Forall_impl; [|exact HF]. intros [p m'] [k' [Hk [Hp Hm]]].
      exists (S k'). simpl in *. repeat split; auto; lia.
Qed.

Hypothesis WL : within_line fl r = true.

Lemma line_length_app a b :
  ~ In nl a -> (List.length a <= line_length (a ++ b))%nat.
Proof.
  induction a as [|c a IH]; simpl; intros H; [lia|].
  destruct (c =? nl) eqn:E.
  - apply N.eqb_eq in E. subst. tauto.
  - apply le_n_S. apply IH. tauto.
Qed.

(** A match lies within the line it starts in. *)
Lemma match_at_line s m :
  match_at fl r s = Some m -> (List.length (matched m) <= line_length s)%nat.
Proof.
  intros H. apply match_at_in in H.
  pose proof (matches_within_line fl r WL _ _ H) as Hnl.
  rewrite (matches_split _ _ _ _ H) at 1. now apply line_length_app.
Qed.

(** The scan starts afresh after every line feed. *)
Lemma finditer_from_line : forall pre s pos skip,
  (skip <= line_length (pre ++ nl :: s))%nat ->
  exists l,
    finditer_from fl r (pre ++ nl :: s) pos skip
    = l ++ finditer_from fl r s (pos + List.length pre + 1) 0
    /\ Forall (fun pm => (fst pm < pos + List.length pre)%nat) l.
Proof.
  induction pre as [|c pre IH]; intros s pos skip Hskip.
  - simpl in Hskip. assert (skip = O) by lia. subst skip.
    exists []. split; [|constructor]. simpl app at 1.
    rewrite finditer_from_step.
    destruct (match_at fl r (nl :: s)) as [m|] eqn:E.
    + apply match_at_line in E as Hl. simpl in Hl.
      apply match_at_nonempty in E. unfold is_empty in E.
      destruct (matched m); [discriminate|simpl in Hl; lia].
    + simpl. f_equal. lia.
  - simpl app in *. simpl List.length.
    replace (pos + S (List.length pre))%nat
      with (S pos + List.length pre)%nat by lia.
    destruct skip as [|k].
    + rewrite finditer_from_step.
      destruct (match_at fl r (c :: pre ++ nl :: s)) as [m|] eqn:E.
      * apply match_at_line in E as Hl.
        apply match_at_nonempty in E as Hne. unfold is_empty in Hne.
        destruct (IH s (S pos) (pred (List.length (matched m)))) as [l [Hl1 Hl2]].
        { simpl in Hl. destruct (c =? nl).
          - destruct (matched m); [discriminate|simpl in Hl; lia].
          - lia. }
        exists ((pos, m) :: l). split.
        -- rewrite Hl1. reflexivity.
        -- constructor; [simpl; lia|exact Hl2].
      * destruct (IH s (S pos) O) as [l [Hl1 Hl2]]; [lia|].
        exists l. split; [exact Hl1|exact Hl2].
    + simpl in Hskip. destruct (c =? nl); [lia|].
      destruct (IH s (S pos) k) as [l [Hl1 Hl2]]; [lia|].
      exists l. split; [exact Hl1|exact Hl2].
Qed.

(** The scan of a text whose last line is [s]. *)
Lemma finditer_line_start pre s :
  line_start pre ->
  exists l,
    finditer fl r (pre ++ s) = l ++ finditer_from fl r s (List.length pre) 0
    /\ Forall (fun pm => (fst pm < List.length pre)%nat) l.
Proof.
  intros [->|[p ->]].
  - exists []. split; [reflexivity|constructor].
  - destruct (finditer_from_line p s O O) as [l [H1 H2]]; [lia|].
    exists l. unfold finditer. rewrite <- app_assoc. simpl app at 2.
    rewrite H1. rewrite length_app. simpl. split; [reflexivity|].
    eapply Forall_impl; [|exact H2]. simpl. intros; lia.
Qed.

End Scan.

(** * Exceptions, loops and dictionaries *)

Lemma bind_ok {A B} (c : result A) (k : A -> result B) b :
  bind c k = Ok b -> exists a, c = Ok a /\ k a = Ok b.
Proof. destruct c; simpl; [eauto|discriminate]. Qed.

Ltac inv_bind H :=
  let a := fresh "a" in
  let H1 := fresh "H" in
  apply bind_ok in H; destruct H as [a [H1 H]].

(** A loop over [l] ends normally exactly when every iteration does; its
    results are those of the iterations, one for one and in order. *)
Lemma mapM_ok {A B} (f : A -> result B) : forall l l',
  mapM f l = Ok l' <-> Forall2 (fun a b => f a = Ok b) l l'.
Proof.
  induction l as [|a l IH]; intros l'; simpl; split; intros H.
  - inversion H. constructor.
  - inversion H. reflexivity.
  - inv_bind H. inv_bind H. inversion H; subst.
    constructor; [assumption|]. now apply IH.
  - inversion H as [|? b ? bs Hf Hl]; subst.
    rewrite Hf. simpl. apply IH in Hl. rewrite Hl. reflexivity.
Qed.

Lemma Forall2_in_l {A B} (R : A -> B -> Prop) l l' a :
  Forall2 R l l' -> In a l -> exists b, In b l' /\ R a b.
Proof.
  induction 1 as [|x y l l' HR _ IH]; simpl; [tauto|].
  intros [->|Hin].
  - exists y. auto.
  - destruct (IH Hin) as [b [Hb HRb]]. exists b. auto.
Qed.

Lemma str_eqb_eq a b : str_eqb a b = true <-> a = b.
Proof.
  unfold str_eqb. destruct (list_eq_dec N.eq_dec a b); split; congruence.
Qed.

Lemma str_eqb_refl a : str_eqb a a = true.
Proof. now apply str_eqb_eq. Qed.

Lemma str_eqb_neq a b : a <> b -> str_eqb a b = false.
Proof.
  intros H. destruct (str_eqb a b) eqn:E; [|reflexivity].
  apply str_eqb_eq in E. contradiction.
Qed.

Lemma dict_get_set_same {V} (k : str) (v : V) : forall d,
  dict_get k (dict_set k v d) = Some v.
Proof.
  induction d as [|[k' v'] d IH]; simpl.
  - now rewrite str_eqb_refl.
  - destruct (str_eqb k' k) eqn:E; simpl; rewrite E; auto.
Qed.

Lemma dict_get_set_other {V} (k k0 : str) (v : V) : k0 <> k -> forall d,
  dict_get k (dict_set k0 v d) = dict_get k d.
Proof.
  intros Hne. induction d as [|[k' v'] d IH]; simpl.
  - rewrite str_eqb_neq; auto.
  - destruct (str_eqb k' k0) eqn:E; simpl.
    + apply str_eqb_eq in E. subst k'. rewrite str_eqb_neq; auto.
    + destruct (str_eqb k' k); auto.
Qed.

(** * The single-value fields *)

Lemma extract_document_info_rules text :
  extract_document_info text = run_rules document_info_rules text [].
Proof. reflexivity. Qed.

Lemma extract_instrument_settings_rules text :
  extract_instrument_settings text = run_rules instrument_settings_rules text [].
Proof. reflexivity. Qed.

Lemma extract_instrument_info_rules text :
  extract_instrument_info text = run_rules instrument_info_rules text [].
Proof. reflexivity. Qed.

Lemma extract_key_calculation_rule text :
  extract_key_calculation text =
  match re_search no_flags re_key_calc text with
  | Some m => value_of (field_rule KeyCalculation) m
  | None => Ok None
  end.
Proof. reflexivity. Qed.

(** Rules leave the keys of other rules alone. *)
Lemma run_rules_frame text k : forall rules d d',
  ~ In k (map key rules) ->
  run_rules rules text d = Ok d' ->
  dict_get k d' = dict_get k d.
Proof.
  induction rules as [|ru rules IH]; intros d d' Hk H; simpl in H.
  - now inversion H.
  - inv_bind H. simpl in Hk.
    rewrite (IH _ _ (fun Hin => Hk (or_intror Hin)) H).
    unfold store_if in H0.
    destruct (re_search _ _ text); [|now inversion H0].
    inv_bind H0. inversion H0; subst.
    apply dict_get_set_other. intros E. apply Hk. now left.
Qed.

(** What a dictionary holds for each of its rules once they have run. *)
Lemma run_rules_spec text : forall rules d d',
  NoDup (map key rules) ->
  run_rules rules text d = Ok d' ->
  forall ru, In ru rules ->
    match re_search (rule_flags ru) (pattern ru) text with
    | Some m => exists v, value_of ru m = Ok v /\ dict_get (key ru) d' = Some v
    | None => dict_get (key ru) d' = dict_get (key ru) d
    end.
Proof.
  induction rules as [|ru0 rules IH]; intros d d' Hnd H ru Hin; [destruct Hin|].
  simpl in H. inv_bind H. simpl in Hnd. inversion Hnd as [|? ? Hk Hnd']; subst.
  destruct Hin as [->|Hin].
  - rewrite (run_rules_frame text (key ru) rules a d' Hk H).
    unfold store_if in H0.
    destruct (re_search _ _ text) as [m|]; [|now inversion H0].
    inv_bind H0. inversion H0; subst.
    exists a0. split; [assumption|]. apply dict_get_set_same.
  - specialize (IH _ _ Hnd' H ru Hin).
    destruct (re_search (rule_flags ru) (pattern ru) text) as [m|]; [exact IH|].
    rewrite IH. unfold store_if in H0.
    destruct (re_search _ _ text); [|now inversion H0].
    inv_bind H0. inversion H0; subst.
    apply dict_get_set_other. intros E. apply Hk. rewrite E.
    now apply in_map.
Qed.

(** * The standards table *)

Lemma nth_error_skipn {A} : forall (l : list A) i,
  (i < List.length l)%nat ->
  exists a, nth_error l i = Some a /\ skipn i l = a :: skipn (S i) l.
Proof.
  induction l as [|x l IH]; intros i Hi; simpl in Hi; [lia|].
  destruct i as [|i].
  - exists x. auto.
  - destruct (IH i) as [a [H1 H2]]; [lia|]. exists a. simpl. auto.
Qed.

(** The two branches of the [try] statement, for a cell that exists: the
    handler runs exactly when [float] raises, and stores the cell. *)
Lemma try_cell cols i c h row :
  nth_error cols i = Some c ->
  try_except
    (c <- index cols i ;; f <- float (remove_commas c) ;;
     Ok (dict_set h (CellFloat f) row))
    (c <- index cols i ;; Ok (dict_set h (CellStr c) row))
  = Ok (dict_set h (cell_value c) row).
Proof.
  intros H. unfold index, cell_value. rewrite H. simpl.
  destruct (float (remove_commas c)); reflexivity.
Qed.

(** A row that has a cell for every header: the headers zipped with the
    cells; cells beyond the headers are not read. *)
Lemma fill_row_zip cols : forall hs i row,
  (i + List.length hs <= List.length cols)%nat ->
  fill_row i hs cols row
  = Ok (fold_left (fun row hc => dict_set (fst hc) (cell_value (snd hc)) row)
                  (combine hs (skipn i cols)) row).
Proof.
  induction hs as [|h hs IH]; intros i row Hlen; simpl; [reflexivity|].
  simpl in Hlen.
  destruct (nth_error_skipn cols i) as [c [Hc Hs]]; [lia|].
  rewrite (try_cell cols i c h row Hc). simpl bind.
  rewrite IH by lia. rewrite Hs. reflexivity.
Qed.

(** A row with fewer cells than headers: the handler of the first header
    without a cell raises [IndexError]. *)
Lemma fill_row_short cols : forall hs i row,
  (i <= List.length cols)%nat ->
  (List.length cols < i + List.length hs)%nat ->
  fill_row i hs cols row = Raise IndexError.
Proof.
  induction hs as [|h hs IH]; intros i row Hi Hlen; simpl in *; [lia|].
  destruct (Nat.lt_ge_cases i (List.length cols)) as [Hlt|Hge].
  - destruct (nth_error_skipn cols i Hlt) as [c [Hc _]].
    rewrite (try_cell cols i c h row Hc). simpl bind. apply IH; lia.
  - apply nth_error_None in Hge. unfold index. rewrite Hge. reflexivity.
Qed.

Lemma table_row_zip headers line :
  (List.length headers <= List.length (cells_of line))%nat ->
  table_row headers line = Ok (zip_row headers (cells_of line)).
Proof.
  intros H. unfold table_row, zip_row. rewrite fill_row_zip by (simpl; lia).
  reflexivity.
Qed.

(** Cells beyond the headers do not change the row. *)
Lemma zip_row_extra headers cols extra :
  (List.length headers <= List.length cols)%nat ->
  zip_row headers (cols ++ extra) = zip_row headers cols.
Proof.
  intros H. unfold zip_row. f_equal.
  revert cols H. induction headers as [|h hs IH]; intros cols H; [reflexivity|].
  destruct cols as [|c cols]; simpl in *; [lia|].
  f_equal. apply IH. lia.
Qed.

Lemma Forall2_map_r_rows hs : forall lines,
  Forall (fun line => (List.length hs <= List.length (cells_of line))%nat) lines ->
  Forall2 (fun line row => table_row hs line = Ok row) lines
          (map (fun line => zip_row hs (cells_of line)) lines).
Proof.
  induction 1 as [|line lines Hl _ IH]; simpl; constructor; auto.
  now apply table_row_zip.
Qed.

Lemma split_not_nil sep : forall s, split sep s <> [].
Proof.
  induction s as [|c s IH]; simpl; [discriminate|].
  destruct (c =? sep); [discriminate|].
  destruct (split sep s); discriminate.
Qed.

(** A table all of whose data lines have a cell for every header: the
    section ends normally, whatever the cells hold. *)
Lemma table_of_full_rows text m g :
  re_search DOTALL re_table text = Some m ->
  group m 1 = Some g ->
  Forall (fun line =>
            (List.length (cells_of (hd [] (split nl (strip g))))
             <= List.length (cells_of line))%nat)
         (slice_2 (split nl (strip g))) ->
  extract_standards_table text
  = Ok {| headers := cells_of (hd [] (split nl (strip g)));
          data := map (fun line =>
                         zip_row (cells_of (hd [] (split nl (strip g))))
                                 (cells_of line))
                      (slice_2 (split nl (strip g))) |}.
Proof.
  intros Hs Hg Hrows. unfold extract_standards_table. rewrite Hs, Hg. simpl.
  destruct (split nl (strip g)) as [|l0 ls] eqn:E;
    [now apply split_not_nil in E|].
  simpl. simpl in Hrows.
  assert (Hm : mapM (table_row (cells_of l0)) (slice_2 (l0 :: ls))
               = Ok (map (fun line => zip_row (cells_of l0) (cells_of line))
                         (slice_2 (l0 :: ls)))).
  { apply mapM_ok. apply Forall2_map_r_rows. exact Hrows. }
  rewrite Hm. reflexivity.
Qed.

(** C1 (the claim fails on the code).  The parser raises on a standards
    table whose data row is shorter than its header row: for the header
    [| A | B |] and the data row [| 1.5 |] the call ends with [IndexError]
    and returns no record. *)
Theorem short_row_parse_raises :
  parse_page_content_to_json short_row_text = Raise IndexError.
Proof. vm_compute. reflexivity. Qed.

(** The conversions of the well loops are not guarded either: a standard
    well whose concentration is [1.2.3] ends the call with [ValueError]. *)
Lemma bad_float_parse_raises :
  parse_page_content_to_json bad_float_line = Raise ValueError.
Proof. vm_compute. reflexivity. Qed.

(** C2 (the claim fails on the code).  A data row with fewer cells than
    there are headers yields no row at all: building it raises
    [IndexError], for every header list and every such line. *)
Theorem short_row_raises headers line :
  (List.length (cells_of line) < List.length headers)%nat ->
  table_row headers line = Raise IndexError.
Proof.
  intros H. unfold table_row. apply fill_row_short; simpl; lia.
Qed.

(** The other half of C2 holds: the cells beyond the headers are ignored. *)
Lemma long_row_ignores_extra headers cols extra :
  (List.length headers <= List.length cols)%nat ->
  fill_row 0 headers (cols ++ extra) [] = fill_row 0 headers cols [].
Proof.
  intros H. rewrite !fill_row_zip by (rewrite ?length_app; simpl; lia).
  simpl skipn. f_equal. now apply zip_row_extra.
Qed.

Lemma long_row_parse :
  parse_page_content_to_json long_row_text
  = Ok {| document_info := [];
          instrument_settings := [];
          instrument_info := [];
          sample_data := {| standard_curve_wells := [];
                            control_and_sample_wells := [] |};
          standards_table :=
            {| headers := [lit "A"; lit "B"];
               data := [[(lit "A", CellFloat (dec 15 (-1))); (lit "B", CellStr "x")]] |};
          key_calculation := None;
          full_content := long_row_text |}.
Proof. vm_compute. reflexivity. Qed.

(** C5.  The table with header [| A | B |] and data row [| 1.5 | x |],
    followed by a blank line, yields the headers [A] and [B] and the one row
    [{A: 1.5, B: x}].  In general a line with a cell for every header gives
    the headers zipped with the cells, each cell as the float it denotes
    once its commas are removed, else as the stripped text itself: a cell
    that is no number never makes the row fail, and a table all of whose
    data lines have a cell for every header makes the table section end
    normally, whatever the cells hold. *)
Theorem table_example_and_cell_policy :
  parse_page_content_to_json table_text
  = Ok {| document_info := [];
          instrument_settings := [];
          instrument_info := [];
          sample_data := {| standard_curve_wells := [];
                            control_and_sample_wells := [] |};
          standards_table :=
            {| headers := [lit "A"; lit "B"];
               data := [[(lit "A", CellFloat (dec 15 (-1))); (lit "B", CellStr "x")]] |};
          key_calculation := None;
          full_content := table_text |}
  /\ (forall headers line,
        (List.length headers <= List.length (cells_of line))%nat ->
        table_row headers line = Ok (zip_row headers (cells_of line)))
  /\ (forall text m g,
        re_search DOTALL re_table text = Some m ->
        group m 1 = Some g ->
        Forall (fun line =>
                  (List.length (cells_of (hd [] (split nl (strip g))))
                   <= List.length (cells_of line))%nat)
               (slice_2 (split nl (strip g))) ->
        extract_standards_table text
        = Ok {| headers := cells_of (hd [] (split nl (strip g)));
                data := map (fun line =>
                               zip_row (cells_of (hd [] (split nl (strip g))))
                                       (cells_of line))
                            (slice_2 (split nl (strip g))) |}).
Proof.
  split; [vm_compute; reflexivity|]. split.
  - apply table_row_zip.
  - apply table_of_full_rows.
Qed.

(** * Texts in which nothing matches *)

Lemma finditer_from_nowhere fl r : forall s pos skip,
  (forall k, matches fl r (skipn k s) = []) ->
  finditer_from fl r s pos skip = [].
Proof.
  induction s as [|c s IH]; intros pos skip H.
  - destruct skip; simpl; [|reflexivity].
    pose proof (H O) as H0. simpl in H0. now rewrite H0.
  - destruct skip as [|k]; simpl.
    + pose proof (H O) as H0. simpl in H0. rewrite H0.
      apply IH. intros k. apply (H (S k)).
    + apply IH. intros j. apply (H (S j)).
Qed.

Lemma findall5_nowhere fl r text :
  matches_nowhere fl r text -> findall5 fl r text = [].
Proof.
  intros H. unfold findall5, finditer. now rewrite finditer_from_nowhere.
Qed.

Ltac in_list := simpl; repeat first [left; reflexivity | right].

(** C6.  When no extraction pattern matches anywhere in the text, the
    parser returns, without raising, the record whose three information
    dictionaries are empty, whose two well lists are empty, whose standards
    table has no header and no row, whose key calculation is [None], and
    whose [full_content] is the text itself. *)
Theorem nothing_matches_empty_record text :
  no_pattern_matches text ->
  parse_page_content_to_json text = Ok (empty_record text).
Proof.
  intros H. unfold no_pattern_matches in H. rewrite Forall_forall in H.
  assert (N : forall fl r, In (fl, r) all_patterns -> matches_nowhere fl r text).
  { intros fl r Hin. apply (H (fl, r) Hin). }
  assert (S : forall fl r, In (fl, r) all_patterns -> re_search fl r text = None).
  { intros fl r Hin. apply re_search_none. auto. }
  unfold parse_page_content_to_json, extract_document_info,
    extract_instrument_settings, extract_instrument_info,
    extract_standard_wells, extract_control_wells, extract_standards_table,
    extract_key_calculation.
  rewrite (S no_flags re_doc_title), (S no_flags re_title), (S no_flags re_qc),
    (S no_flags re_status), (S no_flags re_date), (S no_flags re_wl_comb),
    (S no_flags re_instr), (S no_flags re_rom), (S no_flags re_start_read),
    (S no_flags re_temp), (S IGNORECASE re_operator), (S DOTALL re_table),
    (S no_flags re_key_calc) by in_list.
  rewrite (findall5_nowhere no_flags re_stds), (findall5_nowhere no_flags re_controls)
    by (apply N; in_list).
  reflexivity.
Qed.

(** * First match wins *)

Lemma document_info_keys : NoDup (map key document_info_rules).
Proof. repeat constructor; simpl; intuition discriminate. Qed.

Lemma instrument_settings_keys : NoDup (map key instrument_settings_rules).
Proof. repeat constructor; simpl; intuition discriminate. Qed.

Lemma instrument_info_keys : NoDup (map key instrument_info_rules).
Proof. repeat constructor; simpl; intuition discriminate. Qed.

(** What the parser returns, entry by entry. *)
Lemma parse_ok text r :
  parse_page_content_to_json text = Ok r ->
  extract_document_info text = Ok (document_info r)
  /\ extract_instrument_settings text = Ok (instrument_settings r)
  /\ extract_instrument_info text = Ok (instrument_info r)
  /\ extract_standard_wells text = Ok (standard_curve_wells (sample_data r))
  /\ extract_control_wells text = Ok (control_and_sample_wells (sample_data r))
  /\ extract_standards_table text = Ok (standards_table r)
  /\ extract_key_calculation text = Ok (key_calculation r)
  /\ full_content r = text.
Proof.
  unfold parse_page_content_to_json. intros H.
  inv_bind H. inv_bind H. inv_bind H. inv_bind H. inv_bind H. inv_bind H.
  inv_bind H. inversion H; subst; simpl. repeat split; assumption.
Qed.

(** What a field holds after a successful search: the value of its
    expression on the match. *)
Lemma stored_of_search f text r m :
  parse_page_content_to_json text = Ok r ->
  re_search (rule_flags (field_rule f)) (pattern (field_rule f)) text = Some m ->
  exists v, value_of (field_rule f) m = Ok v /\ stored f r = Some v.
Proof.
  intros Hp Hs. apply parse_ok in Hp.
  destruct Hp as [Hdi [His [Hii [_ [_ [_ [Hkc _]]]]]]].
  rewrite extract_document_info_rules in Hdi.
  rewrite extract_instrument_settings_rules in His.
  rewrite extract_instrument_info_rules in Hii.
  rewrite extract_key_calculation_rule in Hkc.
  pose proof (run_rules_spec text _ _ _ document_info_keys Hdi (field_rule f)) as Sdi.
  pose proof (run_rules_spec text _ _ _ instrument_settings_keys His (field_rule f)) as Sis.
  pose proof (run_rules_spec text _ _ _ instrument_info_keys Hii (field_rule f)) as Sii.
  rewrite Hs in Sdi, Sis, Sii.
  destruct f; unfold stored;
    try (apply Sdi; in_list); try (apply Sis; in_list); try (apply Sii; in_list).
  simpl in Hs. rewrite Hs in Hkc. rewrite Hkc. eauto.
Qed.

(** C7.  For every single-value field: when the pattern of the field
    matches at position [k] of the text and at no position before it, the
    record holds the value taken from that first match, whatever matches
    come after it. *)
Theorem first_match_wins f text r k m :
  parse_page_content_to_json text = Ok r ->
  (forall j, (j < k)%nat ->
     matches (rule_flags (field_rule f)) (pattern (field_rule f)) (skipn j text) = []) ->
  match_at (rule_flags (field_rule f)) (pattern (field_rule f)) (skipn k text) = Some m ->
  exists v, value_of (field_rule f) m = Ok v /\ stored f r = Some v.
Proof.
  intros Hp Hlt Hm. apply stored_of_search with (text := text); [assumption|].
  eapply re_search_leftmost; eauto.
Qed.

Lemma match_lit_self l s : match_lit no_flags l (l ++ s) = Some (l, s).
Proof.
  induction l as [|a l IH]; simpl; [reflexivity|].
  unfold char_matches. rewrite N.eqb_refl. simpl. rewrite IH. reflexivity.
Qed.

(** The longest way of taking a run of accepted characters is to take all
    of it. *)
Lemma rep_splits_last p t :
  match t with [] => True | c :: _ => p c = false end ->
  forall v lo,
    Forall (fun c => p c = true) v -> (lo <= List.length v)%nat ->
    exists l, rep_splits p lo None (v ++ t) = l ++ [(v, t)].
Proof.
  intros Ht. induction v as [|a v IH]; intros lo Hv Hlo.
  - simpl in Hlo. assert (lo = O) by lia. subst lo. exists [].
    destruct t as [|c t]; simpl; [reflexivity|]. rewrite Ht. reflexivity.
  - inversion Hv as [|? ? Ha Hv']; subst. simpl. rewrite Ha. simpl.
    destruct (IH (pred lo) Hv') as [l Hl]; [simpl in Hlo; lia|].
    rewrite Hl. rewrite map_app. simpl.
    exists ((match lo with O => [([], a :: v ++ t)] | S _ => [] end)
            ++ map (fun ab => (a :: fst ab, snd ab)) l).
    now rewrite app_assoc.
Qed.

(** A label followed by text up to the end of the line: the match takes
    the whole of that text as its group. *)
Lemma labelled_line_match l v post :
  v <> [] -> ~ In nl v -> line_end post ->
  match_at no_flags (Lit l >> Grp 1 (plus Dot)) (l ++ v ++ post)
  = Some {| matched := l ++ v; rest := post; groups := [(1%nat, v)] |}.
Proof.
  intros Hne Hnl Hpost. unfold match_at, plus. simpl matches.
  rewrite match_lit_self. simpl.
  destruct (rep_splits_last (accepts no_flags Dot) post) with (v := v) (lo := 1%nat)
    as [sp Hsp].
  - destruct Hpost as [->|[q ->]]; [exact I|reflexivity].
  - apply Forall_forall. intros c Hc. simpl.
    destruct (c =? nl) eqn:E; [|reflexivity].
    apply N.eqb_eq in E. subst. contradiction.
  - destruct v; [contradiction|simpl; lia].
  - rewrite Hsp. rewrite rev_app_distr. simpl. rewrite ?app_nil_r. reflexivity.
Qed.

Lemma label_pattern f l :
  label f = Some l ->
  field_rule f = rule_of (key (field_rule f)) no_flags
                         (Lit l >> Grp 1 (plus Dot)) group1_strip.
Proof. destruct f; simpl; intros H; inversion H; reflexivity. Qed.

(** For the fields made of a label and the rest of the line: the record
    holds the stripped text of the first line that has the label, whatever
    follows that line. *)
Lemma first_labelled_line_wins f l pre v post r :
  label f = Some l ->
  (forall j, (j < List.length pre)%nat ->
     matches no_flags (Lit l >> Grp 1 (plus Dot)) (skipn j (pre ++ l ++ v ++ post)) = []) ->
  v <> [] -> ~ In nl v -> line_end post ->
  parse_page_content_to_json (pre ++ l ++ v ++ post) = Ok r ->
  stored f r = Some (Some (strip v)).
Proof.
  intros Hl Hlt Hne Hnl Hpost Hp.
  pose proof (label_pattern f l Hl) as Hr.
  destruct (stored_of_search f (pre ++ l ++ v ++ post) r
              {| matched := l ++ v; rest := post; groups := [(1%nat, v)] |} Hp)
    as [x [Hx Hst]].
  - rewrite Hr. simpl.
    apply re_search_leftmost with (k := List.length pre); [exact Hlt|].
    rewrite skipn_app, skipn_all, Nat.sub_diag. simpl.
    now apply labelled_line_match.
  - rewrite Hst. rewrite Hr in Hx. simpl in Hx. inversion Hx. reflexivity.
Qed.

(** Two [**Instrument:**] lines: the first is kept. *)
Lemma two_instruments_first_kept :
  parse_page_content_to_json two_instruments_text = Ok two_instruments_record.
Proof. vm_compute. reflexivity. Qed.

(** * Order of the wells and of the rows *)

Lemma Forall2_map_l {A B C} (g : A -> B) (R : B -> C -> Prop) : forall l l',
  Forall2 R (map g l) l' <-> Forall2 (fun a c => R (g a) c) l l'.
Proof.
  induction l as [|a l IH]; intros l'; simpl; split; intros H;
    inversion H; subst; constructor; auto; now apply IH.
Qed.

Lemma finditer_in_text_order fl r text :
  never_empty r = true -> in_text_order fl r text (finditer fl r text).
Proof.
  intros NE. destruct (finditer_from_sorted fl r NE text O O) as [HF HS].
  split; [|exact HS].
  eapply Forall_impl; [|exact HF]. intros [p m] [k [_ [Hp Hm]]].
  simpl in *. now subst p.
Qed.

(** C8.  The standard wells are the records of the successive matches of
    the standard-well pattern, one record per match and in the order of the
    matches; the matches are found at increasing positions of the text and
    do not overlap.  The same holds of the control and sample wells.  The
    rows of the table are those of the lines after the separator line, one
    row per line and in the order of the lines.  Nothing compares a record
    with an earlier one: no entry is dropped or merged. *)
Theorem wells_and_rows_in_text_order text r :
  parse_page_content_to_json text = Ok r ->
  in_text_order no_flags re_stds text (finditer no_flags re_stds text)
  /\ Forall2 (fun pm w => standard_well (tuple5 (snd pm)) = Ok w)
       (finditer no_flags re_stds text)
       (standard_curve_wells (sample_data r))
  /\ in_text_order no_flags re_controls text (finditer no_flags re_controls text)
  /\ Forall2 (fun pm w => control_well (tuple5 (snd pm)) = Ok w)
       (finditer no_flags re_controls text)
       (control_and_sample_wells (sample_data r))
  /\ (forall m, re_search DOTALL re_table text = Some m ->
        exists g, group m 1 = Some g
          /\ Forall2 (fun line row => table_row (headers (standards_table r)) line = Ok row)
               (slice_2 (split nl (strip g)))
               (data (standards_table r))).
Proof.
  intros Hp. apply parse_ok in Hp.
  destruct Hp as [_ [_ [_ [Hsw [Hcw [Hst _]]]]]].
  split; [now apply finditer_in_text_order|].
  split.
  { unfold extract_standard_wells, findall5 in Hsw.
    apply mapM_ok in Hsw. now apply Forall2_map_l in Hsw. }
  split; [now apply finditer_in_text_order|].
  split.
  { unfold extract_control_wells, findall5 in Hcw.
    apply mapM_ok in Hcw. now apply Forall2_map_l in Hcw. }
  intros m Hm. unfold extract_standards_table in Hst. rewrite Hm in Hst.
  destruct (group m 1) as [g|]; [|discriminate]. simpl in Hst.
  exists g. split; [reflexivity|].
  inv_bind Hst. inv_bind Hst. inversion Hst; subst; simpl.
  apply mapM_ok in H0.
  unfold index in H. destruct (split nl (strip g)) as [|l0 ls] eqn:E; [discriminate|].
  simpl in H. inversion H; subst. exact H0.
Qed.

(** Repeated well lines give repeated entries, in the order of the lines. *)
Lemma repeated_wells_kept :
  parse_page_content_to_json repeated_wells_text = Ok repeated_wells_record.
Proof. vm_compute. reflexivity. Qed.

(** * The standard-curve line *)

Lemma re_stds_never_empty : never_empty re_stds = true.
Proof. reflexivity. Qed.

Lemma re_stds_within_line : within_line no_flags re_stds = true.
Proof. reflexivity. Qed.

Lemma re_controls_never_empty : never_empty re_controls = true.
Proof. reflexivity. Qed.

Lemma re_controls_within_line : within_line no_flags re_controls = true.
Proof. reflexivity. Qed.

(** The line matches at its start, whatever line follows it. *)
Lemma std_line_match post :
  line_end post ->
  exists m, match_at no_flags re_stds (std_line ++ post) = Some m
            /\ tuple5 m = std_line_tuple.
Proof.
  intros [->|[q ->]]; eexists; split; vm_compute; reflexivity.
Qed.

(** A match at the start of a line of the text is one of the results of
    the scan. *)
Lemma finditer_finds_line fl r pre s m :
  never_empty r = true -> within_line fl r = true ->
  line_start pre ->
  match_at fl r s = Some m ->
  In (List.length pre, m) (finditer fl r (pre ++ s)).
Proof.
  intros NE WL Hpre Hm.
  destruct (finditer_line_start fl r NE WL pre s Hpre) as [l [-> _]].
  apply in_or_app. right. rewrite (finditer_from_step fl r NE), Hm. now left.
Qed.

Lemma standard_well_std_line : standard_well std_line_tuple = Ok std_line_well.
Proof. vm_compute. reflexivity. Qed.

(** C3.  In every text that has the line
    [- **A1**: 5.0 Std - 1,234.5 (Reduced: 1,200.0) - Date: 01-01-2024 10:00:00]
    as one of its lines, [re.findall] reports the groups of the line, the
    loop body turns them into the record with well [A1], concentration
    [5.0], fluorescence value [1234.5], reduced value [1200.0] and date
    [01-01-2024 10:00:00] (the commas of the two values are removed before
    [float]), and every record the parser returns has that entry in
    [standard_curve_wells]. *)
Theorem std_line_record pre post :
  line_start pre -> line_end post ->
  In std_line_tuple (findall5 no_flags re_stds (pre ++ std_line ++ post))
  /\ standard_well std_line_tuple = Ok std_line_well
  /\ forall r, parse_page_content_to_json (pre ++ std_line ++ post) = Ok r ->
       In std_line_well (standard_curve_wells (sample_data r)).
Proof.
  intros Hpre Hpost.
  destruct (std_line_match post Hpost) as [m [Hm Ht]].
  assert (Hin : In std_line_tuple
                   (findall5 no_flags re_stds (pre ++ std_line ++ post))).
  { unfold findall5. rewrite <- Ht.
    apply (in_map (fun pm => tuple5 (snd pm)) _ (List.length pre, m)).
    apply finditer_finds_line; auto using re_stds_never_empty, re_stds_within_line. }
  split; [exact Hin|]. split; [exact standard_well_std_line|].
  intros r Hp. apply parse_ok in Hp.
  destruct Hp as [_ [_ [_ [Hsw _]]]].
  unfold extract_standard_wells in Hsw. apply mapM_ok in Hsw.
  destruct (Forall2_in_l _ _ _ _ Hsw Hin) as [w [Hw Hsw']].
  rewrite standard_well_std_line in Hsw'. inversion Hsw'; subst. exact Hw.
Qed.

(** * Control and sample wells *)

Ltac inv_matches :=
  repeat match goal with
    | H : In _ (matches _ (_ >> _) _) |- _ =>
        apply in_matches_cat in H;
        let m1 := fresh "m" in let m2 := fresh "m" in
        destruct H as (m1 & m2 & ? & H & ? & ? & ?)
    | H : In _ (matches _ (Grp _ _) _) |- _ =>
        apply in_matches_grp in H;
        let m1 := fresh "m" in
        destruct H as (m1 & H & ? & ? & ?)
    | H : In _ (matches _ (Lit _) _) |- _ =>
        apply in_matches_lit in H; destruct H as (? & ?)
    | H : In _ (matches _ (Rep _ _ _ _) _) |- _ =>
        apply in_matches_rep in H; destruct H as (? & ? & ? & ?)
    | H : In _ (matches _ (Cls _) _) |- _ =>
        apply in_matches_cls in H; destruct H as (? & ? & ? & ? & ?)
    end.

(** The groups of a match of the control pattern: the well and the sample
    type always; the value, the reduced value and the date together, none of
    them empty, or none of the three. *)
Lemma re_controls_groups s m :
  In m (matches no_flags re_controls s) ->
  exists well sample,
    group m 1 = Some well /\ group m 2 = Some sample
    /\ ((group m 3 = None /\ group m 4 = None /\ group m 5 = None)
        \/ exists val red date,
             group m 3 = Some val /\ group m 4 = Some red /\ group m 5 = Some date
             /\ val <> [] /\ red <> [] /\ date <> []).
Proof.
  unfold re_controls, plus, plus_lazy. intros H. inv_matches.
  apply in_matches_alt in H. destruct H as [H|H]; inv_matches.
  - unfold group.
    repeat match goal with E : groups _ = _ |- _ => rewrite E; clear E end.
    simpl. do 2 eexists. split; [reflexivity|]. split; [reflexivity|].
    right. do 3 eexists. repeat split; try reflexivity;
      intros E; rewrite E in *; simpl in *; lia.
  - unfold group.
    repeat match goal with E : groups _ = _ |- _ => rewrite E; clear E end.
    simpl. do 2 eexists. split; [reflexivity|]. split; [reflexivity|].
    left. auto.
Qed.

Lemma in_finditer_matches fl r text pos m :
  never_empty r = true ->
  In (pos, m) (finditer fl r text) ->
  In m (matches fl r (skipn pos text)).
Proof.
  intros NE Hin. destruct (finditer_in_text_order fl r text NE) as [HF _].
  rewrite Forall_forall in HF. apply HF in Hin. simpl in Hin.
  now apply match_at_in.
Qed.

(** C4.  For every match of the control pattern that the scan of the text
    reports and whose value group took no part, that is, whose
    [Date: No Data] branch matched: the loop body builds the record with the
    well and the stripped sample type of the match and with [None] for the
    fluorescence value, the reduced value and the date, and every record the
    parser returns has that entry in [control_and_sample_wells]. *)
Theorem no_data_well text pos m :
  In (pos, m) (finditer no_flags re_controls text) ->
  group m 3 = None ->
  exists well sample,
    group m 1 = Some well /\ group m 2 = Some sample
    /\ control_well (tuple5 m)
       = Ok {| ControlWell.well := well;
               ControlWell.sample_type := strip sample;
               ControlWell.fluorescence_value := None;
               ControlWell.reduced_value := None;
               ControlWell.date := None |}
    /\ forall r, parse_page_content_to_json text = Ok r ->
         In {| ControlWell.well := well;
               ControlWell.sample_type := strip sample;
               ControlWell.fluorescence_value := None;
               ControlWell.reduced_value := None;
               ControlWell.date := None |}
            (control_and_sample_wells (sample_data r)).
Proof.
  intros Hin H3.
  pose proof (in_finditer_matches _ _ _ _ _ re_controls_never_empty Hin) as Hm.
  apply re_controls_groups in Hm.
  destruct Hm as [well [sample [H1 [H2 [[_ [H4 H5]]|[v [rd [d [H3' _]]]]]]]]];
    [|congruence].
  exists well, sample. split; [exact H1|]. split; [exact H2|].
  assert (Hc : control_well (tuple5 m)
               = Ok {| ControlWell.well := well;
                       ControlWell.sample_type := strip sample;
                       ControlWell.fluorescence_value := None;
                       ControlWell.reduced_value := None;
                       ControlWell.date := None |}).
  { unfold tuple5, group_or_empty. rewrite H1, H2, H3, H4, H5. reflexivity. }
  split; [exact Hc|].
  intros r Hp. apply parse_ok in Hp.
  destruct Hp as [_ [_ [_ [_ [Hcw _]]]]].
  unfold extract_control_wells in Hcw. apply mapM_ok in Hcw.
  assert (Ht : In (tuple5 m) (findall5 no_flags re_controls text)).
  { unfold findall5. apply (in_map (fun pm => tuple5 (snd pm)) _ (pos, m)). exact Hin. }
  destruct (Forall2_in_l _ _ _ _ Hcw Ht) as [w [Hw Hcw']].
  rewrite Hc in Hcw'. inversion Hcw'; subst. exact Hw.
Qed.

(** A [No Data] line with blanks around its sample type. *)
Lemma no_data_line_record :
  parse_page_content_to_json no_data_line
  = Ok {| document_info := [];
          instrument_settings := [];
          instrument_info := [];
          sample_data :=
            {| standard_curve_wells := [];
               control_and_sample_wells :=
                 [{| ControlWell.well := "B1";
                     ControlWell.sample_type := "Blank";
                     ControlWell.fluorescence_value := None;
                     ControlWell.reduced_value := None;
                     ControlWell.date := None |}] |};
          standards_table := {| headers := []; data := [] |};
          key_calculation := None;
          full_content := no_data_line |}.
Proof. vm_compute. reflexivity. Qed.

(** * Concentrations with a comma *)

Ltac inv_lits :=
  repeat match goal with
    | H : match_lit _ _ _ = Some _ |- _ =>
        apply match_lit_exact in H; [destruct H|reflexivity]
    end.

Ltac split_mres :=
  repeat match goal with
    | m : mres |- _ =>
        let a := fresh "t" in let b := fresh "u" in let c := fresh "g" in
        destruct m as [a b c]
    end;
  cbn [matched rest groups] in *.

(** The text of a match of the standard-well pattern, group by group. *)
Lemma re_stds_shape s m :
  In m (matches no_flags re_stds s) ->
  s = lit "- **" ++ group_or_empty m 1 ++ lit "**: " ++ group_or_empty m 2
      ++ lit " Std - " ++ group_or_empty m 3 ++ lit " (Reduced: "
      ++ group_or_empty m 4 ++ lit ") - Date: " ++ group_or_empty m 5 ++ rest m
  /\ List.length (group_or_empty m 1) = 2%nat
  /\ Forall (fun c => accepts no_flags digit_dot c = true) (group_or_empty m 2).
Proof.
  unfold re_stds, plus. intros H. inv_matches. inv_lits. split_mres. subst.
  unfold group_or_empty, group. cbn [groups lookup_group app Nat.eqb].
  repeat split; assumption.
Qed.

(** A run of accepted characters that ends at [c] has no prefix that goes
    beyond it. *)
Lemma run_prefix (P : char -> bool) c t : forall a x y,
  a ++ c :: t = x ++ y ->
  Forall (fun b => P b = true) a -> Forall (fun b => P b = true) x ->
  P c = false ->
  exists u, a = x ++ u /\ y = u ++ c :: t.
Proof.
  induction a as [|a0 a IH]; intros x y E Ha Hx Hc.
  - destruct x as [|x0 x]; simpl in E.
    + exists []. auto.
    + inversion E; subst. inversion Hx; subst. congruence.
  - destruct x as [|x0 x]; simpl in E.
    + exists (a0 :: a). auto.
    + inversion E; subst. inversion Ha; subst. inversion Hx; subst.
      destruct (IH x y H1 H3 H5 Hc) as [u [-> ->]]. exists u. auto.
Qed.

(** A well line whose concentration runs into a comma does not match. *)
Lemma comma_concentration_no_match d a t :
  Forall (fun c => accepts no_flags digit_dot c = true) a ->
  matches no_flags re_stds (lit "- **A" ++ [d] ++ lit "**: " ++ a ++ [comma] ++ t) = [].
Proof.
  intros Ha.
  destruct (matches no_flags re_stds _) as [|m ms] eqn:E; [reflexivity|exfalso].
  assert (Hin : In m (matches no_flags re_stds
                        (lit "- **A" ++ [d] ++ lit "**: " ++ a ++ [comma] ++ t)))
    by (rewrite E; now left).
  apply re_stds_shape in Hin. destruct Hin as [Hs [Hl Hc]].
  destruct (group_or_empty m 1) as [|w1 [|w2 [|w3 w]]]; try discriminate.
  cbn [app lit] in Hs. inversion Hs as [[Hw1 Hw2 Hrun]].
  apply run_prefix with (P := accepts no_flags digit_dot) in Hrun;
    [|assumption|assumption|reflexivity].
  destruct Hrun as [u [-> Hu]].
  destruct u as [|u0 u]; simpl in Hu; inversion Hu; subst.
  apply Forall_app in Ha. destruct Ha as [_ Ha]. inversion Ha; subst.
  discriminate.
Qed.

Lemma finditer_from_no_match fl r s : forall a pos,
  (forall k, (k < List.length a)%nat -> matches fl r (skipn k (a ++ s)) = []) ->
  finditer_from fl r (a ++ s) pos 0 = finditer_from fl r s (pos + List.length a) 0.
Proof.
  induction a as [|c a IH]; intros pos H.
  - simpl. now rewrite Nat.add_0_r.
  - pose proof (H O (Nat.lt_0_succ _)) as H0. simpl in H0.
    simpl. rewrite H0. rewrite IH.
    + f_equal. lia.
    + intros k Hk. apply (H (S k)). simpl. lia.
Qed.

(** No position of the comma line starts a match. *)
Lemma comma_line_no_match post k :
  line_end post -> (k < List.length comma_line)%nat ->
  matches no_flags re_stds (skipn k (comma_line ++ post)) = [].
Proof.
  intros Hpost Hk. change (List.length comma_line) with 68%nat in Hk.
  destruct Hpost as [->|[q ->]];
    do 68 (destruct k as [|k]; [vm_compute; reflexivity|]); lia.
Qed.

(** C9.  A standard-curve line whose concentration contains a comma gives
    no standard-curve record.  The pattern does not match at the start of
    any well line whose digits and dots after [**: ] run into a comma; in
    every text that has the line
    [- **A1**: 1,000 Std - 5.0 (Reduced: 4.0) - Date: 01-01-2024 10:00:00]
    as one of its lines, no match of the scan starts within the line; and
    the record of the line alone has no well at all. *)
Theorem comma_concentration_no_record :
  (forall d a t,
     Forall (fun c => accepts no_flags digit_dot c = true) a ->
     matches no_flags re_stds
       (lit "- **A" ++ [d] ++ lit "**: " ++ a ++ [comma] ++ t) = [])
  /\ (forall pre post pm,
        line_start pre -> line_end post ->
        In pm (finditer no_flags re_stds (pre ++ comma_line ++ post)) ->
        (fst pm < List.length pre)%nat
        \/ (List.length pre + List.length comma_line <= fst pm)%nat)
  /\ parse_page_content_to_json comma_line = Ok (empty_record comma_line).
Proof.
  split; [exact comma_concentration_no_match|].
  split; [|vm_compute; reflexivity].
  intros pre post pm Hpre Hpost Hin.
  destruct (finditer_line_start no_flags re_stds re_stds_never_empty
              re_stds_within_line pre (comma_line ++ post) Hpre) as [l [E Hl]].
  rewrite E in Hin. apply in_app_or in Hin. destruct Hin as [Hin|Hin].
  - left. rewrite Forall_forall in Hl. now apply Hl.
  - right. rewrite finditer_from_no_match in Hin
      by (intros k Hk; now apply comma_line_no_match).
    destruct (finditer_from_sorted no_flags re_stds re_stds_never_empty post
                (List.length pre + List.length comma_line) 0) as [HF _].
    rewrite Forall_forall in HF. apply HF in Hin.
    destruct Hin as [k [_ [-> _]]]. lia.
Qed.

(** * Tables without a closing blank line *)

Lemma starts_with_app sub b : starts_with sub (sub ++ b) = true.
Proof.
  induction sub as [|a sub IH]; simpl; [reflexivity|].
  now rewrite N.eqb_refl, IH.
Qed.

Lemma occursb_eq sub s :
  occursb sub s
  = starts_with sub s || match s with [] => false | _ :: s' => occursb sub s' end.
Proof. destruct s; reflexivity. Qed.

Lemma occurs_occursb sub s : occurs sub s -> occursb sub s = true.
Proof.
  intros [a [b ->]]. induction a as [|c a IH].
  - simpl app. rewrite occursb_eq, starts_with_app. reflexivity.
  - simpl. rewrite IH. apply orb_true_r.
Qed.

(** The text of a match of the table pattern. *)
Lemma re_table_shape s m :
  In m (matches DOTALL re_table s) ->
  exists g, group m 1 = Some g /\ s = table_heading ++ g ++ [nl; nl] ++ rest m.
Proof.
  unfold re_table, plus_lazy. intros H. inv_matches. inv_lits. split_mres. subst.
  eexists. split; [reflexivity|]. rewrite <- ?app_assoc. reflexivity.
Qed.

(** C10.  When no [## Standards Table] heading of the text has a blank
    line anywhere after it, as for a table at the very end of the text, the
    search for the table finds nothing, and the headers and the data of
    every record the parser returns are empty. *)
Theorem unterminated_table_not_extracted text :
  (forall a b, text = a ++ table_heading ++ b -> ~ occurs [nl; nl] b) ->
  re_search DOTALL re_table text = None
  /\ forall r, parse_page_content_to_json text = Ok r ->
       headers (standards_table r) = [] /\ data (standards_table r) = [].
Proof.
  intros Hno.
  assert (Hs : re_search DOTALL re_table text = None).
  { apply re_search_none. intros k.
    destruct (matches DOTALL re_table (skipn k text)) as [|m ms] eqn:E;
      [reflexivity|exfalso].
    assert (Hin : In m (matches DOTALL re_table (skipn k text)))
      by (rewrite E; now left).
    apply re_table_shape in Hin. destruct Hin as [g [_ Hk]].
    apply (Hno (firstn k text) (g ++ [nl; nl] ++ rest m)).
    - rewrite <- Hk. symmetry. apply firstn_skipn.
    - exists g, (rest m). reflexivity. }
  split; [exact Hs|].
  intros r Hp. apply parse_ok in Hp.
  destruct Hp as [_ [_ [_ [_ [_ [Hst _]]]]]].
  unfold extract_standards_table in Hst. rewrite Hs in Hst.
  inversion Hst. auto.
Qed.

(** A table at the very end of the text is left out. *)
Lemma unterminated_table_parse :
  parse_page_content_to_json unterminated_table_text
  = Ok (empty_record unterminated_table_text).
Proof. vm_compute. reflexivity. Qed.

Lemma unterminated_table_no_blank_line a b :
  unterminated_table_text = a ++ table_heading ++ b -> ~ occurs [nl; nl] b.
Proof.
  intros E [x [y Hb]].
  assert (Ho : occurs [nl; nl] unterminated_table_text).
  { exists (a ++ table_heading ++ x), y. rewrite E, Hb.
    now rewrite <- !app_assoc. }
  apply occurs_occursb in Ho. vm_compute in Ho. discriminate.
Qed.

(** * The exceptions of the parser *)

Lemma lookup_group_app k a b :
  lookup_group k (a ++ b)
  = match lookup_group k a with
    | Some g => Some g
    | None => lookup_group k b
    end.
Proof.
  induction a as [|[j g] a IH]; simpl; [reflexivity|].
  destruct (Nat.eqb j k); auto.
Qed.

(** A group that every way of matching goes through is never [None]. *)
Lemma matches_always_sets fl k r : always_sets k r = true ->
  forall s m, In m (matches fl r s) -> exists g, group m k = Some g.
Proof.
  unfold group.
  induction r as [l|cs|cs lo hi g|r1 IH1 r2 IH2|r1 IH1 r2 IH2|j r IH];
    simpl always_sets; intros W s m H; try discriminate.
  - apply in_matches_cat in H. destruct H as [m1 [m2 [H1 [H2 [_ [_ ->]]]]]].
    rewrite lookup_group_app. apply orb_prop in W.
    destruct (lookup_group k (groups m2)) as [g2|] eqn:E2; [eauto|].
    destruct W as [W|W].
    + eapply IH1; eauto.
    + destruct (IH2 W _ _ H2) as [g Hg]. congruence.
  - apply andb_prop in W. destruct W as [W1 W2].
    apply in_matches_alt in H. destruct H; eauto.
  - apply in_matches_grp in H. destruct H as [m1 [H1 [_ [_ ->]]]].
    simpl. destruct (Nat.eqb j k) eqn:E; [eauto|].
    simpl in W. eapply IH; eauto.
Qed.

Lemma re_search_in fl r text m :
  re_search fl r text = Some m -> exists k, In m (matches fl r (skipn k text)).
Proof.
  unfold re_search. destruct (search_from fl r text 0) as [[p m']|] eqn:E;
    [|discriminate].
  simpl. intros H. inversion H; subst.
  apply search_from_some in E. destruct E as [k [_ [Hm _]]].
  exists k. unfold match_at in Hm.
  destruct (matches fl r (skipn k text)); simpl in Hm; [discriminate|].
  inversion Hm. now left.
Qed.

(** The expression of a single-value field never raises: group 1 takes
    part in every match of its pattern. *)
Lemma value_of_ok f text m :
  re_search (rule_flags (field_rule f)) (pattern (field_rule f)) text = Some m ->
  exists v, value_of (field_rule f) m = Ok v.
Proof.
  intros H. apply re_search_in in H. destruct H as [k H].
  apply matches_always_sets with (k := 1%nat) in H; [|destruct f; reflexivity].
  destruct H as [g Hg].
  destruct f; simpl; unfold group1_strip; rewrite Hg; simpl; eauto.
Qed.

Lemma run_rules_ok text : forall fs d,
  exists d', run_rules (map field_rule fs) text d = Ok d'.
Proof.
  induction fs as [|f fs IH]; intros d; simpl; [eauto|].
  unfold store_if.
  destruct (re_search _ _ text) as [m|] eqn:E; [|apply IH].
  destruct (value_of_ok f text m E) as [v Hv]. rewrite Hv. simpl. apply IH.
Qed.

Lemma floatnumber_raises neg s e : floatnumber neg s = Raise e -> e = ValueError.
Proof.
  unfold floatnumber.
  destruct (digitpart s) as [ip s1].
  destruct (match s1 with 46 :: s1' => digitpart s1' | _ => ([], s1) end) as [fp s2].
  destruct (exponent s2) as [[x [|c r]]|]; destruct ip; destruct fp;
    intros H; inversion H; reflexivity.
Qed.

(** [float] raises nothing but [ValueError]. *)
Lemma float_raises s e : float s = Raise e -> e = ValueError.
Proof.
  unfold float.
  destruct (sign_of (strip_with c_isspace (map to_ascii s))) as [neg body].
  destruct (str_eqb _ _ || str_eqb _ _); [discriminate|].
  destruct (str_eqb _ _); [discriminate|].
  apply floatnumber_raises.
Qed.

Lemma mapM_raises {A B} (f : A -> result B) e : forall l,
  mapM f l = Raise e -> exists a, In a l /\ f a = Raise e.
Proof.
  induction l as [|a l IH]; simpl; [discriminate|].
  destruct (f a) as [b|e'] eqn:E; simpl.
  - destruct (mapM f l) as [bs|e'']; simpl; [discriminate|].
    intros H. inversion H; subst.
    destruct (IH eq_refl) as [a' [Hin Ha]]. eauto.
  - intros H. inversion H; subst. eauto.
Qed.

Lemma standard_well_raises t e : standard_well t = Raise e -> e = ValueError.
Proof.
  destruct t as [[[[well conc] val] red] date]. unfold standard_well.
  destruct (float conc) eqn:E1; simpl;
    [|intros H; inversion H; subst; eapply float_raises; eauto].
  destruct (float (remove_commas val)) eqn:E2; simpl;
    [|intros H; inversion H; subst; eapply float_raises; eauto].
  destruct (float (remove_commas red)) eqn:E3; simpl;
    [discriminate|intros H; inversion H; subst; eapply float_raises; eauto].
Qed.

Lemma if_nonempty_float_raises x e :
  if_nonempty x (fun x => float (remove_commas x)) = Raise e -> e = ValueError.
Proof.
  unfold if_nonempty. destruct x as [|c x]; [discriminate|].
  destruct (float (remove_commas (c :: x))) eqn:E; simpl;
    [discriminate|intros H; inversion H; subst; eapply float_raises; eauto].
Qed.

Lemma control_well_raises t e : control_well t = Raise e -> e = ValueError.
Proof.
  destruct t as [[[[well sample] val] red] date]. unfold control_well.
  destruct (if_nonempty val _) eqn:E1; simpl;
    [|intros H; inversion H; subst; eapply if_nonempty_float_raises; eauto].
  destruct (if_nonempty red _) eqn:E2; simpl;
    [|intros H; inversion H; subst; eapply if_nonempty_float_raises; eauto].
  destruct date; simpl; discriminate.
Qed.

Lemma fill_row_raises cols e : forall hs i row,
  fill_row i hs cols row = Raise e -> e = IndexError.
Proof.
  induction hs as [|h hs IH]; intros i row; simpl; [discriminate|].
  unfold index. destruct (nth_error cols i) as [c|]; simpl.
  - destruct (float (remove_commas c)); simpl; apply IH.
  - intros H. inversion H. reflexivity.
Qed.

Lemma extract_standards_table_raises text e :
  extract_standards_table text = Raise e -> e = IndexError.
Proof.
  unfold extract_standards_table.
  destruct (re_search DOTALL re_table text) as [m|] eqn:E; [|discriminate].
  apply re_search_in in E. destruct E as [k E].
  apply matches_always_sets with (k := 1%nat) in E; [|reflexivity].
  destruct E as [g ->]. simpl.
  destruct (split nl (strip g)) as [|l0 ls] eqn:Es;
    [now apply split_not_nil in Es|].
  simpl.
  destruct (mapM (table_row (cells_of l0)) (slice_2 (l0 :: ls))) as [rows|e'] eqn:Em;
    simpl; [discriminate|].
  intros H. inversion H; subst.
  apply mapM_raises in Em. destruct Em as [line [_ Hr]].
  unfold table_row in Hr. eapply fill_row_raises; eauto.
Qed.

(** X1.  The parser raises in two ways only: [ValueError] from a [float] of
    one of the well loops, and [IndexError] from a table row shorter than
    the header row. *)
Theorem parse_raises_only text e :
  parse_page_content_to_json text = Raise e ->
  e = ValueError \/ e = IndexError.
Proof.
  unfold parse_page_content_to_json.
  rewrite extract_document_info_rules, extract_instrument_settings_rules,
    extract_instrument_info_rules.
  unfold document_info_rules, instrument_settings_rules, instrument_info_rules.
  destruct (run_rules_ok text [Title; DocumentTitle; QcProtocol; Status; Date] [])
    as [di ->].
  destruct (run_rules_ok text [WavelengthCombination] []) as [iset ->].
  destruct (run_rules_ok text [Instrument; Rom; StartRead; MeanTemperature; Operator] [])
    as [ii ->].
  simpl bind.
  destruct (extract_standard_wells text) as [sw|e1] eqn:E1; simpl.
  2:{ intros H. inversion H; subst. left.
      apply mapM_raises in E1. destruct E1 as [t [_ Ht]].
      eapply standard_well_raises; eauto. }
  destruct (extract_control_wells text) as [cw|e2] eqn:E2; simpl.
  2:{ intros H. inversion H; subst. left.
      apply mapM_raises in E2. destruct E2 as [t [_ Ht]].
      eapply control_well_raises; eauto. }
  destruct (extract_standards_table text) as [st|e3] eqn:E3; simpl.
  2:{ intros H. inversion H; subst. right.
      eapply extract_standards_table_raises; eauto. }
  rewrite extract_key_calculation_rule.
  destruct (re_search no_flags re_key_calc text) as [m|] eqn:E4; [|discriminate].
  destruct (value_of_ok KeyCalculation text m E4) as [v ->]. discriminate.
Qed.

(** * Well identifiers *)

Lemma accepts_digit d : accepts no_flags digit d = true -> is_decimal d = true.
Proof.
  unfold accepts, digit. simpl. rewrite !orb_false_r. auto.
Qed.

(** The start of a match of the standard-well pattern. *)
Lemma re_stds_well s m :
  In m (matches no_flags re_stds s) ->
  exists d t, s = lit "- **A" ++ d :: lit "**: " ++ t
              /\ is_decimal d = true
              /\ group_or_empty m 1 = lit "A" ++ [d].
Proof.
  unfold re_stds, plus. intros H. inv_matches. inv_lits. split_mres. subst.
  unfold group_or_empty, group. cbn [groups lookup_group app Nat.eqb].
  match goal with Hd : accepts no_flags digit ?x = true |- _ =>
    exists x; eexists; split; [reflexivity|]; split;
      [now apply accepts_digit|reflexivity]
  end.
Qed.

(** The start of a match of the control pattern. *)
Lemma re_controls_well s m :
  In m (matches no_flags re_controls s) ->
  exists d t, s = lit "- **B" ++ d :: lit "**: " ++ t
              /\ is_decimal d = true
              /\ group_or_empty m 1 = lit "B" ++ [d].
Proof.
  unfold re_controls, plus, plus_lazy. intros H. inv_matches.
  apply in_matches_alt in H. destruct H as [H|H]; inv_matches; inv_lits;
    split_mres; subst;
    unfold group_or_empty, group; cbn [groups lookup_group app Nat.eqb];
    match goal with Hd : accepts no_flags digit ?x = true |- _ =>
      exists x; eexists; split; [reflexivity|]; split;
        [now apply accepts_digit|reflexivity]
    end.
Qed.

Lemma Forall2_in_r {A B} (R : A -> B -> Prop) l l' b :
  Forall2 R l l' -> In b l' -> exists a, In a l /\ R a b.
Proof.
  induction 1 as [|x y l l' HR _ IH]; simpl; [tauto|].
  intros [->|Hin].
  - exists x. auto.
  - destruct (IH Hin) as [a [Ha HRa]]. exists a. auto.
Qed.

Lemma standard_well_id t w :
  standard_well t = Ok w ->
  StandardWell.well w = fst (fst (fst (fst t))).
Proof.
  destruct t as [[[[well conc] val] red] date]. unfold standard_well.
  intros H. inv_bind H. inv_bind H. inv_bind H. inversion H. reflexivity.
Qed.

Lemma control_well_id t w :
  control_well t = Ok w ->
  ControlWell.well w = fst (fst (fst (fst t))).
Proof.
  destruct t as [[[[well sample] val] red] date]. unfold control_well.
  intros H. inv_bind H. inv_bind H. inv_bind H. inversion H. reflexivity.
Qed.

(** The standard wells of a record and the matches they come from. *)
Lemma standard_well_source text r w :
  parse_page_content_to_json text = Ok r ->
  In w (standard_curve_wells (sample_data r)) ->
  exists pos m, In m (matches no_flags re_stds (skipn pos text))
                /\ standard_well (tuple5 m) = Ok w.
Proof.
  intros Hp Hw. apply parse_ok in Hp.
  destruct Hp as [_ [_ [_ [Hsw _]]]].
  unfold extract_standard_wells, findall5 in Hsw.
  apply mapM_ok in Hsw. apply Forall2_map_l in Hsw.
  destruct (Forall2_in_r _ _ _ _ Hsw Hw) as [[pos m] [Hin Hm]].
  exists pos, m. split; [|exact Hm].
  apply in_finditer_matches; [reflexivity|exact Hin].
Qed.

(** The control wells of a record and the matches they come from. *)
Lemma control_well_source text r w :
  parse_page_content_to_json text = Ok r ->
  In w (control_and_sample_wells (sample_data r)) ->
  exists pos m, In m (matches no_flags re_controls (skipn pos text))
                /\ control_well (tuple5 m) = Ok w.
Proof.
  intros Hp Hw. apply parse_ok in Hp.
  destruct Hp as [_ [_ [_ [_ [Hcw _]]]]].
  unfold extract_control_wells, findall5 in Hcw.
  apply mapM_ok in Hcw. apply Forall2_map_l in Hcw.
  destruct (Forall2_in_r _ _ _ _ Hcw Hw) as [[pos m] [Hin Hm]].
  exists pos, m. split; [|exact Hm].
  apply in_finditer_matches; [reflexivity|exact Hin].
Qed.

(** X4.  In every record the parser returns, the identifier of every
    standard well is the letter A followed by one decimal digit, and that
    of every control or sample well is the letter B followed by one decimal
    digit. *)
Theorem well_ids text r :
  parse_page_content_to_json text = Ok r ->
  Forall (fun w => well_id "A" (StandardWell.well w))
         (standard_curve_wells (sample_data r))
  /\ Forall (fun w => well_id "B" (ControlWell.well w))
            (control_and_sample_wells (sample_data r)).
Proof.
  intros Hp. split; apply Forall_forall; intros w Hw.
  - destruct (standard_well_source text r w Hp Hw) as [pos [m [Hm Hwell]]].
    apply re_stds_well in Hm. destruct Hm as [d [t [_ [Hd Hg]]]].
    apply standard_well_id in Hwell. unfold tuple5 in Hwell. simpl in Hwell.
    exists d. split; [congruence|exact Hd].
  - destruct (control_well_source text r w Hp Hw) as [pos [m [Hm Hwell]]].
    apply re_controls_well in Hm. destruct Hm as [d [t [_ [Hd Hg]]]].
    apply control_well_id in Hwell. unfold tuple5 in Hwell. simpl in Hwell.
    exists d. split; [congruence|exact Hd].
Qed.

(** X5.  A well line whose identifier does not end right after its first
    digit, as for [A10] or [B12], is matched by neither well pattern at its
    start: such wells are left out of the record. *)
Theorem longer_well_id_no_match d c rest :
  c <> char_of "*" ->
  matches no_flags re_stds (well_line_start "A" d c rest) = []
  /\ matches no_flags re_controls (well_line_start "B" d c rest) = [].
Proof.
  intros Hc. unfold well_line_start. split.
  - destruct (matches no_flags re_stds _) as [|m ms] eqn:E; [reflexivity|exfalso].
    assert (Hin : In m (matches no_flags re_stds
                          (lit "- **" ++ lit "A" ++ d :: c :: rest)))
      by (rewrite E; now left).
    apply re_stds_well in Hin. destruct Hin as [d' [t [Hs _]]].
    cbn [app lit] in Hs. inversion Hs as [[Hd' Hc' Hrest]]. apply Hc. exact Hc'.
  - destruct (matches no_flags re_controls _) as [|m ms] eqn:E; [reflexivity|exfalso].
    assert (Hin : In m (matches no_flags re_controls
                          (lit "- **" ++ lit "B" ++ d :: c :: rest)))
      by (rewrite E; now left).
    apply re_controls_well in Hin. destruct Hin as [d' [t [Hs _]]].
    cbn [app lit] in Hs. inversion Hs as [[Hd' Hc' Hrest]]. apply Hc. exact Hc'.
Qed.

Lemma if_nonempty_some {A} c x (f : str -> result A) o :
  if_nonempty (c :: x) f = Ok o -> exists a, o = Some a.
Proof.
  unfold if_nonempty. intros H. inv_bind H. inversion H. eauto.
Qed.

(** X6.  In every record the parser returns, each control or sample well
    has its fluorescence value, its reduced value and its date all three,
    the date not empty, or none of the three. *)
Theorem control_values_all_or_none text r :
  parse_page_content_to_json text = Ok r ->
  Forall all_or_none (control_and_sample_wells (sample_data r)).
Proof.
  intros Hp. apply Forall_forall. intros w Hw.
  destruct (control_well_source text r w Hp Hw) as [pos [m [Hm Hwell]]].
  apply re_controls_groups in Hm.
  destruct Hm as [well [sample [H1 [H2 [[H3 [H4 H5]]|[v [rd [d [H3 [H4 [H5 [Hv [Hr Hd]]]]]]]]]]]]];
    unfold tuple5, group_or_empty in Hwell; rewrite H1, H2, H3, H4, H5 in Hwell;
    unfold control_well in Hwell.
  - simpl in Hwell. inversion Hwell. left. simpl. auto.
  - destruct v as [|v0 v]; [congruence|]. destruct rd as [|r0 rd]; [congruence|].
    destruct d as [|d0 d]; [congruence|].
    apply bind_ok in Hwell. destruct Hwell as [ov [Hov Hwell]].
    apply bind_ok in Hwell. destruct Hwell as [ord [Hord Hwell]].
    apply if_nonempty_some in Hov. apply if_nonempty_some in Hord.
    destruct Hov as [fv ->]. destruct Hord as [frd ->].
    simpl in Hwell. inversion Hwell. right. simpl.
    do 3 eexists. repeat split; discriminate.
Qed.

(** * When the parser returns *)

Lemma mapM_total {A B} (f : A -> result B) : forall l,
  Forall (fun a => exists b, f a = Ok b) l <-> exists l', mapM f l = Ok l'.
Proof.
  induction l as [|a l IH]; simpl; split; intros H.
  - eauto.
  - constructor.
  - inversion H as [|? ? [b Hb] Hl]; subst. apply IH in Hl.
    destruct Hl as [l' Hl']. rewrite Hb, Hl'. simpl. eauto.
  - destruct H as [l' H]. inv_bind H. inv_bind H.
    constructor; [eauto|]. apply IH. eauto.
Qed.

Lemma standard_well_ok_iff t :
  (exists w, standard_well t = Ok w) <-> std_tuple_converts t.
Proof.
  destruct t as [[[[well conc] val] red] date].
  unfold standard_well, std_tuple_converts, is_number. split.
  - intros [w H]. inv_bind H. inv_bind H. inv_bind H. repeat split; eauto.
  - intros [[c Hc] [[v Hv] [rd Hr]]]. rewrite Hc, Hv, Hr. simpl. eauto.
Qed.

Lemma if_nonempty_ok_iff {A} x (f : str -> result A) :
  (exists o, if_nonempty x f = Ok o) <-> (x = [] \/ exists a, f x = Ok a).
Proof.
  unfold if_nonempty. destruct x as [|c x]; split.
  - auto.
  - eauto.
  - intros [o H]. inv_bind H. eauto.
  - intros [H|[a Ha]]; [discriminate|]. rewrite Ha. simpl. eauto.
Qed.

Lemma control_well_ok_iff t :
  (exists w, control_well t = Ok w) <-> ctl_tuple_converts t.
Proof.
  destruct t as [[[[well sample] val] red] date].
  unfold control_well, ctl_tuple_converts, is_number. split.
  - intros [w H]. inv_bind H. inv_bind H. split.
    + apply (if_nonempty_ok_iff val (fun x => float (remove_commas x))). eauto.
    + apply (if_nonempty_ok_iff red (fun x => float (remove_commas x))). eauto.
  - intros [Hv Hr].
    apply (if_nonempty_ok_iff val (fun x => float (remove_commas x))) in Hv.
    apply (if_nonempty_ok_iff red (fun x => float (remove_commas x))) in Hr.
    destruct Hv as [v ->]. destruct Hr as [rd ->]. simpl.
    destruct date; simpl; eauto.
Qed.

(** A row is built exactly when the line has a cell for every header. *)
Lemma table_row_ok_iff hs line :
  (exists row, table_row hs line = Ok row)
  <-> (List.length hs <= List.length (cells_of line))%nat.
Proof.
  split.
  - intros [row H].
    destruct (Nat.le_gt_cases (List.length hs) (List.length (cells_of line)))
      as [Hle|Hgt]; [exact Hle|].
    unfold table_row in H. rewrite fill_row_short in H by (simpl; lia).
    discriminate.
  - intros H. rewrite table_row_zip by exact H. eauto.
Qed.

Lemma group1_of_table text m :
  re_search DOTALL re_table text = Some m -> exists g, group m 1 = Some g.
Proof.
  intros H. apply re_search_in in H. destruct H as [k H].
  now apply matches_always_sets with (k := 1%nat) in H.
Qed.

Lemma extract_standards_table_ok_iff text :
  (exists st, extract_standards_table text = Ok st) <-> table_rows_full text.
Proof.
  unfold table_rows_full. split.
  - intros [st H] m g Hs Hg. unfold extract_standards_table in H.
    rewrite Hs, Hg in H. simpl in H.
    destruct (split nl (strip g)) as [|l0 ls] eqn:E;
      [now apply split_not_nil in E|].
    simpl in H. inv_bind H. inversion H; subst. simpl.
    apply mapM_ok in H0. clear H E.
    induction H0 as [|line row lines rows Hrow _ IH]; constructor; auto.
    apply table_row_ok_iff. eauto.
  - intros H.
    destruct (re_search DOTALL re_table text) as [m|] eqn:Hs.
    + destruct (group1_of_table text m Hs) as [g Hg].
      rewrite (table_of_full_rows text m g Hs Hg (H m g eq_refl Hg)). eauto.
    + unfold extract_standards_table. rewrite Hs. eauto.
Qed.

(** X2.  The parser returns a record exactly when every number of every
    standard-well match is accepted by [float] (the concentration as it
    is, the two values without their commas), every value and reduced value
    of every control match is, and every data line of the table found has a
    cell for every header.  Nothing else in the text can make it raise. *)
Theorem parse_returns_iff text :
  (exists r, parse_page_content_to_json text = Ok r)
  <-> Forall std_tuple_converts (findall5 no_flags re_stds text)
      /\ Forall ctl_tuple_converts (findall5 no_flags re_controls text)
      /\ table_rows_full text.
Proof.
  split.
  - intros [r H]. apply parse_ok in H.
    destruct H as [_ [_ [_ [Hsw [Hcw [Hst _]]]]]].
    split; [|split].
    + unfold extract_standard_wells in Hsw.
      assert (Hs : exists l', mapM standard_well (findall5 no_flags re_stds text) = Ok l')
        by eauto.
      apply mapM_total in Hs. eapply Forall_impl; [|exact Hs].
      intros t. apply standard_well_ok_iff.
    + unfold extract_control_wells in Hcw.
      assert (Hc : exists l', mapM control_well (findall5 no_flags re_controls text) = Ok l')
        by eauto.
      apply mapM_total in Hc. eapply Forall_impl; [|exact Hc].
      intros t. apply control_well_ok_iff.
    + apply extract_standards_table_ok_iff. eauto.
  - intros [Hs [Hc Ht]].
    unfold parse_page_content_to_json.
    rewrite extract_document_info_rules, extract_instrument_settings_rules,
      extract_instrument_info_rules.
    unfold document_info_rules, instrument_settings_rules, instrument_info_rules.
    destruct (run_rules_ok text [Title; DocumentTitle; QcProtocol; Status; Date] [])
      as [di ->].
    destruct (run_rules_ok text [WavelengthCombination] []) as [iset ->].
    destruct (run_rules_ok text [Instrument; Rom; StartRead; MeanTemperature; Operator] [])
      as [ii ->].
    simpl bind.
    assert (Hsw : exists sw, extract_standard_wells text = Ok sw).
    { apply mapM_total. eapply Forall_impl; [|exact Hs].
      intros t. apply standard_well_ok_iff. }
    assert (Hcw : exists cw, extract_control_wells text = Ok cw).
    { apply mapM_total. eapply Forall_impl; [|exact Hc].
      intros t. apply control_well_ok_iff. }
    apply extract_standards_table_ok_iff in Ht.
    destruct Hsw as [sw ->]. destruct Hcw as [cw ->]. destruct Ht as [st ->].
    simpl bind. rewrite extract_key_calculation_rule.
    destruct (re_search no_flags re_key_calc text) as [m|] eqn:E4; [|simpl; eauto].
    destruct (value_of_ok KeyCalculation text m E4) as [v ->]. simpl. eauto.
Qed.

(** * Fields present and absent *)

Lemma value_of_some f text m v :
  re_search (rule_flags (field_rule f)) (pattern (field_rule f)) text = Some m ->
  value_of (field_rule f) m = Ok v -> exists s, v = Some s.
Proof.
  intros H Hv. apply re_search_in in H. destruct H as [k H].
  apply matches_always_sets with (k := 1%nat) in H; [|destruct f; reflexivity].
  destruct H as [g Hg].
  destruct f; simpl in Hv; unfold group1_strip in Hv; rewrite Hg in Hv;
    simpl in Hv; inversion Hv; eauto.
Qed.

(** What the record holds for a field when the search finds nothing. *)
Lemma absent_of_search f text r :
  parse_page_content_to_json text = Ok r ->
  re_search (rule_flags (field_rule f)) (pattern (field_rule f)) text = None ->
  absent f r.
Proof.
  intros Hp Hs. apply parse_ok in Hp.
  destruct Hp as [Hdi [His [Hii [_ [_ [_ [Hkc _]]]]]]].
  rewrite extract_document_info_rules in Hdi.
  rewrite extract_instrument_settings_rules in His.
  rewrite extract_instrument_info_rules in Hii.
  rewrite extract_key_calculation_rule in Hkc.
  pose proof (run_rules_spec text _ _ _ document_info_keys Hdi (field_rule f)) as Sdi.
  pose proof (run_rules_spec text _ _ _ instrument_settings_keys His (field_rule f)) as Sis.
  pose proof (run_rules_spec text _ _ _ instrument_info_keys Hii (field_rule f)) as Sii.
  rewrite Hs in Sdi, Sis, Sii.
  destruct f; unfold absent, stored;
    try (apply Sdi; in_list); try (apply Sis; in_list); try (apply Sii; in_list).
  simpl in Hs. rewrite Hs in Hkc. now inversion Hkc.
Qed.

(** X3.  A single-value field is populated exactly when its pattern matches
    somewhere in the text: if the pattern matches nowhere the field is absent
    from the record, and if it matches somewhere the record holds a string
    for it, never [None]. *)
Theorem field_present_iff_matched f text r :
  parse_page_content_to_json text = Ok r ->
  (matches_nowhere (rule_flags (field_rule f)) (pattern (field_rule f)) text ->
   absent f r)
  /\ (~ matches_nowhere (rule_flags (field_rule f)) (pattern (field_rule f)) text ->
      present f r)
  /\ ~ (absent f r /\ present f r).
Proof.
  intros Hp. split; [|split].
  - intros Hn. apply absent_of_search with (text := text); [exact Hp|].
    now apply re_search_none.
  - intros Hn.
    destruct (re_search (rule_flags (field_rule f)) (pattern (field_rule f)) text)
      as [m|] eqn:E.
    + destruct (stored_of_search f text r m Hp E) as [v [Hv Hst]].
      destruct (value_of_some f text m v E Hv) as [s ->].
      exists s. exact Hst.
    + apply re_search_none in E. contradiction.
  - intros [Ha [s Hs]]. destruct f; unfold absent in Ha; simpl in *; congruence.
Qed.

(** * The keys of a row *)

Lemma dict_set_keys {V} (k0 : str) (v : V) : forall d k,
  In k (map fst (dict_set k0 v d)) <-> k = k0 \/ In k (map fst d).
Proof.
  induction d as [|[k' v'] d IH]; intros k; simpl.
  - intuition.
  - destruct (str_eqb k' k0) eqn:E; simpl.
    + apply str_eqb_eq in E. subst. intuition.
    + rewrite IH. intuition.
Qed.

Lemma dict_set_nodup {V} (k0 : str) (v : V) : forall d,
  NoDup (map fst d) -> NoDup (map fst (dict_set k0 v d)).
Proof.
  induction d as [|[k' v'] d IH]; simpl; intros H.
  - constructor; [tauto|constructor].
  - inversion H as [|? ? Hk Hd]; subst.
    destruct (str_eqb k' k0) eqn:E; simpl.
    + constructor; assumption.
    + constructor; [|auto]. rewrite dict_set_keys. intros [->|Hin]; [|tauto].
      rewrite str_eqb_refl in E. discriminate.
Qed.

Section Rows.

Let step (row : dict cell) (hc : str * str) : dict cell :=
  dict_set (fst hc) (cell_value (snd hc)) row.

Lemma fold_keys : forall l d k,
  In k (map fst (fold_left step l d)) <-> In k (map fst l) \/ In k (map fst d).
Proof.
  induction l as [|[h c] l IH]; intros d k; simpl.
  - tauto.
  - rewrite IH. unfold step. simpl. rewrite dict_set_keys. intuition.
Qed.

Lemma fold_nodup : forall l d,
  NoDup (map fst d) -> NoDup (map fst (fold_left step l d)).
Proof.
  induction l as [|[h c] l IH]; intros d H; simpl; [exact H|].
  apply IH. unfold step. simpl. now apply dict_set_nodup.
Qed.

Lemma fold_frame h : forall l d,
  ~ In h (map fst l) -> dict_get h (fold_left step l d) = dict_get h d.
Proof.
  induction l as [|[k c] l IH]; intros d H; simpl in *; [reflexivity|].
  rewrite IH by tauto. unfold step. simpl.
  apply dict_get_set_other. intros E. apply H. now left.
Qed.

Lemma combine_keys : forall (hs cs : list str),
  (List.length hs <= List.length cs)%nat -> map fst (combine hs cs) = hs.
Proof.
  induction hs as [|h hs IH]; intros cs H; simpl; [reflexivity|].
  destruct cs as [|c cs]; simpl in *; [lia|]. f_equal. apply IH. lia.
Qed.

(** The value a row holds for a header: the cell of the last column of that
    name. *)
Lemma fold_last h c : forall hs cs i d,
  (List.length hs <= List.length cs)%nat ->
  nth_error hs i = Some h -> nth_error cs i = Some c ->
  (forall j, (i < j)%nat -> nth_error hs j <> Some h) ->
  dict_get h (fold_left step (combine hs cs) d) = Some (cell_value c).
Proof.
  induction hs as [|h0 hs IH]; intros cs i d Hlen Hh Hc Hlast.
  - destruct i; discriminate.
  - destruct cs as [|c0 cs]; simpl in Hlen; [lia|].
    destruct i as [|i]; simpl in Hh, Hc.
    + inversion Hh; inversion Hc; subst. simpl.
      rewrite fold_frame.
      * unfold step. simpl. apply dict_get_set_same.
      * rewrite combine_keys by lia. intros Hin.
        apply In_nth_error in Hin. destruct Hin as [j Hj].
        apply (Hlast (S j)); [lia|exact Hj].
    + simpl. apply IH with (i := i); auto; try lia.
      intros j Hj. apply (Hlast (S j)). lia.
Qed.

End Rows.

(** X7.  The keys of a row of the standards table are the header names,
    each once: two columns with the same header give one key, and the row
    holds for a header the value of the cell in the last column of that
    name. *)
Theorem row_keys_last_column_wins hs line row :
  table_row hs line = Ok row ->
  NoDup (map fst row)
  /\ (forall h, In h (map fst row) <-> In h hs)
  /\ (forall i h c,
        nth_error hs i = Some h ->
        nth_error (cells_of line) i = Some c ->
        (forall j, (i < j)%nat -> nth_error hs j <> Some h) ->
        dict_get h row = Some (cell_value c)).
Proof.
  intros H.
  assert (Hlen : (List.length hs <= List.length (cells_of line))%nat)
    by (apply table_row_ok_iff; eauto).
  rewrite table_row_zip in H by exact Hlen. inversion H; subst. clear H.
  unfold zip_row. split; [|split].
  - apply fold_nodup. constructor.
  - intros h. rewrite fold_keys. rewrite combine_keys by exact Hlen.
    simpl. tauto.
  - intros i h c Hh Hc Hlast. now apply fold_last with (i := i).
Qed.

(** * Matching within a line *)

Lemma match_lit_line fl lt t :
  forallb (fun a => negb (char_matches fl a nl)) lt = true ->
  forall l,
    match_lit fl lt (l ++ nl :: t)
    = match match_lit fl lt l with
      | Some (m, r) => Some (m, r ++ nl :: t)
      | None => None
      end.
Proof.
  induction lt as [|a lt IH]; intros W l; [reflexivity|].
  simpl in W. apply andb_prop in W. destruct W as [Wa W].
  destruct l as [|c l]; simpl.
  - apply negb_true_iff in Wa. rewrite Wa. reflexivity.
  - destruct (char_matches fl a c); [|reflexivity].
    rewrite IH by exact W.
    destruct (match_lit fl lt l) as [[m r]|]; reflexivity.
Qed.

Lemma rep_splits_line p t : p nl = false ->
  forall l lo hi,
    rep_splits p lo hi (l ++ nl :: t)
    = map (fun ab => (fst ab, snd ab ++ nl :: t)) (rep_splits p lo hi l).
Proof.
  intros Hp. induction l as [|c l IH]; intros lo hi; simpl.
  - rewrite Hp. simpl. destruct lo; reflexivity.
  - rewrite map_app. f_equal; [destruct lo; reflexivity|].
    destruct (p c && allows_one hi); [|reflexivity].
    rewrite IH, !map_map. reflexivity.
Qed.

Lemma flat_map_ext_in {A B} (f g : A -> list B) : forall l,
  (forall a, In a l -> f a = g a) -> flat_map f l = flat_map g l.
Proof.
  induction l as [|a l IH]; intros H; simpl; [reflexivity|].
  rewrite (H a (or_introl eq_refl)), IH; [reflexivity|].
  intros b Hb. apply H. now right.
Qed.

Lemma map_flat_map {A B C} (g : B -> C) (f : A -> list B) : forall l,
  map g (flat_map f l) = flat_map (fun a => map g (f a)) l.
Proof.
  induction l as [|a l IH]; simpl; [reflexivity|].
  now rewrite map_app, IH.
Qed.

Lemma flat_map_map {A B C} (f : B -> list C) (g : A -> B) : forall l,
  flat_map f (map g l) = flat_map (fun a => f (g a)) l.
Proof.
  induction l as [|a l IH]; simpl; [reflexivity|]. now rewrite IH.
Qed.

(** A pattern that stays within a line matches at the head of a line as it
    does at the head of the text made of that line alone. *)
Lemma matches_line fl r : within_line fl r = true ->
  forall l t, ~ In nl l ->
    matches fl r (l ++ nl :: t) = map (extend (nl :: t)) (matches fl r l).
Proof.
  induction r as [lt|cs|cs lo hi g|r1 IH1 r2 IH2|r1 IH1 r2 IH2|k r IH];
    simpl within_line; intros W l t Hl.
  - simpl. rewrite match_lit_line by exact W.
    destruct (match_lit fl lt l) as [[m r]|]; reflexivity.
  - apply negb_true_iff in W. destruct l as [|c l]; simpl.
    + rewrite W. reflexivity.
    + destruct (accepts fl cs c); reflexivity.
  - apply negb_true_iff in W. simpl. rewrite rep_splits_line by exact W.
    destruct g; rewrite ?map_rev, !map_map; reflexivity.
  - apply andb_prop in W. destruct W as [W1 W2].
    simpl. rewrite IH1 by assumption. rewrite flat_map_map, map_flat_map.
    apply flat_map_ext_in. intros m1 Hm1.
    assert (Hr : ~ In nl (rest m1)).
    { intros Hin. apply Hl. rewrite (matches_split fl r1 l m1 Hm1).
      apply in_or_app. now right. }
    simpl. rewrite IH2 by assumption. rewrite !map_map. reflexivity.
  - apply andb_prop in W. destruct W as [W1 W2].
    simpl. rewrite IH1, IH2 by assumption. now rewrite map_app.
  - simpl. rewrite IH by assumption. rewrite !map_map. reflexivity.
Qed.

Lemma first_line_split : forall s,
  ~ In nl s \/ exists l y, s = l ++ nl :: y /\ ~ In nl l.
Proof.
  induction s as [|c s IH].
  - left. simpl. tauto.
  - destruct (N.eq_dec c nl) as [->|Hc].
    + right. exists [], s. simpl. tauto.
    + destruct IH as [IH|[l [y [-> Hl]]]].
      * left. simpl. intros [E|Hin]; [congruence|tauto].
      * right. exists (c :: l), y. split; [reflexivity|].
        simpl. intros [E|Hin]; [congruence|tauto].
Qed.

Lemma core_extend t m : core (extend t m) = core m.
Proof. reflexivity. Qed.

(** What follows the first line of a text changes nothing to the matches at
    its head but the text after them. *)
Lemma matches_core_app_nl fl r s b : within_line fl r = true ->
  map core (matches fl r (s ++ nl :: b)) = map core (matches fl r s).
Proof.
  intros W. destruct (first_line_split s) as [Hs|[l [y [-> Hl]]]].
  - rewrite matches_line by assumption. rewrite map_map. reflexivity.
  - rewrite <- app_assoc. simpl.
    rewrite !matches_line by assumption. rewrite !map_map. reflexivity.
Qed.

(** * Scanning and searching line by line *)

Section Lines.

Variable fl : flags.
Variable r : regex.
Hypothesis NE : never_empty r = true.
Hypothesis WL : within_line fl r = true.

Lemma match_at_nil : match_at fl r [] = None.
Proof.
  destruct (match_at fl r []) as [m|] eqn:E; [exfalso|reflexivity].
  apply match_at_in in E.
  pose proof (matches_never_empty fl r NE _ _ E) as Hne.
  apply matches_split in E. symmetry in E. apply app_eq_nil in E. tauto.
Qed.

Lemma match_at_nl s : match_at fl r (nl :: s) = None.
Proof.
  destruct (match_at fl r (nl :: s)) as [m|] eqn:E; [exfalso|reflexivity].
  apply (match_at_line fl r WL) in E as Hl. simpl in Hl.
  apply (match_at_nonempty fl r NE) in E. unfold is_empty in E.
  destruct (matched m); [discriminate|simpl in Hl; lia].
Qed.

(** The first match at the head of [s ++ nl :: b] and at the head of [s]. *)
Lemma match_at_core_app_nl s b :
  option_map core (match_at fl r (s ++ nl :: b)) = option_map core (match_at fl r s).
Proof.
  pose proof (matches_core_app_nl fl r s b WL) as H. unfold match_at.
  destruct (matches fl r (s ++ nl :: b)); destruct (matches fl r s);
    simpl in *; congruence.
Qed.

Lemma finditer_pos_irrelevant : forall s pos pos' skip,
  map snd (finditer_from fl r s pos skip) = map snd (finditer_from fl r s pos' skip).
Proof.
  induction s as [|c s IH]; intros pos pos' skip.
  - destruct skip; [|reflexivity].
    rewrite (finditer_from_step fl r NE [] pos), (finditer_from_step fl r NE [] pos'),
      match_at_nil. reflexivity.
  - destruct skip as [|k]; [|simpl; apply IH].
    rewrite (finditer_from_step fl r NE (c :: s) pos),
      (finditer_from_step fl r NE (c :: s) pos').
    destruct (match_at fl r (c :: s)); simpl; [f_equal|]; apply IH.
Qed.

(** The scan of a text that has a line feed: the results before the line
    feed, then those after it. *)
Lemma finditer_core_app_nl b pos2 : forall a pos skip,
  (skip <= line_length (a ++ nl :: b))%nat ->
  map (fun pm => core (snd pm)) (finditer_from fl r (a ++ nl :: b) pos skip)
  = map (fun pm => core (snd pm)) (finditer_from fl r a pos skip)
    ++ map (fun pm => core (snd pm)) (finditer_from fl r b pos2 0).
Proof.
  induction a as [|c a IH]; intros pos skip Hskip.
  - simpl in Hskip. assert (skip = O) by lia. subst skip. simpl app at 1.
    rewrite (finditer_from_step fl r NE (nl :: b) pos),
      (finditer_from_step fl r NE [] pos), match_at_nl, match_at_nil. simpl.
    rewrite <- !map_map with (f := snd) (g := core).
    now rewrite (finditer_pos_irrelevant b (S pos) pos2).
  - change ((c :: a) ++ nl :: b) with (c :: a ++ nl :: b) in *.
    destruct skip as [|k].
    + rewrite (finditer_from_step fl r NE (c :: a ++ nl :: b) pos),
        (finditer_from_step fl r NE (c :: a) pos).
      pose proof (match_at_core_app_nl (c :: a) b) as Hc.
      change ((c :: a) ++ nl :: b) with (c :: a ++ nl :: b) in Hc.
      destruct (match_at fl r (c :: a ++ nl :: b)) as [m|] eqn:E;
        destruct (match_at fl r (c :: a)) as [m'|] eqn:E';
        simpl in Hc; try discriminate.
      * inversion Hc as [[Hm Hg]]. simpl. unfold core at 1 3. rewrite Hm, Hg.
        f_equal. apply IH.
        apply (match_at_line fl r WL) in E. rewrite Hm in E. simpl in E.
        apply (match_at_nonempty fl r NE) in E'. unfold is_empty in E'.
        destruct (c =? nl); destruct (matched m'); try discriminate;
          simpl in *; lia.
      * apply IH. lia.
    + simpl. apply IH. simpl in Hskip. destruct (c =? nl); lia.
Qed.

Lemma tuple5_core m m' : core m = core m' -> tuple5 m = tuple5 m'.
Proof.
  unfold core, tuple5, group_or_empty, group. intros H. inversion H as [[Hm Hg]].
  now rewrite Hg.
Qed.

Lemma findall5_of_cores s pos :
  findall5 fl r s
  = map (fun c => tuple5 {| matched := fst c; rest := []; groups := snd c |})
        (map (fun pm => core (snd pm)) (finditer_from fl r s pos 0)).
Proof.
  unfold findall5, finditer. rewrite map_map.
  rewrite <- map_map with (f := snd) (g := tuple5).
  rewrite (finditer_pos_irrelevant s 0 pos), map_map. reflexivity.
Qed.

(** [re.findall] over a text that has a line feed: what it finds before the
    line feed, then what it finds after it. *)
Lemma findall5_app_nl a b :
  findall5 fl r (a ++ nl :: b) = findall5 fl r a ++ findall5 fl r b.
Proof.
  rewrite !(findall5_of_cores _ O).
  rewrite (finditer_core_app_nl b O a O O) by lia.
  now rewrite map_app.
Qed.

Lemma findall5_nil : findall5 fl r [] = [].
Proof.
  unfold findall5, finditer. rewrite (finditer_from_step fl r NE), match_at_nil.
  reflexivity.
Qed.

Lemma search_pos_irrelevant : forall s pos pos',
  option_map snd (search_from fl r s pos) = option_map snd (search_from fl r s pos').
Proof.
  induction s as [|c s IH]; intros pos pos'; simpl.
  - destruct (match_at fl r []); reflexivity.
  - destruct (match_at fl r (c :: s)); [reflexivity|apply IH].
Qed.

Lemma search_core_app_nl b : forall a pos,
  option_map (fun pm => core (snd pm)) (search_from fl r (a ++ nl :: b) pos)
  = match option_map (fun pm => core (snd pm)) (search_from fl r a pos) with
    | Some c => Some c
    | None => option_map core (re_search fl r b)
    end.
Proof.
  induction a as [|c a IH]; intros pos.
  - simpl. rewrite match_at_nl, match_at_nil. unfold re_search.
    pose proof (search_pos_irrelevant b (S pos) 0) as H.
    destruct (search_from fl r b (S pos)) as [[p m]|];
      destruct (search_from fl r b 0) as [[p' m']|]; simpl in *; congruence.
  - pose proof (match_at_core_app_nl (c :: a) b) as Hc.
    change ((c :: a) ++ nl :: b) with (c :: a ++ nl :: b) in *.
    simpl search_from.
    destruct (match_at fl r (c :: a ++ nl :: b)) as [m|] eqn:E;
      destruct (match_at fl r (c :: a)) as [m'|] eqn:E';
      simpl in Hc; try discriminate.
    + simpl. congruence.
    + apply IH.
Qed.

(** [re.search] over a text that has a line feed: the match before the line
    feed if there is one, else the match after it. *)
Lemma re_search_app_nl a b :
  option_map core (re_search fl r (a ++ nl :: b))
  = match option_map core (re_search fl r a) with
    | Some c => Some c
    | None => option_map core (re_search fl r b)
    end.
Proof.
  pose proof (search_core_app_nl b a O) as H. unfold re_search at 1 2.
  destruct (search_from fl r (a ++ nl :: b) 0) as [[p m]|];
    destruct (search_from fl r a 0) as [[p' m']|]; simpl in *; exact H.
Qed.

Lemma re_search_nil : re_search fl r [] = None.
Proof. unfold re_search. simpl. now rewrite match_at_nil. Qed.

End Lines.

(** * The pages of a document *)

Lemma append_pages_text : forall contents page_num full_content,
  append_pages page_num contents full_content
  = full_content ++ pages_text page_num contents.
Proof.
  induction contents as [|p ps IH]; intros n acc; cbn [append_pages pages_text].
  - now rewrite app_nil_r.
  - rewrite IH. rewrite <- !app_assoc. reflexivity.
Qed.

Lemma full_content_pages contents :
  full_content_of contents = pages_text 0 contents.
Proof. unfold full_content_of. now rewrite append_pages_text. Qed.

Lemma pages_text_app : forall ps qs n,
  pages_text n (ps ++ qs) = pages_text n ps ++ pages_text (List.length ps + n) qs.
Proof.
  induction ps as [|p ps IH]; intros qs n; [reflexivity|].
  cbn [pages_text app List.length]. rewrite IH. rewrite <- !app_assoc.
  replace (List.length ps + S n)%nat with (S (List.length ps + n)) by lia.
  reflexivity.
Qed.

(** The text of the pages that follow a page is empty or starts with a line
    feed. *)
Lemma pages_text_head n ps :
  pages_text n ps = [] \/ exists R, pages_text n ps = nl :: R.
Proof.
  destruct ps as [|p ps]; [now left|].
  right. eexists. cbn [pages_text]. unfold page_marker. reflexivity.
Qed.

Lemma chars_of_uint_alphabet u :
  Forall (fun x => in_alphabet x = true) (chars_of_uint u).
Proof. induction u; simpl; constructor; auto. Qed.

Lemma marker_line_alphabet n :
  Forall (fun x => in_alphabet x = true) (marker_line n).
Proof.
  unfold marker_line. apply Forall_app. split; [|apply Forall_app; split].
  - apply Forall_forall. apply forallb_forall. reflexivity.
  - apply chars_of_uint_alphabet.
  - apply Forall_forall. apply forallb_forall. reflexivity.
Qed.

Lemma in_skipn {A} (x : A) : forall k l, In x (skipn k l) -> In x l.
Proof.
  induction k as [|k IH]; intros l H; [exact H|].
  destruct l as [|a l]; simpl in H; [destruct H|]. right. auto.
Qed.

(** A pattern whose first character is none of a marker line matches
    nowhere in a marker line. *)
Lemma marker_nowhere fl r n :
  inert_in_markers fl r = true -> matches_nowhere fl r (marker_line n).
Proof.
  intros W k.
  destruct r as [| | |[[|c0 l]| | | | |] r2| |]; try discriminate.
  cbn [inert_in_markers] in W. cbn [matches].
  destruct (skipn k (marker_line n)) as [|x s] eqn:E; [reflexivity|].
  assert (Hx : in_alphabet x = true).
  { pose proof (marker_line_alphabet n) as Ha. rewrite Forall_forall in Ha.
    apply Ha. apply in_skipn with (k := k). rewrite E. now left. }
  unfold in_alphabet in Hx. apply existsb_exists in Hx.
  destruct Hx as [y [Hy Hxy]]. apply N.eqb_eq in Hxy. subst y.
  rewrite forallb_forall in W. specialize (W x Hy).
  apply negb_true_iff in W. cbn [match_lit]. rewrite W. reflexivity.
Qed.

Lemma mapM_app {A B} (f : A -> result B) : forall l1 l2 out,
  mapM f (l1 ++ l2) = Ok out <->
  exists o1 o2, mapM f l1 = Ok o1 /\ mapM f l2 = Ok o2 /\ out = o1 ++ o2.
Proof.
  induction l1 as [|a l1 IH]; intros l2 out; simpl.
  - split.
    + intros H. exists [], out. auto.
    + intros [o1 [o2 [H1 [H2 ->]]]]. inversion H1. exact H2.
  - split.
    + intros H. inv_bind H. inv_bind H. inversion H; subst.
      apply IH in H1. destruct H1 as [o1 [o2 [H1 [H2 ->]]]].
      exists (a0 :: o1), o2. rewrite H0, H1. simpl. auto.
    + intros [o1 [o2 [H1 [H2 ->]]]]. inv_bind H1. inv_bind H1.
      inversion H1; subst. rewrite H.
      simpl. assert (Happ : mapM f (l1 ++ l2) = Ok (a1 ++ o2))
        by (apply IH; eauto).
      rewrite Happ. reflexivity.
Qed.

Lemma mapM_concat {A B} (f : A -> result B) : forall ls out,
  mapM f (List.concat ls) = Ok out ->
  exists outs, Forall2 (fun l o => mapM f l = Ok o) ls outs
               /\ out = List.concat outs.
Proof.
  induction ls as [|l ls IH]; intros out H; simpl in H.
  - inversion H. exists []. split; [constructor|reflexivity].
  - apply mapM_app in H. destruct H as [o1 [o2 [H1 [H2 ->]]]].
    destruct (IH _ H2) as [outs [HF ->]].
    exists (o1 :: outs). split; [constructor; assumption|reflexivity].
Qed.

Section Pages.

Variable fl : flags.
Variable r : regex.
Hypothesis NE : never_empty r = true.
Hypothesis WL : within_line fl r = true.
Hypothesis IM : inert_in_markers fl r = true.

Lemma findall5_nl_cons s : findall5 fl r (nl :: s) = findall5 fl r s.
Proof.
  change (nl :: s) with ([] ++ nl :: s).
  now rewrite (findall5_app_nl fl r NE WL), (findall5_nil fl r NE).
Qed.

Lemma findall5_marker n : findall5 fl r (marker_line n) = [].
Proof. apply findall5_nowhere. now apply marker_nowhere. Qed.

Lemma findall5_before_pages p n ps :
  findall5 fl r (p ++ pages_text n ps)
  = findall5 fl r p ++ findall5 fl r (pages_text n ps).
Proof.
  destruct (pages_text_head n ps) as [->|[R ->]].
  - now rewrite (findall5_nil fl r NE), !app_nil_r.
  - now rewrite (findall5_app_nl fl r NE WL), findall5_nl_cons.
Qed.

(** What [re.findall] finds in the text of a document: what it finds in
    each page, page after page. *)
Lemma findall5_pages : forall ps n,
  findall5 fl r (pages_text n ps) = List.concat (map (findall5 fl r) ps).
Proof.
  induction ps as [|p ps IH]; intros n; cbn [pages_text map List.concat].
  - apply (findall5_nil fl r NE).
  - unfold page_marker.
    change ((nl :: nl :: marker_line n ++ [nl]) ++ p ++ pages_text (S n) ps)
      with (nl :: nl :: (marker_line n ++ [nl]) ++ p ++ pages_text (S n) ps).
    rewrite !findall5_nl_cons. rewrite <- app_assoc.
    change ([nl] ++ p ++ pages_text (S n) ps)
      with (nl :: p ++ pages_text (S n) ps).
    rewrite (findall5_app_nl fl r NE WL), findall5_marker.
    cbn [app]. now rewrite findall5_before_pages, IH.
Qed.

Lemma re_search_nl_cons s :
  option_map core (re_search fl r (nl :: s)) = option_map core (re_search fl r s).
Proof.
  change (nl :: s) with ([] ++ nl :: s).
  now rewrite (re_search_app_nl fl r NE WL), (re_search_nil fl r NE).
Qed.

Lemma re_search_before_pages p n ps :
  option_map core (re_search fl r (p ++ pages_text n ps))
  = match option_map core (re_search fl r p) with
    | Some c => Some c
    | None => option_map core (re_search fl r (pages_text n ps))
    end.
Proof.
  destruct (pages_text_head n ps) as [->|[R ->]].
  - rewrite app_nil_r, (re_search_nil fl r NE). simpl.
    destruct (option_map core (re_search fl r p)); reflexivity.
  - now rewrite (re_search_app_nl fl r NE WL), re_search_nl_cons.
Qed.

(** What [re.search] finds in the text of a document: what it finds in the
    first page in which it finds something. *)
Lemma re_search_pages : forall ps n,
  option_map core (re_search fl r (pages_text n ps))
  = first_some (map (fun p => option_map core (re_search fl r p)) ps).
Proof.
  induction ps as [|p ps IH]; intros n; cbn [pages_text map first_some].
  - now rewrite (re_search_nil fl r NE).
  - unfold page_marker.
    change ((nl :: nl :: marker_line n ++ [nl]) ++ p ++ pages_text (S n) ps)
      with (nl :: nl :: (marker_line n ++ [nl]) ++ p ++ pages_text (S n) ps).
    rewrite !re_search_nl_cons. rewrite <- app_assoc.
    change ([nl] ++ p ++ pages_text (S n) ps)
      with (nl :: p ++ pages_text (S n) ps).
    rewrite (re_search_app_nl fl r NE WL).
    assert (Hm : re_search fl r (marker_line n) = None)
      by (apply re_search_none; now apply marker_nowhere).
    rewrite Hm. simpl. rewrite re_search_before_pages, IH.
    destruct (option_map core (re_search fl r p)); reflexivity.
Qed.

End Pages.

(** X8.  The wells of a document are the wells of its pages, page after
    page: when the parser returns a record for the text of a document, it
    returns one for the text of each page alone, and the standard wells of
    the document are those of the first page, then those of the second,
    and so on; the same holds of the control and sample wells.  The page
    markers add no well and no well line runs from a page into the next. *)
Theorem wells_page_by_page contents r :
  parse_page_content_to_json (full_content_of contents) = Ok r ->
  (exists wss,
     Forall2 (fun page ws => extract_standard_wells page = Ok ws) contents wss
     /\ standard_curve_wells (sample_data r) = List.concat wss)
  /\ (exists css,
        Forall2 (fun page cs => extract_control_wells page = Ok cs) contents css
        /\ control_and_sample_wells (sample_data r) = List.concat css).
Proof.
  intros Hp. apply parse_ok in Hp.
  destruct Hp as [_ [_ [_ [Hsw [Hcw _]]]]].
  rewrite full_content_pages in Hsw, Hcw.
  unfold extract_standard_wells in Hsw. unfold extract_control_wells in Hcw.
  rewrite findall5_pages in Hsw by reflexivity.
  rewrite findall5_pages in Hcw by reflexivity.
  apply mapM_concat in Hsw. apply mapM_concat in Hcw.
  destruct Hsw as [wss [Hw ->]]. destruct Hcw as [css [Hc ->]].
  apply Forall2_map_l in Hw. apply Forall2_map_l in Hc.
  split; [exists wss|exists css]; split; auto.
Qed.

Lemma value_of_core f m m' :
  core m = core m' -> value_of (field_rule f) m = value_of (field_rule f) m'.
Proof.
  unfold core. intros H. inversion H as [[Hm Hg]].
  destruct f; simpl; unfold group1_strip, group; rewrite Hg; reflexivity.
Qed.

Lemma first_some_skip {A} (x : option A) : forall l l',
  Forall (fun o => o = None) l -> first_some (l ++ x :: l') = first_some (x :: l').
Proof.
  induction l as [|o l IH]; intros l' H; [reflexivity|].
  inversion H; subst. simpl. now apply IH.
Qed.

(** X9.  For every single-value field but the key calculation: when no
    page before a page has a match of the pattern of the field and that page
    has one, the record of the document holds for the field the value that
    the match in that page gives, whatever the later pages hold. *)
Theorem field_from_first_page f before page after m r :
  f <> KeyCalculation ->
  Forall (matches_nowhere (rule_flags (field_rule f)) (pattern (field_rule f)))
         before ->
  re_search (rule_flags (field_rule f)) (pattern (field_rule f)) page = Some m ->
  parse_page_content_to_json (full_content_of (before ++ page :: after)) = Ok r ->
  exists v, value_of (field_rule f) m = Ok v /\ stored f r = Some v.
Proof.
  intros Hf Hbefore Hm Hp.
  assert (NE : never_empty (pattern (field_rule f)) = true)
    by (destruct f; reflexivity).
  assert (WL : within_line (rule_flags (field_rule f)) (pattern (field_rule f)) = true)
    by (destruct f; try reflexivity; contradiction).
  assert (IM : inert_in_markers (rule_flags (field_rule f)) (pattern (field_rule f)) = true)
    by (destruct f; try reflexivity; contradiction).
  pose proof (re_search_pages _ _ NE WL IM (before ++ page :: after) 0) as Hs.
  rewrite map_app in Hs. simpl map in Hs.
  rewrite first_some_skip in Hs.
  2:{ apply Forall_forall. intros o Ho. apply in_map_iff in Ho.
      destruct Ho as [p [<- Hin]]. rewrite Forall_forall in Hbefore.
      apply Hbefore in Hin. apply re_search_none in Hin. now rewrite Hin. }
  rewrite Hm in Hs. cbn [option_map first_some] in Hs.
  rewrite <- full_content_pages in Hs.
  destruct (re_search (rule_flags (field_rule f)) (pattern (field_rule f))
                      (full_content_of (before ++ page :: after)))
    as [m'|] eqn:E; [|discriminate].
  cbn [option_map] in Hs. injection Hs as Hc Hg.
  destruct (stored_of_search f _ r m' Hp E) as [v [Hv Hst]].
  exists v. split; [|exact Hst].
  rewrite <- Hv. apply value_of_core. unfold core. now rewrite Hc, Hg.
Qed.

(** * A table at the end of a page *)

Lemma match_lit_refl fl l s : match_lit fl l (l ++ s) = Some (l, s).
Proof.
  induction l as [|a l IH]; cbn [match_lit app]; [reflexivity|].
  unfold char_matches. rewrite N.eqb_refl. cbn [orb]. rewrite IH. reflexivity.
Qed.

Lemma starts_with_split sub : forall s,
  starts_with sub s = true -> exists b, s = sub ++ b.
Proof.
  induction sub as [|a sub IH]; intros s H; [now exists s|].
  destruct s as [|c s]; [discriminate|]. cbn [starts_with] in H.
  apply andb_true_iff in H. destruct H as [Hc H]. apply N.eqb_eq in Hc.
  subst c. destruct (IH _ H) as [b ->]. now exists b.
Qed.

Lemma occursb_occurs sub : forall s, occursb sub s = true -> occurs sub s.
Proof.
  induction s as [|c s IH]; intros H; rewrite occursb_eq in H;
    apply orb_true_iff in H; destruct H as [H|H].
  - apply starts_with_split in H. destruct H as [b ->]. now exists [], b.
  - discriminate.
  - apply starts_with_split in H. destruct H as [b ->]. now exists [], b.
  - destruct (IH H) as [a [b ->]]. now exists (c :: a), b.
Qed.

Lemma no_blank_line_here s :
  starts_with [nl; nl] s = false -> match_lit DOTALL [nl; nl] s = None.
Proof.
  destruct s as [|c [|c' s]]; cbn [starts_with match_lit]; unfold char_matches;
    cbn [ignorecase DOTALL andb]; rewrite ?orb_false_r;
    try reflexivity; destruct (nl =? c); try reflexivity;
    destruct (nl =? c'); try reflexivity; discriminate.
Qed.

Lemma starts_with_blank_line c b t :
  starts_with [nl; nl] (c :: b ++ [nl]) = false ->
  starts_with [nl; nl] (c :: b ++ nl :: t) = false.
Proof. destruct b; simpl; auto. Qed.

(** The lazy [.+?] of the table pattern stops at the first blank line:
    every shorter way of taking characters ends where there is none. *)
Lemma lazy_splits_first post : forall body lo,
  (lo <= List.length body)%nat ->
  occursb [nl; nl] (body ++ [nl]) = false ->
  exists l1 l2,
    rep_splits (accepts DOTALL Dot) lo None (body ++ nl :: nl :: post)
    = l1 ++ (body, nl :: nl :: post) :: l2
    /\ Forall (fun ab => match_lit DOTALL [nl; nl] (snd ab) = None) l1.
Proof.
  induction body as [|c body IH]; intros lo Hlo Hno.
  - assert (lo = 0)%nat by (simpl in Hlo; lia). subst lo.
    exists []. eexists. split; [reflexivity|constructor].
  - change ((c :: body) ++ [nl]) with (c :: body ++ [nl]) in Hno.
    rewrite occursb_eq in Hno. apply orb_false_iff in Hno.
    destruct Hno as [Hhere Hno].
    destruct (IH (pred lo)) as [l1 [l2 [Hsp Hl1]]];
      [simpl in Hlo; lia|exact Hno|].
    change ((c :: body) ++ nl :: nl :: post)
      with (c :: body ++ nl :: nl :: post).
    cbn [rep_splits]. change (accepts DOTALL Dot c) with true.
    cbn [andb allows_one option_map]. rewrite Hsp, map_app. cbn [map fst snd].
    exists ((match lo with O => [([], c :: body ++ nl :: nl :: post)] | S _ => [] end)
            ++ map (fun ab => (c :: fst ab, snd ab)) l1).
    eexists. split; [rewrite <- app_assoc; reflexivity|].
    apply Forall_app. split.
    + destruct lo; constructor; [|constructor]. cbn [snd].
      apply no_blank_line_here. now apply starts_with_blank_line.
    + apply Forall_forall. intros ab Hab. apply in_map_iff in Hab.
      destruct Hab as [ab' [<- Hab']]. rewrite Forall_forall in Hl1.
      cbn [snd]. now apply Hl1.
Qed.

Lemma flat_map_skip {A B} (f : A -> list B) l1 x l2 :
  (forall a, In a l1 -> f a = []) ->
  flat_map f (l1 ++ x :: l2) = f x ++ flat_map f l2.
Proof.
  intros H. induction l1 as [|a l1 IH]; [reflexivity|].
  cbn [app flat_map]. rewrite (H a) by now left.
  apply IH. intros a' Ha'. apply H. now right.
Qed.

(** The table pattern at a heading whose lines are followed by a blank
    line and hold none: the group is the lines. *)
Lemma table_match body post :
  body <> [] -> occursb [nl; nl] (body ++ [nl]) = false ->
  exists m,
    match_at DOTALL re_table (table_heading ++ body ++ nl :: nl :: post) = Some m
    /\ group m 1 = Some body.
Proof.
  intros Hb Hno.
  destruct (lazy_splits_first post body 1) as [l1 [l2 [Hsp Hl1]]];
    [destruct body; [contradiction|simpl; lia]|exact Hno|].
  unfold match_at, re_table, plus_lazy. cbn [matches].
  rewrite match_lit_refl. cbn [flat_map matched rest groups].
  rewrite app_nil_r, Hsp, !map_app. cbn [map].
  rewrite flat_map_skip.
  2:{ intros a Ha. apply in_map_iff in Ha. destruct Ha as [x [<- Hx]].
      apply in_map_iff in Hx. destruct Hx as [ab [<- Hab]]. cbn [rest].
      rewrite Forall_forall in Hl1.
      match goal with
      | |- map _ (match ?M with _ => _ end) = _ =>
          assert (Hn : M = None) by exact (Hl1 ab Hab); now rewrite Hn
      end. }
  cbn [rest fst snd matched groups].
  change (nl :: nl :: post) with ([nl; nl] ++ post).
  rewrite match_lit_refl. cbn [map app hd_error matched rest groups].
  eexists. split; [reflexivity|]. reflexivity.
Qed.

Lemma skipn_length_app {A} (l l' : list A) : skipn (List.length l) (l ++ l') = l'.
Proof. induction l; simpl; auto. Qed.

Lemma suffix_after {A} (u v w x : list A) :
  u ++ v = w ++ x -> (List.length u <= List.length w)%nat ->
  exists y, v = y ++ x.
Proof.
  intros E Hle. exists (skipn (List.length u) w).
  rewrite <- (skipn_length_app u v), E, skipn_app.
  replace (List.length u - List.length w)%nat with 0%nat by lia.
  reflexivity.
Qed.

(** The text of a document around one of its pages. *)
Lemma pages_split ps p qs :
  full_content_of (ps ++ p :: qs)
  = full_content_of (ps ++ [[]]) ++ p ++ pages_text (S (List.length ps)) qs.
Proof.
  rewrite !full_content_pages, !pages_text_app. cbn [pages_text].
  rewrite Nat.add_0_r, !app_nil_r, <- !app_assoc. reflexivity.
Qed.

(** Where a text does not start with [sub] at any of its first [n]
    positions, [sub] occurs at none of them. *)
Lemma first_occurrence sub s n :
  forallb (fun j => negb (starts_with sub (skipn j s))) (seq 0 n) = true ->
  forall a b, s = a ++ sub ++ b -> (n <= List.length a)%nat.
Proof.
  intros H a b E.
  destruct (Nat.le_gt_cases n (List.length a)) as [Hle|Hgt]; [exact Hle|].
  rewrite forallb_forall in H.
  assert (Hin : In (List.length a) (seq 0 n)) by (apply in_seq; lia).
  apply H in Hin. rewrite E, skipn_length_app, starts_with_app in Hin.
  discriminate.
Qed.

(** X10.  A table at the end of a page that is not the last page of the
    document is extracted from the text of the document, although its page
    alone yields none: where the lines under the first
    [## Standards Table] heading of the document run to the end of their
    page and hold no blank line, the search in the page alone finds nothing,
    and in the document the two line feeds that start the marker of the next
    page close the table, whose header and data lines are the lines of the
    page. *)
Theorem table_closed_by_page_break ps before body next later r :
  body <> [] ->
  ~ occurs [nl; nl] (body ++ [nl]) ->
  (forall a b,
     full_content_of (ps ++ (before ++ table_heading ++ body) :: next :: later)
     = a ++ table_heading ++ b ->
     (List.length (full_content_of (ps ++ [before])) <= List.length a)%nat) ->
  parse_page_content_to_json
    (full_content_of (ps ++ (before ++ table_heading ++ body) :: next :: later))
  = Ok r ->
  re_search DOTALL re_table (before ++ table_heading ++ body) = None
  /\ headers (standards_table r) = cells_of (hd [] (split nl (strip body)))
  /\ data (standards_table r)
     = map (fun line => zip_row (cells_of (hd [] (split nl (strip body))))
                                (cells_of line))
           (slice_2 (split nl (strip body))).
Proof.
  intros Hb Hno Hfirst Hp.
  assert (Hnob : occursb [nl; nl] (body ++ [nl]) = false).
  { destruct (occursb [nl; nl] (body ++ [nl])) eqn:E; [|reflexivity].
    exfalso. now apply Hno, occursb_occurs. }
  remember (full_content_of (ps ++ (before ++ table_heading ++ body) :: next :: later))
    as text eqn:Htext.
  assert (Hpre : full_content_of (ps ++ [before])
                 = full_content_of (ps ++ [[]]) ++ before).
  { rewrite pages_split. cbn [pages_text]. now rewrite app_nil_r. }
  rewrite Hpre in Hfirst.
  rewrite pages_split in Htext.
  split.
  - (* the page alone *)
    apply re_search_none. intros k.
    destruct (matches DOTALL re_table (skipn k (before ++ table_heading ++ body)))
      as [|m ms] eqn:E; [reflexivity|exfalso].
    assert (Hin : In m (matches DOTALL re_table
                                (skipn k (before ++ table_heading ++ body))))
      by (rewrite E; now left).
    apply re_table_shape in Hin. destruct Hin as [g [_ Hk]].
    pose proof (firstn_skipn k (before ++ table_heading ++ body)) as Hsplit.
    rewrite Hk in Hsplit.
    set (a := firstn k (before ++ table_heading ++ body)) in *.
    assert (Hle : (List.length before <= List.length a)%nat).
    { specialize (Hfirst (full_content_of (ps ++ [[]]) ++ a)
                         (g ++ [nl; nl] ++ rest m
                          ++ pages_text (S (List.length ps)) (next :: later))).
      rewrite !length_app in Hfirst.
      assert (text = (full_content_of (ps ++ [[]]) ++ a) ++
                     table_heading ++ g ++ [nl; nl] ++ rest m
                     ++ pages_text (S (List.length ps)) (next :: later)).
      { rewrite Htext, <- Hsplit, <- !app_assoc. reflexivity. }
      apply Hfirst in H. lia. }
    destruct (suffix_after (before ++ table_heading) body
                           (a ++ table_heading ++ g) ([nl; nl] ++ rest m))
      as [y Hy].
    + rewrite <- !app_assoc. symmetry. exact Hsplit.
    + rewrite !length_app. lia.
    + apply Hno. exists y, (rest m ++ [nl]). rewrite Hy, <- !app_assoc.
      reflexivity.
  - (* the document *)
    destruct (table_match body
                (marker_line (S (List.length ps)) ++ [nl] ++ next
                 ++ pages_text (S (S (List.length ps))) later) Hb Hnob)
      as [m [Hm Hg]].
    assert (Hs : re_search DOTALL re_table text = Some m).
    { apply re_search_leftmost
        with (k := List.length (full_content_of (ps ++ [[]]) ++ before)).
      - intros j Hj.
        destruct (matches DOTALL re_table (skipn j text)) as [|m' ms] eqn:E;
          [reflexivity|exfalso].
        assert (Hin : In m' (matches DOTALL re_table (skipn j text)))
          by (rewrite E; now left).
        apply re_table_shape in Hin. destruct Hin as [g [_ Hk]].
        pose proof (firstn_skipn j text) as Hsplit. rewrite Hk in Hsplit.
        symmetry in Hsplit. apply Hfirst in Hsplit.
        pose proof (firstn_le_length j text). lia.
      - replace text
          with ((full_content_of (ps ++ [[]]) ++ before)
                ++ table_heading ++ body ++ nl :: nl
                   :: marker_line (S (List.length ps)) ++ [nl] ++ next
                      ++ pages_text (S (S (List.length ps))) later).
        + rewrite skipn_length_app. exact Hm.
        + rewrite Htext. cbn [pages_text]. unfold page_marker.
          rewrite <- !app_assoc. cbn [app]. rewrite <- !app_assoc.
          reflexivity. }
    apply parse_ok in Hp. destruct Hp as [_ [_ [_ [_ [_ [Hst _]]]]]].
    assert (Hfull : table_rows_full text)
      by (apply extract_standards_table_ok_iff; eauto).
    rewrite (table_of_full_rows text m body Hs Hg (Hfull m body Hs Hg)) in Hst.
    inversion Hst. split; reflexivity.
Qed.

(** * The text of a document *)

Lemma pages_text_marked : forall contents page_num,
  pages_text page_num contents = List.concat (marked_pages page_num contents).
Proof.
  unfold marked_pages.
  induction contents as [|p ps IH]; intros n; [reflexivity|].
  cbn [pages_text List.length seq combine map List.concat fst snd].
  rewrite IH, <- app_assoc. reflexivity.
Qed.

(** X11.  The loop over the pages builds the text of the document page by
    page: after it, [full_content] is, for each page in order, two line
    feeds, the line [=== PAGE n ===] with the number of the page counted
    from one, a line feed and the text of the page; nothing stands between
    two pages or after the last of them. *)
Theorem full_content_by_pages contents :
  full_content_of contents = List.concat (marked_pages 0 contents)
  /\ List.length (marked_pages 0 contents) = List.length contents
  /\ forall i page,
       nth_error contents i = Some page ->
       nth_error (marked_pages 0 contents) i
       = Some (nl :: nl :: marker_line i ++ [nl] ++ page).
Proof.
  split; [|split].
  - rewrite full_content_pages. apply pages_text_marked.
  - unfold marked_pages.
    now rewrite length_map, length_combine, length_seq, Nat.min_id.
  - assert (H : forall ps n i page,
              nth_error ps i = Some page ->
              nth_error (marked_pages n ps) i
              = Some (nl :: nl :: marker_line (n + i) ++ [nl] ++ page)).
    { unfold marked_pages.
      induction ps as [|p ps IH]; intros n i page Hi; [now destruct i|].
      destruct i as [|i]; cbn [List.length seq combine map nth_error fst snd] in *.
      - inversion Hi; subst. rewrite Nat.add_0_r. unfold page_marker.
        cbn [app]. rewrite <- app_assoc. reflexivity.
      - rewrite (IH (S n) i page Hi).
        replace (S n + i)%nat with (n + S i)%nat by lia. reflexivity. }
    intros i page Hi. exact (H contents 0%nat i page Hi).
Qed.

(** * The summary of a document *)

Lemma dropwhile_keeps p x l : p x = false -> forall a,
  exists a', dropwhile p (a ++ x :: l) = a' ++ x :: l.
Proof.
  intros Hx. induction a as [|c a IH]; cbn [app dropwhile].
  - rewrite Hx. now exists [].
  - destruct (p c); [exact IH|]. now exists (c :: a).
Qed.

Lemma strip_length a x mid y b :
  is_space x = false -> is_space y = false ->
  (List.length mid + 2 <= List.length (strip (a ++ x :: mid ++ y :: b)))%nat.
Proof.
  intros Hx Hy. unfold strip, strip_with.
  destruct (dropwhile_keeps is_space x (mid ++ y :: b) Hx a) as [a' ->].
  rewrite length_rev.
  replace (a' ++ x :: mid ++ y :: b) with ((a' ++ x :: mid) ++ y :: b)
    by (rewrite <- app_assoc; reflexivity).
  rewrite rev_app_distr. cbn [rev]. rewrite <- app_assoc. cbn [app].
  destruct (dropwhile_keeps is_space y (rev (a' ++ x :: mid)) Hy (rev b))
    as [b' ->].
  rewrite length_app. cbn [List.length]. rewrite length_rev, length_app.
  cbn [List.length]. lia.
Qed.

Lemma marker_line_ends n :
  exists mm, marker_line n = 61 :: mm ++ [61] /\ (11 <= List.length mm)%nat.
Proof.
  exists (lit "== PAGE " ++ str_of_nat (n + 1) ++ lit " ==").
  split.
  - unfold marker_line. rewrite <- !app_assoc. reflexivity.
  - rewrite !length_app. simpl. lia.
Qed.

Lemma summary_of_long create content :
  content <> [] -> (50 <= List.length (strip content))%nat ->
  generate_summary create content = summary_of_reply (create (summary_prompt content)).
Proof.
  intros Hne Hlen. unfold generate_summary.
  destruct content as [|c content]; [contradiction|].
  cbn [orb]. apply Nat.ltb_ge in Hlen. now rewrite Hlen.
Qed.

(** X12.  The summary of a document of four pages or more is always asked
    of the service, whatever the pages hold: the page markers alone make
    the stripped text fifty characters long or longer.  Three pages are
    not enough: for three pages with no text the function returns its
    message for a text without content and asks nothing. *)
Theorem summary_asked_from_four_pages create contents :
  (4 <= List.length contents)%nat ->
  generate_summary create (full_content_of contents)
  = summary_of_reply (create (summary_prompt (full_content_of contents)))
  /\ generate_summary create (full_content_of [[]; []; []]) = no_summary.
Proof.
  intros Hlen. split; [|vm_compute; reflexivity].
  destruct contents as [|p1 [|p2 [|p3 [|p4 later]]]];
    try (simpl in Hlen; lia).
  destruct (marker_line_ends 0) as [m0 [E0 L0]].
  destruct (marker_line_ends 1) as [m1 [E1 L1]].
  destruct (marker_line_ends 2) as [m2 [E2 L2]].
  destruct (marker_line_ends 3) as [m3 [E3 L3]].
  assert (HT : full_content_of (p1 :: p2 :: p3 :: p4 :: later)
               = [nl; nl]
                 ++ 61 :: (m0 ++ [61; nl] ++ p1 ++ [nl; nl] ++ marker_line 1
                           ++ [nl] ++ p2 ++ [nl; nl] ++ marker_line 2 ++ [nl]
                           ++ p3 ++ [nl; nl; 61] ++ m3)
                 ++ 61 :: [nl] ++ p4 ++ pages_text 4 later).
  { rewrite full_content_pages. cbn [pages_text]. unfold page_marker.
    rewrite E0, E3. repeat (rewrite <- app_assoc || cbn [app]). reflexivity. }
  apply summary_of_long.
  - rewrite HT. discriminate.
  - rewrite HT.
    etransitivity; [|apply strip_length; reflexivity].
    rewrite !length_app, E1, E2. cbn [List.length]. rewrite !length_app.
    cbn [List.length]. lia.
Qed.

(** * The record that is saved *)


(** * The key calculation *)

Lemma not_star_no_match c s :
  c <> char_of "*" -> match_lit no_flags stars (c :: s) = None.
Proof.
  intros Hc.
  assert (H : char_matches no_flags 42 c = false).
  { unfold char_matches. cbn [ignorecase no_flags andb]. rewrite orb_false_r.
    destruct (42 =? c) eqn:E; [|reflexivity].
    apply N.eqb_eq in E. exfalso. apply Hc. now subst c. }
  change (match_lit no_flags stars (c :: s))
    with (if char_matches no_flags 42 c
          then match match_lit no_flags [42] s with
               | Some (m, r) => Some (c :: m, r)
               | None => None
               end
          else None).
  now rewrite H.
Qed.

Lemma line_end_no_match post :
  line_end post -> match_lit no_flags stars post = None.
Proof. intros [->|[q ->]]; reflexivity. Qed.

(** After a text without [*], up to the end of the line, no way of taking
    characters stops in front of [**]. *)
Lemma splits_no_star post : line_end post -> forall t lo,
  ~ In (char_of "*") t ->
  Forall (fun ab => match_lit no_flags stars (snd ab) = None)
         (rep_splits (accepts no_flags Dot) lo None (t ++ post)).
Proof.
  intros Hpost. induction t as [|c t IH]; intros lo Ht.
  - cbn [app]. destruct Hpost as [->|[q ->]]; destruct lo; cbn;
      repeat constructor.
  - cbn [app rep_splits]. apply Forall_app. split.
    + destruct lo; constructor; [|constructor]. cbn [snd].
      apply not_star_no_match. intros ->. apply Ht. now left.
    + destruct (accepts no_flags Dot c && allows_one None); [|constructor].
      apply Forall_forall. intros ab Hab. apply in_map_iff in Hab.
      destruct Hab as [ab' [<- Hab']]. cbn [snd].
      assert (Ht' : ~ In (char_of "*") t) by (intros H; apply Ht; now right).
      specialize (IH (pred lo) Ht'). rewrite Forall_forall in IH.
      now apply IH.
Qed.

(** The greedy [.+] of the pattern of the key calculation gives back
    characters down to the last [**] of the line. *)
Lemma greedy_splits_last tail post :
  line_end post -> ~ In (char_of "*") tail ->
  forall v lo,
    ~ In nl v -> (lo <= List.length v)%nat ->
    exists l1 l2,
      rep_splits (accepts no_flags Dot) lo None (v ++ stars ++ tail ++ post)
      = l1 ++ (v, stars ++ tail ++ post) :: l2
      /\ Forall (fun ab => match_lit no_flags stars (snd ab) = None) l2.
Proof.
  intros Hpost Htail. induction v as [|c v IH]; intros lo Hv Hlo.
  - assert (lo = 0)%nat by (simpl in Hlo; lia). subst lo.
    exists []. eexists. split.
    + change (stars ++ tail ++ post) with (42 :: 42 :: tail ++ post).
      cbn [app rep_splits]. change (accepts no_flags Dot 42) with true.
      cbn [andb allows_one option_map pred map fst snd app]. reflexivity.
    + constructor.
      * cbn [snd]. destruct tail as [|c tail]; cbn [app].
        -- destruct Hpost as [->|[q ->]]; reflexivity.
        -- assert (H : char_matches no_flags 42 c = false).
           { unfold char_matches. cbn [ignorecase no_flags andb].
             rewrite orb_false_r. destruct (42 =? c) eqn:E; [|reflexivity].
             apply N.eqb_eq in E. exfalso. apply Htail. left. now subst c. }
           change (match_lit no_flags stars (42 :: c :: tail ++ post))
             with (match (if char_matches no_flags 42 c
                          then match match_lit no_flags [] (tail ++ post) with
                               | Some (m, r) => Some (c :: m, r)
                               | None => None
                               end
                          else None) with
                   | Some (m, r) => Some (42 :: m, r)
                   | None => None
                   end).
           now rewrite H.
      * rewrite map_map. apply Forall_forall. intros ab Hab.
        apply in_map_iff in Hab. destruct Hab as [ab' [<- Hab']]. cbn [snd].
        pose proof (splits_no_star post Hpost tail 0%nat Htail) as H.
        rewrite Forall_forall in H. now apply H.
  - assert (Hc : accepts no_flags Dot c = true).
    { cbn. destruct (c =? nl) eqn:E; [|reflexivity].
      apply N.eqb_eq in E. exfalso. apply Hv. left. now subst c. }
    destruct (IH (pred lo)) as [l1 [l2 [Hsp Hl2]]];
      [intros H; apply Hv; now right|simpl in Hlo; lia|].
    change ((c :: v) ++ stars ++ tail ++ post)
      with (c :: v ++ stars ++ tail ++ post).
    cbn [rep_splits]. rewrite Hc.
    cbn [andb allows_one option_map]. rewrite Hsp, map_app. cbn [map fst snd].
    exists ((match lo with
             | O => [([], c :: v ++ stars ++ tail ++ post)]
             | S _ => []
             end)
            ++ map (fun ab => (c :: fst ab, snd ab)) l1).
    eexists. split; [rewrite <- app_assoc; reflexivity|].
    apply Forall_forall. intros ab Hab. apply in_map_iff in Hab.
    destruct Hab as [ab' [<- Hab']]. rewrite Forall_forall in Hl2.
    cbn [snd]. now apply Hl2.
Qed.

Lemma key_calc_match v tail post :
  v <> [] -> ~ In nl v -> ~ In (char_of "*") tail -> line_end post ->
  exists m,
    match_at no_flags re_key_calc (key_calc_heading ++ v ++ stars ++ tail ++ post)
    = Some m
    /\ group m 1 = Some v.
Proof.
  intros Hne Hv Htail Hpost.
  destruct (greedy_splits_last tail post Hpost Htail v 1) as [l1 [l2 [Hsp Hl2]]];
    [exact Hv|destruct v; [contradiction|simpl; lia]|].
  unfold match_at, re_key_calc, plus. cbn [matches].
  change (lit "## Key Calculations" ++ [nl] ++ lit "**") with key_calc_heading.
  rewrite match_lit_refl. cbn [flat_map matched rest groups].
  rewrite app_nil_r, Hsp, rev_app_distr. cbn [rev].
  rewrite <- app_assoc. cbn [app]. rewrite !map_app. cbn [map].
  rewrite flat_map_skip.
  2:{ intros a Ha. apply in_map_iff in Ha. destruct Ha as [x [<- Hx]].
      apply in_map_iff in Hx. destruct Hx as [ab [<- Hab]]. cbn [rest].
      apply in_rev in Hab. rewrite Forall_forall in Hl2.
      match goal with
      | |- map _ (match ?M with _ => _ end) = _ =>
          assert (Hn : M = None) by exact (Hl2 ab Hab); now rewrite Hn
      end. }
  cbn [rest fst snd matched groups].
  change (match_lit no_flags (lit "**") (stars ++ tail ++ post))
    with (match_lit no_flags stars (stars ++ tail ++ post)).
  rewrite match_lit_refl. cbn [map app hd_error matched rest groups].
  eexists. split; reflexivity.
Qed.

Lemma re_key_calc_shape s m :
  In m (matches no_flags re_key_calc s) -> exists b, s = key_calc_heading ++ b.
Proof.
  unfold re_key_calc, plus. intros H. inv_matches. inv_lits. split_mres. subst.
  eexists. unfold key_calc_heading. rewrite <- ?app_assoc. reflexivity.
Qed.

(** X14.  The key calculation runs to the last [**] of its line: where
    the first [## Key Calculations] heading of the text is followed by a
    line that starts with [**], has a second [**] and no [*] after it, the
    value stored is the stripped text between the two, with every [**]
    that this text itself holds. *)
Theorem key_calculation_to_last_stars pre v tail post r :
  v <> [] -> ~ In nl v -> ~ In (char_of "*") tail -> line_end post ->
  (forall a b,
     pre ++ key_calc_heading ++ v ++ stars ++ tail ++ post
     = a ++ key_calc_heading ++ b ->
     (List.length pre <= List.length a)%nat) ->
  parse_page_content_to_json (pre ++ key_calc_heading ++ v ++ stars ++ tail ++ post)
  = Ok r ->
  key_calculation r = Some (strip v).
Proof.
  intros Hne Hv Htail Hpost Hfirst Hp.
  destruct (key_calc_match v tail post Hne Hv Htail Hpost) as [m [Hm Hg]].
  assert (Hs : re_search no_flags re_key_calc
                 (pre ++ key_calc_heading ++ v ++ stars ++ tail ++ post) = Some m).
  { apply re_search_leftmost with (k := List.length pre).
    - intros j Hj.
      destruct (matches no_flags re_key_calc
                  (skipn j (pre ++ key_calc_heading ++ v ++ stars ++ tail ++ post)))
        as [|m' ms] eqn:E; [reflexivity|exfalso].
      assert (Hin : In m' (matches no_flags re_key_calc
                    (skipn j (pre ++ key_calc_heading ++ v ++ stars ++ tail ++ post))))
        by (rewrite E; now left).
      apply re_key_calc_shape in Hin. destruct Hin as [b Hk].
      pose proof (firstn_skipn j
                    (pre ++ key_calc_heading ++ v ++ stars ++ tail ++ post))
        as Hsplit.
      rewrite Hk in Hsplit. symmetry in Hsplit. apply Hfirst in Hsplit.
      pose proof (firstn_le_length j
                    (pre ++ key_calc_heading ++ v ++ stars ++ tail ++ post)).
      lia.
    - rewrite skipn_length_app. exact Hm. }
  apply parse_ok in Hp. destruct Hp as [_ [_ [_ [_ [_ [_ [Hkc _]]]]]]].
  unfold extract_key_calculation in Hkc. rewrite Hs in Hkc.
  rewrite Hg in Hkc. cbn in Hkc. inversion Hkc. reflexivity.
Qed.

(** * The numbers of the wells *)

Lemma round_binary64_sign neg n d : has_sign neg (round_binary64 neg n d).
Proof.
  unfold round_binary64. cbv zeta.
  repeat match goal with
         | |- context [let '(_, _) := ?x in _] => destruct x
         end.
  repeat match goal with
         | |- has_sign _ (match ?x with _ => _ end) => destruct x
         | |- has_sign _ (if ?x then _ else _) => destruct x
         end; reflexivity.
Qed.

Lemma float_of_decimal_sign neg m e : has_sign neg (float_of_decimal neg m e).
Proof.
  unfold float_of_decimal. destruct m; [reflexivity|].
  destruct (0 <=? e)%Z; apply round_binary64_sign.
Qed.

Lemma floatnumber_sign neg s f : floatnumber neg s = Ok f -> has_sign neg f.
Proof.
  unfold floatnumber. destruct (digitpart s) as [ip s1].
  destruct (match s1 with 46 :: s1' => digitpart s1' | _ => ([], s1) end)
    as [fp s2].
  destruct (exponent s2) as [[e [|c r]]|];
    destruct ip, fp; try discriminate;
    intros H; inversion H; apply float_of_decimal_sign.
Qed.

Ltac bools :=
  repeat match goal with
         | H : _ && _ = true |- _ => apply andb_true_iff in H; destruct H
         | H : _ || _ = true |- _ => apply orb_true_iff in H; destruct H
         | H : (_ <=? _) = true |- _ => apply N.leb_le in H
         | H : (_ <? _) = true |- _ => apply N.ltb_lt in H
         | H : (_ =? _) = true |- _ => apply N.eqb_eq in H
         | H : (_ <=? _) = false |- _ => apply N.leb_gt in H
         | H : (_ <? _) = false |- _ => apply N.ltb_ge in H
         | H : (_ =? _) = false |- _ => apply N.eqb_neq in H
         end.

Lemma plain_cases a :
  plain a = true ->
  (48 <= a <= 57) \/ a = 46 \/ a = 101 \/ a = 44 \/ a = 32 \/ a = 63.
Proof. unfold plain, ascii_digit. intros H. bools; lia. Qed.

Lemma plain_of_cases a :
  (48 <= a <= 57) \/ a = 46 \/ a = 101 \/ a = 44 \/ a = 32 \/ a = 63 ->
  plain a = true.
Proof.
  unfold plain, ascii_digit. intros H.
  destruct (48 <=? a) eqn:E1; destruct (a <=? 57) eqn:E2;
    destruct (a =? 46) eqn:E3; destruct (a =? 101) eqn:E4;
    destruct (a =? 44) eqn:E5; destruct (a =? 32) eqn:E6;
    destruct (a =? 63) eqn:E7; try reflexivity; bools; lia.
Qed.

(** A character of [[\d\.e,]] is read by [float] as a digit, a point, an
    [e], a comma, a space or a character that is part of no number. *)
Lemma accepted_plain c :
  accepts no_flags number_chars c = true -> plain (to_ascii c) = true.
Proof.
  unfold accepts, number_chars. cbn [existsb item_accepts ignorecase no_flags andb].
  rewrite !orb_false_r. intros H.
  apply orb_true_iff in H. destruct H as [H|H].
  - unfold is_decimal in H. unfold to_ascii.
    destruct (is_ascii c).
    + apply plain_of_cases. left. unfold ascii_digit in H. bools. lia.
    + destruct (isspace U c); [reflexivity|].
      destruct (decimal_value U c) as [d|]; [|discriminate].
      rewrite H. apply plain_of_cases. left. bools. lia.
  - assert (Hc : c = 46 \/ c = 101 \/ c = 44).
    { bools; subst; auto. }
    destruct Hc as [-> | [-> | ->]]; reflexivity.
Qed.

Lemma digit_dot_number_chars c :
  accepts no_flags digit_dot c = true -> accepts no_flags number_chars c = true.
Proof.
  unfold accepts, digit_dot, number_chars.
  cbn [existsb item_accepts ignorecase no_flags andb]. rewrite !orb_false_r.
  intros H. apply orb_true_iff in H. destruct H as [-> | ->];
    rewrite ?orb_true_r; reflexivity.
Qed.

Lemma dropwhile_in p x : forall l, In x (dropwhile p l) -> In x l.
Proof.
  induction l as [|a l IH]; cbn [dropwhile]; [auto|].
  destruct (p a); [right; auto|auto].
Qed.

Lemma strip_with_in p x l : In x (strip_with p l) -> In x l.
Proof.
  unfold strip_with. intros H. apply in_rev in H. apply dropwhile_in in H.
  apply in_rev in H. now apply dropwhile_in in H.
Qed.

Lemma sign_of_other a t : a <> 43 -> a <> 45 -> sign_of (a :: t) = (false, a :: t).
Proof.
  intros H1 H2. destruct a as [|p]; [reflexivity|].
  do 7 (try (destruct p as [p|p|]; try reflexivity)); congruence.
Qed.

Lemma str_eqb_head x a y b : x <> y -> str_eqb (x :: a) (y :: b) = false.
Proof. intros H. apply str_eqb_neq. congruence. Qed.

(** [float] of a text of such characters: when it returns, the number is
    neither negative nor a NaN. *)
Lemma float_not_negative s f :
  Forall (fun c => accepts no_flags number_chars c = true) s ->
  float s = Ok f -> not_negative f.
Proof.
  intros Hs. unfold float.
  assert (Ht : forall a, In a (strip_with c_isspace (map to_ascii s)) ->
                         plain a = true).
  { intros a Ha. apply strip_with_in in Ha. apply in_map_iff in Ha.
    destruct Ha as [c [<- Hc]]. rewrite Forall_forall in Hs.
    apply accepted_plain. now apply Hs. }
  destruct (strip_with c_isspace (map to_ascii s)) as [|a t].
  - cbn. discriminate.
  - assert (Ha : plain a = true) by (apply Ht; now left).
    apply plain_cases in Ha.
    rewrite sign_of_other by lia.
    assert (Hl : to_lower a = a).
    { unfold to_lower, ascii_upper.
      destruct ((65 <=? a) && (a <=? 90)) eqn:E; [|reflexivity]. bools. lia. }
    cbn [map]. rewrite Hl.
    change (lit "inf") with (105 :: lit "nf").
    change (lit "infinity") with (105 :: lit "nfinity").
    change (lit "nan") with (110 :: lit "an").
    rewrite !str_eqb_head by lia. cbn [orb].
    apply floatnumber_sign.
Qed.

Lemma remove_commas_accepted s :
  Forall (fun c => accepts no_flags number_chars c = true) s ->
  Forall (fun c => accepts no_flags number_chars c = true) (remove_commas s).
Proof.
  rewrite !Forall_forall. intros H c Hc. unfold remove_commas in Hc.
  apply filter_In in Hc. apply H. tauto.
Qed.

(** The numbers of a match of the standard-well pattern. *)
Lemma re_stds_numbers s m :
  In m (matches no_flags re_stds s) ->
  Forall (fun c => accepts no_flags digit_dot c = true) (group_or_empty m 2)
  /\ Forall (fun c => accepts no_flags number_chars c = true) (group_or_empty m 3)
  /\ Forall (fun c => accepts no_flags number_chars c = true) (group_or_empty m 4).
Proof.
  unfold re_stds, plus. intros H. inv_matches. inv_lits. split_mres. subst.
  unfold group_or_empty, group. cbn [groups lookup_group app Nat.eqb].
  repeat split; assumption.
Qed.

(** The numbers of a match of the control pattern. *)
Lemma re_controls_numbers s m :
  In m (matches no_flags re_controls s) ->
  Forall (fun c => accepts no_flags number_chars c = true) (group_or_empty m 3)
  /\ Forall (fun c => accepts no_flags number_chars c = true) (group_or_empty m 4).
Proof.
  unfold re_controls, plus, plus_lazy. intros H. inv_matches.
  apply in_matches_alt in H. destruct H as [H|H]; inv_matches; inv_lits;
    split_mres; subst;
    unfold group_or_empty, group; cbn [groups lookup_group app Nat.eqb];
    split; first [assumption|constructor].
Qed.

Lemma if_nonempty_float x o :
  Forall (fun c => accepts no_flags number_chars c = true) x ->
  if_nonempty x (fun y => float (remove_commas y)) = Ok o ->
  none_or_not_negative o.
Proof.
  intros Hx. unfold if_nonempty. destruct x as [|c x].
  - intros H. inversion H. exact I.
  - intros H. apply bind_ok in H. destruct H as [f [Hf H]].
    inversion H. cbn. eapply float_not_negative; [|exact Hf].
    now apply remove_commas_accepted.
Qed.

(** X15.  No number of a well is negative or a NaN: in every record the
    parser returns, the concentration, the fluorescence value and the
    reduced value of every standard well, and the two values of every
    control or sample well that has them, are zero, positive or positive
    infinity.  The patterns let no sign and no letter but [e] into a number;
    infinity is reached by a large exponent. *)
Theorem well_numbers_not_negative text r :
  parse_page_content_to_json text = Ok r ->
  Forall (fun w => not_negative (StandardWell.concentration w)
                   /\ not_negative (StandardWell.fluorescence_value w)
                   /\ not_negative (StandardWell.reduced_value w))
         (standard_curve_wells (sample_data r))
  /\ Forall (fun w => none_or_not_negative (ControlWell.fluorescence_value w)
                      /\ none_or_not_negative (ControlWell.reduced_value w))
            (control_and_sample_wells (sample_data r))
  /\ float (lit "1e999") = Ok (F_inf false).
Proof.
  intros Hp. split; [|split]; [| |vm_compute; reflexivity];
    apply Forall_forall; intros w Hw.
  - destruct (standard_well_source text r w Hp Hw) as [pos [m [Hm Hwell]]].
    apply re_stds_numbers in Hm. destruct Hm as [H2 [H3 H4]].
    unfold tuple5, standard_well in Hwell.
    apply bind_ok in Hwell. destruct Hwell as [c [Hc Hwell]].
    apply bind_ok in Hwell. destruct Hwell as [v [Hv Hwell]].
    apply bind_ok in Hwell. destruct Hwell as [rd [Hrd Hwell]].
    inversion Hwell; subst w. cbn.
    repeat split.
    + eapply float_not_negative; [|exact Hc].
      eapply Forall_impl; [|exact H2]. apply digit_dot_number_chars.
    + eapply float_not_negative; [|exact Hv]. now apply remove_commas_accepted.
    + eapply float_not_negative; [|exact Hrd]. now apply remove_commas_accepted.
  - destruct (control_well_source text r w Hp Hw) as [pos [m [Hm Hwell]]].
    apply re_controls_numbers in Hm. destruct Hm as [H3 H4].
    unfold tuple5, control_well in Hwell.
    apply bind_ok in Hwell. destruct Hwell as [v [Hv Hwell]].
    apply bind_ok in Hwell. destruct Hwell as [rd [Hrd Hwell]].
    apply bind_ok in Hwell. destruct Hwell as [d [Hd Hwell]].
    inversion Hwell; subst w. cbn.
    split.
    + exact (if_nonempty_float _ _ H3 Hv).
    + exact (if_nonempty_float _ _ H4 Hrd).
Qed.

(** * The fields whose pattern fixes their form *)

Lemma rep_splits_hi p : forall s lo h a b,
  In (a, b) (rep_splits p lo (Some h) s) -> (List.length a <= h)%nat.
Proof.
  induction s as [|c s IH]; intros lo h a b H; cbn [rep_splits] in H.
  - rewrite app_nil_r in H. destruct lo; [|destruct H].
    destruct H as [H|[]]. inversion H. simpl. lia.
  - apply in_app_or in H. destruct H as [H|H].
    + destruct lo; [|destruct H]. destruct H as [H|[]]. inversion H.
      simpl. lia.
    + destruct (p c && allows_one (Some h)) eqn:E; [|destruct H].
      apply andb_true_iff in E. destruct E as [_ E].
      destruct h as [|h]; [discriminate|].
      apply in_map_iff in H. destruct H as [[a' b'] [Hab Hin]].
      inversion Hab; subst. cbn [option_map pred] in Hin.
      apply IH in Hin. simpl. lia.
Qed.

Lemma in_matches_exactly fl cs n s m :
  In m (matches fl (exactly n cs) s) ->
  s = matched m ++ rest m
  /\ Forall (fun c => accepts fl cs c = true) (matched m)
  /\ List.length (matched m) = n
  /\ groups m = [].
Proof.
  intros H. pose proof (in_matches_rep _ _ _ _ _ _ _ H) as [Hs [Ha [Hlo Hg]]].
  repeat split; try assumption.
  unfold exactly in H. cbn [matches] in H.
  apply in_map_iff in H. destruct H as [[a b] [<- Hin]].
  apply in_rev in Hin. apply rep_splits_hi in Hin.
  cbn [matched fst] in *. lia.
Qed.

Ltac inv_exactly :=
  repeat match goal with
    | H : In _ (matches _ (_ >> _) _) |- _ =>
        apply in_matches_cat in H;
        let m1 := fresh "m" in let m2 := fresh "m" in
        destruct H as (m1 & m2 & ? & H & ? & ? & ?)
    | H : In _ (matches _ (Grp _ _) _) |- _ =>
        apply in_matches_grp in H;
        let m1 := fresh "m" in
        destruct H as (m1 & H & ? & ? & ?)
    | H : In _ (matches _ (Lit _) _) |- _ =>
        apply in_matches_lit in H; destruct H as (? & ?)
    | H : In _ (matches _ (exactly _ _) _) |- _ =>
        apply in_matches_exactly in H; destruct H as (? & ? & ? & ?)
    end.

Lemma accepts_letter c :
  accepts no_flags letter c = true -> ascii_upper c || ascii_lower c = true.
Proof.
  unfold accepts, letter. cbn [existsb item_accepts ignorecase no_flags andb].
  rewrite !orb_false_r. auto.
Qed.

Lemma accepts_word c : accepts no_flags word c = true -> is_word c = true.
Proof.
  unfold accepts, word. cbn [existsb item_accepts ignorecase no_flags andb].
  rewrite !orb_false_r. auto.
Qed.

Lemma accepts_digit_dot c :
  accepts no_flags digit_dot c = true -> is_decimal c = true \/ c = char_of ".".
Proof.
  unfold accepts, digit_dot. cbn [existsb item_accepts ignorecase no_flags andb].
  rewrite !orb_false_r. intros H. apply orb_true_iff in H.
  destruct H as [H|H]; [now left|right]. now apply N.eqb_eq in H.
Qed.

(** The date of a match of the pattern of the date. *)
Lemma re_date_stamp s m :
  In m (matches no_flags re_date s) ->
  exists v, group m 1 = Some v /\ date_stamp v.
Proof.
  unfold re_date. intros H. inv_exactly. inv_lits. split_mres. subst.
  unfold group. cbn [groups lookup_group app Nat.eqb].
  eexists. split; [reflexivity|].
  unfold date_stamp. do 6 eexists.
  split; [reflexivity|].
  repeat (split; [assumption|]).
  split.
  - repeat (apply Forall_app; split);
      (eapply Forall_impl; [|eassumption]); apply accepts_digit.
  - eapply Forall_impl; [|eassumption]. apply accepts_letter.
Qed.

Lemma re_temp_text s m :
  In m (matches no_flags re_temp s) ->
  exists n, group m 1 = Some n /\ n <> []
            /\ Forall (fun c => is_decimal c = true \/ c = char_of ".") n.
Proof.
  unfold re_temp, plus. intros H. inv_matches. inv_lits. split_mres. subst.
  unfold group. cbn [groups lookup_group app Nat.eqb].
  eexists. split; [reflexivity|]. split.
  - intros E. rewrite E in *. simpl in *. lia.
  - eapply Forall_impl; [|eassumption]. apply accepts_digit_dot.
Qed.

Lemma re_wl_comb_word s m :
  In m (matches no_flags re_wl_comb s) ->
  exists v, group m 1 = Some v /\ word_text v.
Proof.
  unfold re_wl_comb, plus. intros H. inv_matches. inv_lits. split_mres. subst.
  unfold group. cbn [groups lookup_group app Nat.eqb].
  eexists. split; [reflexivity|]. split.
  - intros E. rewrite E in *. simpl in *. lia.
  - eapply Forall_impl; [|eassumption]. apply accepts_word.
Qed.

(** The match that a stored value comes from. *)
Lemma stored_source f text r v :
  parse_page_content_to_json text = Ok r ->
  stored f r = Some (Some v) ->
  exists k m,
    In m (matches (rule_flags (field_rule f)) (pattern (field_rule f))
                  (skipn k text))
    /\ value_of (field_rule f) m = Ok (Some v).
Proof.
  intros Hp Hst.
  destruct (re_search (rule_flags (field_rule f)) (pattern (field_rule f)) text)
    as [m|] eqn:E.
  - destruct (stored_of_search f text r m Hp E) as [v' [Hv Hst']].
    apply re_search_in in E. destruct E as [k Hk].
    exists k, m. split; [exact Hk|]. congruence.
  - pose proof (absent_of_search f text r Hp E) as Ha.
    destruct f; unfold absent, stored in *; congruence.
Qed.

(** X16.  Three fields have the form that their pattern fixes, in every
    record the parser returns: a date has two digits, three letters, four
    digits and three times two digits with their separators, twenty
    characters in all; a wavelength combination is a word, not empty; a
    mean temperature is digits and points, at least one, followed by
    [°C].  None of the three is checked any further, and the temperature is
    not converted to a number. *)
Theorem constrained_field_forms text r :
  parse_page_content_to_json text = Ok r ->
  (forall v, stored Date r = Some (Some v) ->
             date_stamp v /\ List.length v = 20%nat)
  /\ (forall v, stored WavelengthCombination r = Some (Some v) -> word_text v)
  /\ (forall v, stored MeanTemperature r = Some (Some v) -> temperature_text v).
Proof.
  intros Hp. split; [|split]; intros v Hv;
    destruct (stored_source _ text r v Hp Hv) as [k [m [Hm Hval]]];
    cbn [field_rule rule_of rule_flags pattern value_of] in Hm, Hval.
  - apply re_date_stamp in Hm. destruct Hm as [v' [Hg Hd]].
    rewrite Hg in Hval. inversion Hval; subst v'. split; [exact Hd|].
    destruct Hd as (dd & mon & yyyy & hh & mi & ss & -> & H1 & H2 & H3 & H4
                    & H5 & H6 & _).
    rewrite !length_app, H1, H2, H3, H4, H5, H6. reflexivity.
  - apply re_wl_comb_word in Hm. destruct Hm as [v' [Hg Hw]].
    rewrite Hg in Hval. inversion Hval; subst v'. exact Hw.
  - apply re_temp_text in Hm. destruct Hm as [n [Hg [Hne Hn]]].
    rewrite Hg in Hval. cbn in Hval. inversion Hval.
    exists n. auto.
Qed.

End Extractor.

(** * Concrete instances

    The theorems above hold for every Unicode database.  The instances below
    run them on ASCII texts, with the database that has no entry above
    ASCII. *)

Open Scope string_scope.
Open Scope list_scope.

Lemma short_row_raises_witness :
  (List.length (cells_of ascii_db "| 1.5 |") < List.length [lit "A"; lit "B"])%nat
  /\ table_row ascii_db [lit "A"; lit "B"] "| 1.5 |" = Raise IndexError.
Proof.
  assert (H : (List.length (cells_of ascii_db "| 1.5 |")
               < List.length [lit "A"; lit "B"])%nat)
    by (vm_compute; lia).
  split; [exact H|].
  exact (short_row_raises ascii_db [lit "A"; lit "B"] "| 1.5 |" H).
Defined.

Lemma std_line_record_witness :
  line_start lines_before /\ line_end lines_after
  /\ In std_line_tuple
        (findall5 ascii_db no_flags re_stds (lines_before ++ std_line ++ lines_after))
  /\ standard_well ascii_db std_line_tuple = Ok std_line_well
  /\ forall r,
       parse_page_content_to_json ascii_db (lines_before ++ std_line ++ lines_after)
       = Ok r ->
       In std_line_well (standard_curve_wells (sample_data r)).
Proof.
  assert (Hb : line_start lines_before).
  { right. exists (lit "=== PAGE 1 ===" ++ [nl] ++ lit "## Sample Data").
    reflexivity. }
  assert (Ha : line_end lines_after).
  { right. exists (lit "- **B1**: Blank - Date: No Data"). reflexivity. }
  split; [exact Hb|]. split; [exact Ha|].
  exact (std_line_record ascii_db lines_before lines_after Hb Ha).
Defined.

Lemma no_data_well_witness :
  exists well sample,
    group no_data_match 1 = Some well /\ group no_data_match 2 = Some sample
    /\ control_well ascii_db (tuple5 no_data_match)
       = Ok {| ControlWell.well := well;
               ControlWell.sample_type := strip ascii_db sample;
               ControlWell.fluorescence_value := None;
               ControlWell.reduced_value := None;
               ControlWell.date := None |}
    /\ forall r, parse_page_content_to_json ascii_db no_data_line = Ok r ->
         In {| ControlWell.well := well;
               ControlWell.sample_type := strip ascii_db sample;
               ControlWell.fluorescence_value := None;
               ControlWell.reduced_value := None;
               ControlWell.date := None |}
            (control_and_sample_wells (sample_data r)).
Proof.
  apply (no_data_well ascii_db no_data_line 0 no_data_match).
  - vm_compute. left. reflexivity.
  - vm_compute. reflexivity.
Defined.

Lemma error_text_matches_nothing : no_pattern_matches ascii_db error_text.
Proof.
  unfold no_pattern_matches, all_patterns. simpl.
  repeat (apply Forall_cons; [apply re_search_none; vm_compute; reflexivity|]).
  apply Forall_nil.
Qed.

Lemma nothing_matches_empty_record_witness :
  no_pattern_matches ascii_db error_text
  /\ parse_page_content_to_json ascii_db error_text = Ok (empty_record error_text).
Proof.
  split; [exact error_text_matches_nothing|].
  exact (nothing_matches_empty_record ascii_db error_text error_text_matches_nothing).
Defined.

Lemma first_match_wins_witness :
  parse_page_content_to_json ascii_db two_instruments_text = Ok two_instruments_record
  /\ match_at ascii_db no_flags re_instr (skipn 0 two_instruments_text)
     = Some two_instruments_match
  /\ exists v, value_of (field_rule ascii_db Instrument) two_instruments_match = Ok v
               /\ stored ascii_db Instrument two_instruments_record = Some v.
Proof.
  assert (Hp : parse_page_content_to_json ascii_db two_instruments_text
               = Ok two_instruments_record) by (vm_compute; reflexivity).
  assert (Hm : match_at ascii_db no_flags re_instr (skipn 0 two_instruments_text)
               = Some two_instruments_match) by (vm_compute; reflexivity).
  split; [exact Hp|]. split; [exact Hm|].
  apply (first_match_wins ascii_db Instrument two_instruments_text
           two_instruments_record 0 two_instruments_match Hp).
  - intros j Hj. lia.
  - exact Hm.
Defined.

Lemma wells_and_rows_in_text_order_witness :
  parse_page_content_to_json ascii_db repeated_wells_text = Ok repeated_wells_record
  /\ Forall2 (fun pm w => standard_well ascii_db (tuple5 (snd pm)) = Ok w)
       (finditer ascii_db no_flags re_stds repeated_wells_text)
       (standard_curve_wells (sample_data repeated_wells_record)).
Proof.
  assert (Hp : parse_page_content_to_json ascii_db repeated_wells_text
               = Ok repeated_wells_record) by (vm_compute; reflexivity).
  split; [exact Hp|].
  exact (proj1 (proj2 (wells_and_rows_in_text_order ascii_db
                         repeated_wells_text repeated_wells_record Hp))).
Defined.

Lemma unterminated_table_not_extracted_witness :
  re_search ascii_db DOTALL re_table unterminated_table_text = None
  /\ forall r, parse_page_content_to_json ascii_db unterminated_table_text = Ok r ->
       headers (standards_table r) = [] /\ data (standards_table r) = [].
Proof.
  exact (unterminated_table_not_extracted ascii_db unterminated_table_text
           unterminated_table_no_blank_line).
Defined.

(** ** Instances of the further properties *)

Lemma parse_raises_only_witness :
  parse_page_content_to_json ascii_db short_row_text = Raise IndexError
  /\ (IndexError = ValueError \/ IndexError = IndexError).
Proof.
  assert (Hp : parse_page_content_to_json ascii_db short_row_text = Raise IndexError)
    by (vm_compute; reflexivity).
  split; [exact Hp|].
  exact (parse_raises_only ascii_db short_row_text IndexError Hp).
Defined.

Lemma field_present_iff_matched_witness :
  parse_page_content_to_json ascii_db two_instruments_text = Ok two_instruments_record
  /\ present ascii_db Instrument two_instruments_record
  /\ absent ascii_db Rom two_instruments_record.
Proof.
  assert (Hp : parse_page_content_to_json ascii_db two_instruments_text
               = Ok two_instruments_record) by (vm_compute; reflexivity).
  split; [exact Hp|]. split.
  - apply (proj1 (proj2 (field_present_iff_matched ascii_db Instrument
                           two_instruments_text two_instruments_record Hp))).
    intros H. specialize (H 0%nat). vm_compute in H. discriminate.
  - apply (proj1 (field_present_iff_matched ascii_db Rom
                    two_instruments_text two_instruments_record Hp)).
    apply re_search_none. vm_compute. reflexivity.
Defined.

Lemma well_ids_witness :
  parse_page_content_to_json ascii_db repeated_wells_text = Ok repeated_wells_record
  /\ Forall (fun w => well_id ascii_db "A" (StandardWell.well w))
       (standard_curve_wells (sample_data repeated_wells_record))
  /\ Forall (fun w => well_id ascii_db "B" (ControlWell.well w))
       (control_and_sample_wells (sample_data repeated_wells_record)).
Proof.
  assert (Hp : parse_page_content_to_json ascii_db repeated_wells_text
               = Ok repeated_wells_record) by (vm_compute; reflexivity).
  split; [exact Hp|].
  exact (well_ids ascii_db repeated_wells_text repeated_wells_record Hp).
Defined.

Lemma longer_well_id_no_match_witness :
  two_digit_well_line
  = well_line_start "A" 49%N 48%N
      (lit "**: 5.0 Std - 7 (Reduced: 6) - Date: 01-01-2024")
  /\ matches ascii_db no_flags re_stds two_digit_well_line = [].
Proof.
  split; [reflexivity|].
  apply (proj1 (longer_well_id_no_match ascii_db 49%N 48%N
                  (lit "**: 5.0 Std - 7 (Reduced: 6) - Date: 01-01-2024")
                  ltac:(discriminate))).
Defined.

Lemma control_values_all_or_none_witness :
  exists r,
    parse_page_content_to_json ascii_db no_data_line = Ok r
    /\ Forall all_or_none (control_and_sample_wells (sample_data r)).
Proof.
  eexists. split; [vm_compute; reflexivity|].
  apply (control_values_all_or_none ascii_db no_data_line).
  vm_compute. reflexivity.
Defined.

Lemma row_keys_last_column_wins_witness :
  exists row,
    table_row ascii_db (cells_of ascii_db twin_header_line) twin_data_line = Ok row
    /\ NoDup (map fst row)
    /\ dict_get (lit "A") row = Some (CellFloat (dec 2%N 0%Z)).
Proof.
  eexists. split; [vm_compute; reflexivity|].
  pose proof (row_keys_last_column_wins ascii_db
                (cells_of ascii_db twin_header_line) twin_data_line
                [(lit "A", CellFloat (dec 2%N 0%Z))]
                ltac:(vm_compute; reflexivity)) as H.
  split; [exact (proj1 H)|].
  exact (proj2 (proj2 H) 1%nat (lit "A") (lit "2")
           ltac:(vm_compute; reflexivity) ltac:(vm_compute; reflexivity)
           ltac:(intros [|[|[|j]]] Hj; vm_compute; try lia; discriminate)).
Defined.

Lemma wells_page_by_page_witness :
  parse_page_content_to_json ascii_db (full_content_of two_pages)
  = Ok two_pages_record
  /\ exists wss,
       Forall2 (fun page ws => extract_standard_wells ascii_db page = Ok ws)
               two_pages wss
       /\ standard_curve_wells (sample_data two_pages_record) = List.concat wss.
Proof.
  assert (Hp : parse_page_content_to_json ascii_db (full_content_of two_pages)
               = Ok two_pages_record) by (vm_compute; reflexivity).
  split; [exact Hp|].
  exact (proj1 (wells_page_by_page ascii_db two_pages two_pages_record Hp)).
Defined.

Lemma field_from_first_page_witness :
  parse_page_content_to_json ascii_db (full_content_of two_pages)
  = Ok two_pages_record
  /\ re_search ascii_db no_flags re_doc_title (nth 1 two_pages [])
     = Some two_pages_title_match
  /\ exists v, value_of (field_rule ascii_db Title) two_pages_title_match = Ok v
               /\ stored ascii_db Title two_pages_record = Some v.
Proof.
  assert (Hp : parse_page_content_to_json ascii_db (full_content_of two_pages)
               = Ok two_pages_record) by (vm_compute; reflexivity).
  assert (Hm : re_search ascii_db no_flags re_doc_title (nth 1 two_pages [])
               = Some two_pages_title_match) by (vm_compute; reflexivity).
  split; [exact Hp|]. split; [exact Hm|].
  apply (field_from_first_page ascii_db Title (firstn 1 two_pages)
           (nth 1 two_pages []) [] two_pages_title_match two_pages_record).
  - discriminate.
  - constructor; [|constructor].
    apply re_search_none. vm_compute. reflexivity.
  - exact Hm.
  - exact Hp.
Defined.

Lemma table_closed_by_page_break_witness :
  parse_page_content_to_json ascii_db (full_content_of table_then_page)
  = Ok table_then_page_record
  /\ re_search ascii_db DOTALL re_table unterminated_table_text = None
  /\ headers (standards_table table_then_page_record)
     = cells_of ascii_db (hd [] (split nl (strip ascii_db table_body))).
Proof.
  assert (Hp : parse_page_content_to_json ascii_db (full_content_of table_then_page)
               = Ok table_then_page_record) by (vm_compute; reflexivity).
  split; [exact Hp|].
  pose proof (table_closed_by_page_break ascii_db [] [] table_body (lit "Notes") []
                table_then_page_record
                ltac:(discriminate)
                ltac:(intros H; apply occurs_occursb in H; vm_compute in H;
                      discriminate)
                ltac:(apply first_occurrence; vm_compute; reflexivity)
                Hp) as H.
  split; [exact (proj1 H)|exact (proj1 (proj2 H))].
Defined.

Lemma summary_asked_from_four_pages_witness :
  generate_summary ascii_db (fun _ => inl (lit "Four pages."))
                   (full_content_of four_empty_pages)
  = lit "Four pages.".
Proof.
  exact (proj1 (summary_asked_from_four_pages ascii_db
                  (fun _ => inl (lit "Four pages.")) four_empty_pages
                  ltac:(vm_compute; lia))).
Defined.


Lemma key_calculation_to_last_stars_witness :
  parse_page_content_to_json ascii_db key_calc_text = Ok key_calc_record
  /\ key_calculation key_calc_record = Some (strip ascii_db (lit "a** and **b")).
Proof.
  assert (Hp : parse_page_content_to_json ascii_db key_calc_text = Ok key_calc_record)
    by (vm_compute; reflexivity).
  split; [exact Hp|].
  apply (key_calculation_to_last_stars ascii_db [] (lit "a** and **b")
           (lit " end") [] key_calc_record).
  - discriminate.
  - intros H. simpl in H.
    repeat (destruct H as [H|H]; [discriminate|]). exact H.
  - intros H. simpl in H.
    repeat (destruct H as [H|H]; [discriminate|]). exact H.
  - now left.
  - intros a b _. simpl. lia.
  - exact Hp.
Defined.

Lemma well_numbers_not_negative_witness :
  parse_page_content_to_json ascii_db repeated_wells_text = Ok repeated_wells_record
  /\ Forall (fun w => not_negative (StandardWell.concentration w)
                      /\ not_negative (StandardWell.fluorescence_value w)
                      /\ not_negative (StandardWell.reduced_value w))
       (standard_curve_wells (sample_data repeated_wells_record)).
Proof.
  assert (Hp : parse_page_content_to_json ascii_db repeated_wells_text
               = Ok repeated_wells_record) by (vm_compute; reflexivity).
  split; [exact Hp|].
  exact (proj1 (well_numbers_not_negative ascii_db repeated_wells_text
                  repeated_wells_record Hp)).
Defined.

Lemma constrained_field_forms_witness :
  parse_page_content_to_json ascii_db date_text = Ok date_record
  /\ date_stamp ascii_db date_value
  /\ List.length date_value = 20%nat.
Proof.
  assert (Hp : parse_page_content_to_json ascii_db date_text = Ok date_record)
    by (vm_compute; reflexivity).
  split; [exact Hp|].
  apply (proj1 (constrained_field_forms ascii_db date_text date_record Hp)
           date_value).
  vm_compute. reflexivity.
Defined.
